(** * Planar multibody models in natural coordinates

    A shallow embedding of the assembled rigid model
    ([CAssembledRigidModel]), of the symbolic assembly of a model definition
    ([ModelDefinition::assembleRigidMBS]) and of the gyroscope factor
    ([FactorGyroscope::evaluateError]).

    Conventions of the embedding:
    - a C++ [double] is a real number of the standard library, so the
      statements are about exact arithmetic and say nothing on rounding;
    - [size_t] and [dof_index_t] are binary naturals ([N]); container sizes
      stay far below [2^64], so index arithmetic never wraps;
    - a call either returns, throws, or leaves the behaviour undefined
      ([result]);
    - methods that write to an object return the object's new value next to
      their result. *)

From Stdlib Require Import Reals Lra Lia String Ascii DecimalString NArith
  List Bool Sorted.
From stdpp Require Import base list.
Import ListNotations.

Set Default Proof Using "Type".

(** ** Outcome of a call *)

(** [Ok a]: normal return.  [Throw what]: a C++ exception carrying [what].
    [Undef]: the sources do not define the behaviour (unchecked access out
    of range of a [std::vector] or of an Eigen vector). *)
Inductive result (A : Type) : Type :=
| Ok (a : A)
| Throw (what : string)
| Undef.

Arguments Ok {A} a.
Arguments Throw {A} what.
Arguments Undef {A}.

#[export] Instance result_ret : MRet result := fun _ a => Ok a.

#[export] Instance result_bind : MBind result := fun _ _ k r =>
  match r with
  | Ok a => k a
  | Throw what => Throw what
  | Undef => Undef
  end.

#[export] Instance result_fmap : FMap result := fun _ _ g r =>
  match r with
  | Ok a => Ok (g a)
  | Throw what => Throw what
  | Undef => Undef
  end.

(** The call did not return normally. *)
Definition fails {A} (r : result A) : Prop :=
  match r with Ok _ => False | _ => True end.

(** The call threw an exception. *)
Definition throws {A} (r : result A) : Prop :=
  match r with Throw _ => True | _ => False end.

(** ** Indices and containers *)

Definition dof_index_t : Type := N.
Bind Scope N_scope with dof_index_t.

(** [static_cast<size_t>(-1)] on a 64-bit target. *)
Definition INVALID_DOF : dof_index_t := 18446744073709551615%N.

(** [v.size()] *)
Definition size {A} (v : list A) : N := N.of_nat (length v).

(** [v[i]] on a [std::vector] or an Eigen vector: no bounds check. *)
Definition index {A} (v : list A) (i : N) : result A :=
  match v !! N.to_nat i with
  | Some a => Ok a
  | None => Undef
  end.

(** [v.at(i)]: throws [std::out_of_range]. *)
Definition at_ {A} (v : list A) (i : N) : result A :=
  match v !! N.to_nat i with
  | Some a => Ok a
  | None => Throw "std::out_of_range"
  end.

(** [v[i] = a]: no bounds check. *)
Definition set_index {A} (v : list A) (i : N) (a : A) : result (list A) :=
  if (i <? size v)%N then Ok (<[N.to_nat i := a]> v) else Undef.

(** [v.setZero(n)] *)
Definition setZero (n : N) : list R := replicate (N.to_nat n) 0%R.

(** ** Points, bodies and degrees of freedom *)

Record TPoint2D : Type := mkTPoint2D { x : R; y : R }.

Definition TPoint2D_minus (a b : TPoint2D) : TPoint2D :=
  mkTPoint2D (x a - x b) (y a - y b).

Definition TPoint2D_scale (a : TPoint2D) (k : R) : TPoint2D :=
  mkTPoint2D (x a * k) (y a * k).

(** [a.norm()] *)
Definition norm (a : TPoint2D) : R := sqrt (x a * x a + y a * y a).

Record Point2 : Type := mkPoint2 { coords : TPoint2D; fixed : bool }.

Record Matrix2d : Type := mkMatrix2d { c00 : R; c01 : R; c10 : R; c11 : R }.

(** [a.transpose() * M * b], the single coefficient of the 1x1 product. *)
Definition quad_form (a : TPoint2D) (M : Matrix2d) (b : TPoint2D) : R :=
  (x a * (c00 M * x b + c01 M * y b) + y a * (c10 M * x b + c11 M * y b))%R.

(** A rigid body.  [length_], [mass], [cog] and the mass blocks are what
    the accessors [length()], [mass()], [cog()], [getM00()], [getM01()] and
    [getM11()] return. *)
Record Body : Type := mkBody {
  points : list N;
  length_ : R;
  mass : R;
  cog : TPoint2D;
  getM00 : Matrix2d;
  getM01 : Matrix2d;
  getM11 : Matrix2d
}.

Module PointDOF.
Inductive t : Type := X | Y | Z.
End PointDOF.

Record NaturalCoordDOF : Type := mkDOF {
  point_index : N;
  point_dof : PointDOF.t
}.

(** The columns of [q] that hold the two coordinates of a point;
    [INVALID_DOF] for a fixed coordinate, which is also what a freshly
    constructed entry holds. *)
Record Point2ToDOF : Type := mkPoint2ToDOF {
  dof_x : dof_index_t;
  dof_y : dof_index_t
}.

Definition Point2ToDOF_default : Point2ToDOF :=
  mkPoint2ToDOF INVALID_DOF INVALID_DOF.

(** The alternatives of the [RelativeDOF] variant.  [OtherRelativeDOF]
    stands for any alternative that is neither of the two the constructor
    of the assembled model recognises. *)
Inductive RelativeDOF : Type :=
| RelativeAngleDOF (point_idx0 point_idx1 point_idx2 : N)
| RelativeAngleAbsoluteDOF (point_idx0 point_idx1 : N)
| OtherRelativeDOF.

Inductive Constraint : Type :=
| ConstraintConstantDistance (p0 p1 : N) (L : R)
| CConstraintRelativeAngle (p0 p1 p2 : N) (idxInQ : dof_index_t)
| CConstraintRelativeAngleAbsolute (p0 p1 : N) (idxInQ : dof_index_t).

(** [c->clone()] *)
Definition clone (c : Constraint) : Constraint := c.

(** ** Model definition *)

Record ModelDefinition : Type := mkModelDefinition {
  points_ : list Point2;
  bodies_ : list Body;
  getConstraints : list Constraint;
  already_added_fixed_len_constraints_ : bool
}.

Definition getPointCount (m : ModelDefinition) : N := size (points_ m).
Definition getBodies (m : ModelDefinition) : list Body := bodies_ m.

(** [m.getPointInfo(i)]; the accessor is declared in a header, an index out
    of range is outside what these sources define. *)
Definition getPointInfo (m : ModelDefinition) (i : N) : result Point2 :=
  index (points_ m) i.

(** [addConstraint<T>(args...)]: appends the new constraint. *)
Definition addConstraint (c : Constraint) (m : ModelDefinition) : ModelDefinition :=
  {| points_ := points_ m;
     bodies_ := bodies_ m;
     getConstraints := getConstraints m ++ [c];
     already_added_fixed_len_constraints_ := already_added_fixed_len_constraints_ m |}.

Definition mark_constraints_added (m : ModelDefinition) : ModelDefinition :=
  {| points_ := points_ m;
     bodies_ := bodies_ m;
     getConstraints := getConstraints m;
     already_added_fixed_len_constraints_ := true |}.

Record TSymbolicAssembledModel : Type := mkSymbolic {
  model : ModelDefinition;
  DOFs : list NaturalCoordDOF;
  rDOFs : list RelativeDOF
}.

(** ** Symbolic assembly: [ModelDefinition::assembleRigidMBS] *)

(** Step 1: every free point contributes its x and its y coordinate, in
    point order. *)
Fixpoint collect_DOFs (i : N) (pts : list Point2) : list NaturalCoordDOF :=
  match pts with
  | [] => []
  | pt :: rest =>
      (if fixed pt then [] else [mkDOF i PointDOF.X; mkDOF i PointDOF.Y])
      ++ collect_DOFs (i + 1)%N rest
  end.

(** The constant-distance constraint of the pair of local indices [(i, j)]
    of body [b], its length measured on the points' initial coordinates. *)
Definition distance_constraint (m : ModelDefinition) (b : Body) (p : N * N)
  : result Constraint :=
  let '(i, j) := p in
  bi ← index (points b) i;
  bj ← index (points b) j;
  if negb (bi <? size (points_ m))%N
  then Throw "ASSERT_(b.points[i] < points_.size())"
  else if negb (bj <? size (points_ m))%N
  then Throw "ASSERT_(b.points[j] < points_.size())"
  else
    pi ← at_ (points_ m) bi;
    pj ← at_ (points_ m) bj;
    Ok (ConstraintConstantDistance bi bj
          (norm (TPoint2D_minus (coords pi) (coords pj)))).

(** [for (const auto& p : pairs) { ...; addConstraint(...); }]: constraints
    added before a failing pair stay in the definition. *)
Fixpoint add_pair_constraints (b : Body) (pairs : list (N * N))
    (m : ModelDefinition) : result unit * ModelDefinition :=
  match pairs with
  | [] => (Ok (), m)
  | p :: rest =>
      match distance_constraint m b p with
      | Ok c => add_pair_constraints b rest (addConstraint c m)
      | Throw what => (Throw what, m)
      | Undef => (Undef, m)
      end
  end.

(** [pairs = {{0, 1}}; for (j = 2; j < nPts; j++) { (0, j); (1, j) }] *)
Definition default_pairs (nPts : N) : list (N * N) :=
  (0, 1)%N ::
  flat_map (fun j => [(0%N, j); (1%N, j)])
           (N.of_nat <$> seq 2 (N.to_nat nPts - 2)).

(** The body of the [switch (nPts)] for one body. *)
Definition add_body_constraints (b : Body) (m : ModelDefinition)
  : result unit * ModelDefinition :=
  let nPts := size (points b) in
  match nPts with
  | 0%N | 1%N =>
      (Throw "Body has an invalid number of points (=%u), valid are >=2", m)
  | 2%N =>
      match index (points b) 0%N, index (points b) 1%N with
      | Ok b0, Ok b1 =>
          if negb (b0 <? size (points_ m))%N
          then (Throw "ASSERT_(b.points[0] < points_.size())", m)
          else if negb (b1 <? size (points_ m))%N
          then (Throw "ASSERT_(b.points[1] < points_.size())", m)
          else (Ok (), addConstraint
                         (ConstraintConstantDistance b0 b1 (length_ b)) m)
      | _, _ => (Undef, m)
      end
  | 3%N => add_pair_constraints b [(0, 1); (0, 2); (1, 2)]%N m
  | _ => add_pair_constraints b (default_pairs nPts) m
  end.

Fixpoint add_bodies_constraints (bodies : list Body) (m : ModelDefinition)
  : result unit * ModelDefinition :=
  match bodies with
  | [] => (Ok (), m)
  | b :: rest =>
      match add_body_constraints b m with
      | (Ok _, m') => add_bodies_constraints rest m'
      | failure => failure
      end
  end.

(** [assembleRigidMBS(armi)]: the symbolic model on success, and the
    definition as the call leaves it ([armi.model] refers to the
    definition itself). *)
Definition assembleRigidMBS (m : ModelDefinition)
  : result TSymbolicAssembledModel * ModelDefinition :=
  let dofs := collect_DOFs 0%N (points_ m) in
  if negb (already_added_fixed_len_constraints_ m) then
    match add_bodies_constraints (bodies_ m) m with
    | (Ok _, m') =>
        let m'' := mark_constraints_added m' in
        (Ok (mkSymbolic m'' dofs []), m'')
    | (Throw what, m') => (Throw what, m')
    | (Undef, m') => (Undef, m')
    end
  else (Ok (mkSymbolic m dofs []), m).

(** ** The assembled model *)

(** Shape of a sparse matrix with one row per constraint and one column per
    degree of freedom; the numeric entries are refreshed by the constraint
    classes and are not part of this development. *)
Record SparseShape : Type := mkShape { nrows : N; ncols : N }.

Definition setRowCount (m : N) (s : SparseShape) : SparseShape :=
  mkShape m (ncols s).

Record CAssembledRigidModel : Type := mkARM {
  parent_ : ModelDefinition;
  gravity_ : R * R * R;
  q_ : list R;
  dotq_ : list R;
  ddotq_ : list R;
  Q_ : list R;
  DOFs_ : list NaturalCoordDOF;
  rDOFs_ : list RelativeDOF;
  points2DOFs_ : list Point2ToDOF;
  constraints_ : list Constraint;
  relCoordinate2Index_ : list dof_index_t;
  Phi_ : N;      (* Phi_.size() *)
  dotPhi_ : N;   (* dotPhi_.size() *)
  Phi_q_ : SparseShape;
  dotPhi_q_ : SparseShape;
  dPhiqdq_dq_ : SparseShape;
  Phiqq_times_dq_ : SparseShape;
  d_dotPhiq_ddq_times_dq_ : SparseShape
}.

(** [q_ = q; dotq_ = dq;] *)
Definition set_state (q dq : list R) (a : CAssembledRigidModel)
  : CAssembledRigidModel :=
  mkARM (parent_ a) (gravity_ a) q dq (ddotq_ a) (Q_ a) (DOFs_ a) (rDOFs_ a)
        (points2DOFs_ a) (constraints_ a) (relCoordinate2Index_ a)
        (Phi_ a) (dotPhi_ a) (Phi_q_ a) (dotPhi_q_ a) (dPhiqdq_dq_ a)
        (Phiqq_times_dq_ a) (d_dotPhiq_ddq_times_dq_ a).

Definition set_q (q : list R) (a : CAssembledRigidModel) : CAssembledRigidModel :=
  set_state q (dotq_ a) a.

Definition set_dotq (dq : list R) (a : CAssembledRigidModel) : CAssembledRigidModel :=
  set_state (q_ a) dq a.

Definition setGravityVector (gx gy gz : R) (a : CAssembledRigidModel)
  : CAssembledRigidModel :=
  mkARM (parent_ a) (gx, gy, gz) (q_ a) (dotq_ a) (ddotq_ a) (Q_ a) (DOFs_ a)
        (rDOFs_ a) (points2DOFs_ a) (constraints_ a) (relCoordinate2Index_ a)
        (Phi_ a) (dotPhi_ a) (Phi_q_ a) (dotPhi_q_ a) (dPhiqdq_dq_ a)
        (Phiqq_times_dq_ a) (d_dotPhiq_ddq_times_dq_ a).

(** [addNewRowToConstraints()]: one more row in every constraint-sized
    vector and matrix; returns the index of the new row. *)
Definition addNewRowToConstraints (a : CAssembledRigidModel)
  : N * CAssembledRigidModel :=
  let idx := Phi_ a in
  let m := (idx + 1)%N in
  (idx,
   mkARM (parent_ a) (gravity_ a) (q_ a) (dotq_ a) (ddotq_ a) (Q_ a) (DOFs_ a)
         (rDOFs_ a) (points2DOFs_ a) (constraints_ a) (relCoordinate2Index_ a)
         m m (setRowCount m (Phi_q_ a)) (setRowCount m (dotPhi_q_ a))
         (setRowCount m (dPhiqdq_dq_ a)) (setRowCount m (Phiqq_times_dq_ a))
         (setRowCount m (d_dotPhiq_ddq_times_dq_ a))).

(** Modelled from the spec: the constraint classes and their
    [buildSparseStructures] are not among the sources.  By the spec the
    one-time structure builder registers the structural non-zeros of the
    constraint's row; here it takes that row with
    [addNewRowToConstraints] and touches nothing else. *)
Definition buildSparseStructures (c : Constraint) (a : CAssembledRigidModel)
  : result CAssembledRigidModel :=
  Ok (snd (addNewRowToConstraints a)).

Fixpoint build_all (cs : list Constraint) (a : CAssembledRigidModel)
  : result CAssembledRigidModel :=
  match cs with
  | [] => Ok a
  | c :: rest => a' ← buildSparseStructures c a; build_all rest a'
  end.

(** *** Constructor *)

Definition DEFAULT_GRAVITY : R * R * R := (0, -9.81, 0)%R.

(** The loop over the Euclidean degrees of freedom: column [i] of [q] takes
    the static coordinate of its point, and the reverse table records the
    column.  [DOFs_.at(i)] is always in range there, so the loop runs over
    the list itself. *)
Fixpoint init_natural_coords (parent : ModelDefinition) (i : dof_index_t)
    (dofs : list NaturalCoordDOF) (q : list R) (p2d : list Point2ToDOF)
  : result (list R * list Point2ToDOF) :=
  match dofs with
  | [] => Ok (q, p2d)
  | d :: rest =>
      let pt_idx := point_index d in
      pt ← getPointInfo parent pt_idx;
      '(q', p2d') ←
        match point_dof d with
        | PointDOF.X =>
            q' ← set_index q i (x (coords pt));
            e ← at_ p2d pt_idx;
            Ok (q', <[N.to_nat pt_idx := mkPoint2ToDOF i (dof_y e)]> p2d)
        | PointDOF.Y =>
            q' ← set_index q i (y (coords pt));
            e ← at_ p2d pt_idx;
            Ok (q', <[N.to_nat pt_idx := mkPoint2ToDOF (dof_x e) i]> p2d)
        | PointDOF.Z => Throw "Unexpected value for DOFs_[i].point_dof"
        end;
      init_natural_coords parent (i + 1)%N rest q' p2d'
  end.

(** The loop over the relative degrees of freedom: one more constraint and
    one entry of the reverse table for each. *)
Fixpoint add_relative_constraints (nEuclideanDOFs : N) (i : N)
    (rdofs : list RelativeDOF) (cs : list Constraint)
    (r2i : list dof_index_t) : result (list Constraint * list dof_index_t) :=
  match rdofs with
  | [] => Ok (cs, r2i)
  | relConstr :: rest =>
      let idxInQ := (nEuclideanDOFs + i)%N in
      '(cs', r2i') ←
        match relConstr with
        | RelativeAngleDOF p0 p1 p2 =>
            r2i' ← set_index r2i i idxInQ;
            Ok (cs ++ [CConstraintRelativeAngle p0 p1 p2 idxInQ], r2i')
        | RelativeAngleAbsoluteDOF p0 p1 =>
            r2i' ← set_index r2i i idxInQ;
            Ok (cs ++ [CConstraintRelativeAngleAbsolute p0 p1 idxInQ], r2i')
        | OtherRelativeDOF => Throw "Unknown type of relative coordinate"
        end;
      add_relative_constraints nEuclideanDOFs (i + 1)%N rest cs' r2i'
  end.

(** [CAssembledRigidModel::CAssembledRigidModel(armi)].  [parent_] refers
    to the definition in [armi], which nothing changes once it is
    assembled; the model keeps its value. *)
Definition CAssembledRigidModel_new (armi : TSymbolicAssembledModel)
  : result CAssembledRigidModel :=
  let nEuclideanDOFs := size (DOFs armi) in
  let nRelativeDOFs := size (rDOFs armi) in
  let nDOFs := (nEuclideanDOFs + nRelativeDOFs)%N in
  if negb (0 <? nEuclideanDOFs)%N
  then Throw "Trying to assemble model with 0 Natural Coordinate DOFs"
  else
    '(q, p2d) ←
      init_natural_coords (model armi) 0%N (DOFs armi) (setZero nDOFs)
        (replicate (N.to_nat (getPointCount (model armi))) Point2ToDOF_default);
    (* defineSparseMatricesColumnCount(nDOFs) *)
    let shape := mkShape 0%N nDOFs in
    '(cs, r2i) ←
      add_relative_constraints nEuclideanDOFs 0%N (rDOFs armi)
        (clone <$> getConstraints (model armi))
        (replicate (length (rDOFs armi)) 0%N);
    build_all cs
      (mkARM (model armi) DEFAULT_GRAVITY q (setZero nDOFs) (setZero nDOFs)
             (setZero nDOFs) (DOFs armi) (rDOFs armi) p2d cs r2i
             0%N 0%N shape shape shape shape shape).

(** *** Current coordinates and velocities of a point *)

(** [getPointCurrentCoords(pt_idx, pt)] *)
Definition getPointCurrentCoords (a : CAssembledRigidModel) (pt_idx : N)
  : result TPoint2D :=
  pt_info ← getPointInfo (parent_ a) pt_idx;
  pt_dofs ← index (points2DOFs_ a) pt_idx;
  px ← (if negb (dof_x pt_dofs =? INVALID_DOF)%N
        then index (q_ a) (dof_x pt_dofs) else Ok (x (coords pt_info)));
  py ← (if negb (dof_y pt_dofs =? INVALID_DOF)%N
        then index (q_ a) (dof_y pt_dofs) else Ok (y (coords pt_info)));
  Ok (mkTPoint2D px py).

(** [getPointCurrentVelocity(pt_idx, vel)] *)
Definition getPointCurrentVelocity (a : CAssembledRigidModel) (pt_idx : N)
  : result TPoint2D :=
  pt_dofs ← index (points2DOFs_ a) pt_idx;
  vx ← (if negb (dof_x pt_dofs =? INVALID_DOF)%N
        then index (dotq_ a) (dof_x pt_dofs) else Ok 0%R);
  vy ← (if negb (dof_y pt_dofs =? INVALID_DOF)%N
        then index (dotq_ a) (dof_y pt_dofs) else Ok 0%R);
  Ok (mkTPoint2D vx vy).

(** [ASSERTDEB_(cond)]: checked in debug builds only; [_DEBUG] tells
    whether the build is one. *)
Definition ASSERTDEB_ (_DEBUG : bool) (cond : bool) (what : string)
  : result unit :=
  if _DEBUG && negb cond then Throw what else Ok ().

(** [ASSERT_(cond)]: checked in every build. *)
Definition ASSERT_ (cond : bool) (what : string) : result unit :=
  if negb cond then Throw what else Ok ().

(** [L > 0] on doubles. *)
Definition Rgtb (a b : R) : bool := if Rgt_dec a b then true else false.

(** [getPointOnBodyCurrentCoords(body_index, relative_pt, out_pt)] *)
Definition getPointOnBodyCurrentCoords (_DEBUG : bool)
    (a : CAssembledRigidModel) (body_index : N) (relative_pt : TPoint2D)
  : result TPoint2D :=
  ASSERTDEB_ _DEBUG (body_index <? size (getBodies (parent_ a)))%N
    "body_index < parent_.getBodies().size()";;
  b ← index (getBodies (parent_ a)) body_index;
  i0 ← index (points b) 0%N;
  i1 ← index (points b) 1%N;
  q0 ← getPointCurrentCoords a i0;
  q1 ← getPointCurrentCoords a i1;
  let L := length_ b in
  ASSERTDEB_ _DEBUG (Rgtb L 0) "L > 0";;
  let Linv := (1 / L)%R in
  let u := TPoint2D_scale (TPoint2D_minus q1 q0) Linv in
  let v := mkTPoint2D (- y u) (x u) in
  Ok (mkTPoint2D
        (x q0 + x u * x relative_pt + x v * y relative_pt)
        (y q0 + y u * x relative_pt + y v * y relative_pt)).

(** *** Copy of the state *)

(** [copyStateFrom(o)]; all its assertions stand under [#ifdef _DEBUG].
    The two on the addresses of [q_] and [dotq_] hold after an assignment
    between vectors of one size, which the assertions before it have
    checked. *)
Definition copyStateFrom (_DEBUG : bool) (this o : CAssembledRigidModel)
  : result CAssembledRigidModel :=
  (if _DEBUG then
     ASSERT_ (size (q_ this) =? size (q_ o))%N
       "this->q_.size() == o.q_.size()";;
     ASSERT_ (size (dotq_ this) =? size (dotq_ o))%N
       "this->dotq_.size() == o.dotq_.size()";;
     ASSERT_ (size (DOFs_ this) =? size (DOFs_ o))%N
       "this->DOFs_.size() == o.DOFs_.size()";;
     ASSERT_ (Phi_ this =? Phi_ o)%N
       "this->Phi_.size() == o.Phi_.size()"
   else Ok ());;
  Ok (set_state (q_ o) (dotq_ o) this).

(** *** Energy *)

Record TEnergyValues : Type := mkEnergy {
  E_kin : R;
  E_pot : R;
  E_total : R
}.

(** One turn of the loop over the bodies: the body's contribution is added
    to the kinetic and the potential energy accumulated so far. *)
Definition energy_of_body (_DEBUG : bool) (a : CAssembledRigidModel)
    (i : N) (b : Body) (acc : R * R) : result (R * R) :=
  i0 ← index (points b) 0%N;
  i1 ← index (points b) 1%N;
  dq0 ← getPointCurrentVelocity a i0;
  dq1 ← getPointCurrentVelocity a i1;
  let kin :=
    (fst acc +
     (0.5 * (quad_form dq0 (getM00 b) dq0 + quad_form dq1 (getM11 b) dq1) +
      quad_form dq0 (getM01 b) dq1))%R in
  global_cog ← getPointOnBodyCurrentCoords _DEBUG a i (cog b);
  let '(g0, g1, g2) := gravity_ a in
  let pot :=
    (snd acc -
     mass b * (g0 * x global_cog + g1 * y global_cog + g2 * 0))%R in
  Ok (kin, pot).

Fixpoint energy_loop (_DEBUG : bool) (a : CAssembledRigidModel) (i : N)
    (bodies : list Body) (acc : R * R) : result (R * R) :=
  match bodies with
  | [] => Ok acc
  | b :: rest =>
      acc' ← energy_of_body _DEBUG a i b acc;
      energy_loop _DEBUG a (i + 1)%N rest acc'
  end.

(** [evaluateEnergy(e)] *)
Definition evaluateEnergy (_DEBUG : bool) (a : CAssembledRigidModel)
  : result TEnergyValues :=
  '(kin, pot) ← energy_loop _DEBUG a 0%N (getBodies (parent_ a)) (0, 0)%R;
  Ok (mkEnergy kin pot (kin + pot)).

(** ** The gyroscope factor *)

(** The factor holds a pointer [m_arm] to an assembled model that it shares
    with its owner: [evaluateError] takes that model as an argument and
    returns it as the call leaves it.  The factor names the fields of the
    model [m_q], [m_dotq], [m_parent] and [m_points2DOFs]; they are [q_],
    [dotq_], [parent_] and [points2DOFs_] here, as in the model's own
    code. *)
Record FactorGyroscope : Type := mkFactorGyroscope {
  m_body_idx : N;
  m_reading : R
}.

(** What [evaluateError] hands back: the error vector and each Jacobian
    that was asked for, as the one row of its [1 x n] matrix. *)
Record Evaluation : Type := mkEvaluation {
  err : list R;
  H1_out : option (list R);
  H2_out : option (list R)
}.

(** [if (size_t i = dof; i != INVALID_DOF) { Hv(0, i) = v; }] *)
Definition fill_column (Hv : list R) (i : dof_index_t) (v : R)
  : result (list R) :=
  if negb (i =? INVALID_DOF)%N then set_index Hv i v else Ok Hv.

Section Jacobians.
Variables (n : N) (dofs0 dofs1 : Point2ToDOF).
Variables (pt0 pt1 pt0vel pt1vel : TPoint2D) (len_inv : R).

Local Open Scope R_scope.

(** [d err / d q_k] *)
Definition jacobian_q : result (list R) :=
  Hv ← fill_column (setZero n) (dof_x dofs0)
         (len_inv * len_inv * (y pt0vel - y pt1vel) -
          2 * len_inv * len_inv * len_inv * len_inv *
            (x pt0 - x pt1) *
            ((x pt0 - x pt1) * (y pt0vel - y pt1vel) -
             (y pt0 - y pt1) * (x pt0vel - x pt1vel)));
  Hv ← fill_column Hv (dof_y dofs0)
         (- len_inv * len_inv * (x pt0vel - x pt1vel) +
          2 * len_inv * len_inv * len_inv * len_inv *
            (y pt0 - y pt1) *
            ((y pt0 - y pt1) * (x pt0vel - x pt1vel) -
             (x pt0 - x pt1) * (y pt0vel - y pt1vel)));
  Hv ← fill_column Hv (dof_x dofs1)
         (- len_inv * len_inv * (y pt0vel - y pt1vel) +
          2 * len_inv * len_inv * len_inv * len_inv *
            (x pt0 - x pt1) *
            ((x pt0 - x pt1) * (y pt0vel - y pt1vel) -
             (y pt0 - y pt1) * (x pt0vel - x pt1vel)));
  fill_column Hv (dof_y dofs1)
         (len_inv * len_inv * (x pt0vel - x pt1vel) +
          2 * len_inv * len_inv * len_inv * len_inv *
            (y pt0 - y pt1) *
            (- (y pt0 - y pt1) * (x pt0vel - x pt1vel) +
             (x pt0 - x pt1) * (y pt0vel - y pt1vel))).

(** [d err / d dq_k] *)
Definition jacobian_dq : result (list R) :=
  Hv ← fill_column (setZero n) (dof_x dofs0)
         (len_inv * len_inv * (y pt1 - y pt0));
  Hv ← fill_column Hv (dof_y dofs0)
         (len_inv * len_inv * (x pt0 - x pt1));
  Hv ← fill_column Hv (dof_x dofs1)
         (len_inv * len_inv * (y pt0 - y pt1));
  fill_column Hv (dof_y dofs1)
         (len_inv * len_inv * (x pt1 - x pt0)).
End Jacobians.

(** The part of [evaluateError] that follows the two assignments to the
    model's state. *)
Definition evaluateError_body (f : FactorGyroscope)
    (a : CAssembledRigidModel) (n : N) (H1 H2 : bool) : result Evaluation :=
  let bodies := getBodies (parent_ a) in
  ASSERT_ (m_body_idx f <? size bodies)%N "ASSERT_BELOW_(m_body_idx, bodies.size())";;
  body ← index bodies (m_body_idx f);
  pt0_idx ← index (points body) 0%N;
  pt1_idx ← index (points body) 1%N;
  pt0 ← getPointCurrentCoords a pt0_idx;
  pt1 ← getPointCurrentCoords a pt1_idx;
  pt0vel ← getPointCurrentVelocity a pt0_idx;
  pt1vel ← getPointCurrentVelocity a pt1_idx;
  let u := TPoint2D_minus pt1 pt0 in
  let len := norm u in
  let len_inv := (1 / len)%R in
  let u := TPoint2D_scale u len_inv in
  let v := mkTPoint2D (- y u) (x u) in
  let rel_vel := TPoint2D_minus pt1vel pt0vel in
  let rel_vel_value := (x rel_vel * x v + y rel_vel * y v)%R in
  let w := (rel_vel_value * len_inv)%R in
  let err := [(w - m_reading f)%R] in
  H1v ← (if H1 then
           dofs0 ← index (points2DOFs_ a) pt0_idx;
           dofs1 ← index (points2DOFs_ a) pt1_idx;
           Some <$> jacobian_q n dofs0 dofs1 pt0 pt1 pt0vel pt1vel len_inv
         else Ok None);
  H2v ← (if H2 then
           dofs0 ← index (points2DOFs_ a) pt0_idx;
           dofs1 ← index (points2DOFs_ a) pt1_idx;
           Some <$> jacobian_dq n dofs0 dofs1 pt0 pt1 len_inv
         else Ok None);
  Ok (mkEvaluation err H1v H2v).

(** [FactorGyroscope::evaluateError(q_k, dq_k, H1, H2)]; [H1] and [H2] tell
    whether the caller asks for the Jacobian. *)
Definition evaluateError (f : FactorGyroscope) (a : CAssembledRigidModel)
    (q_k dq_k : list R) (H1 H2 : bool)
  : result Evaluation * CAssembledRigidModel :=
  let n := size q_k in
  if negb (size dq_k =? n)%N
  then (Throw "Inconsistent vector lengths!", a)
  else if (n <? 1)%N
  then (Throw "Empty state vector!", a)
  else
    let a' := set_state q_k dq_k a in
    (evaluateError_body f a' n H1 H2, a').

(** ** Vocabulary of the statements *)

(** The value a coordinate accessor reads for one axis: the entry of the
    state vector in the axis' column, or [static] for a fixed axis. *)
Definition axis_value (static : R) (v : list R) (c : dof_index_t) : R :=
  if (c =? INVALID_DOF)%N then static else nth (N.to_nat c) v 0%R.

(** Column [c] is the mark of a fixed axis or a position of [v]. *)
Definition column_in (c : dof_index_t) (v : list R) : Prop :=
  c = INVALID_DOF ∨ (c < size v)%N.

(** The reverse table agrees with the list of degrees of freedom: it has
    one entry per point, and a column it gives for an axis of a point is
    the position of that very axis in [DOFs_]. *)
Definition dof_table_ok (a : CAssembledRigidModel) : Prop :=
  length (points2DOFs_ a) = length (points_ (parent_ a)) ∧
  ∀ (p : N) (d : Point2ToDOF),
    points2DOFs_ a !! N.to_nat p = Some d →
    (dof_x d ≠ INVALID_DOF →
       DOFs_ a !! N.to_nat (dof_x d) = Some (mkDOF p PointDOF.X)) ∧
    (dof_y d ≠ INVALID_DOF →
       DOFs_ a !! N.to_nat (dof_y d) = Some (mkDOF p PointDOF.Y)).

(** Body [body_index] exists and its two reference points [i0] and [i1]
    are points of the model. *)
Definition reference_points (a : CAssembledRigidModel) (body_index : N)
    (b : Body) (i0 i1 : N) : Prop :=
  getBodies (parent_ a) !! N.to_nat body_index = Some b ∧
  points b !! 0%nat = Some i0 ∧
  points b !! 1%nat = Some i1 ∧
  (i0 < getPointCount (parent_ a))%N ∧
  (i1 < getPointCount (parent_ a))%N.

(** [(p1 - p0) / |p1 - p0|]: the unit director of the segment from [p0] to
    [p1]. *)
Definition unit_director (p0 p1 : TPoint2D) : TPoint2D :=
  let d := TPoint2D_minus p1 p0 in
  mkTPoint2D (x d / norm d) (y d / norm d).

(** The rotation by +90 degrees. *)
Definition rot90 (u : TPoint2D) : TPoint2D := mkTPoint2D (- y u) (x u).

(** [p0 + offset.x * u + offset.y * v], with [v] the rotation of [u] by +90
    degrees. *)
Definition frame_point (p0 u offset : TPoint2D) : TPoint2D :=
  mkTPoint2D (x p0 + x offset * x u + y offset * x (rot90 u))
             (y p0 + x offset * y u + y offset * y (rot90 u)).

(** [(p1 - p0) / L]: the director scaled by a given length. *)
Definition scaled_director (p0 p1 : TPoint2D) (L : R) : TPoint2D :=
  let d := TPoint2D_minus p1 p0 in
  mkTPoint2D (x d / L) (y d / L).

(** The rate as [evaluateError] computes it from the two reference points
    and their velocities. *)
Definition gyro_rate (pt0 pt1 pt0vel pt1vel : TPoint2D) : R :=
  let u := TPoint2D_minus pt1 pt0 in
  let len_inv := (1 / norm u)%R in
  let u := TPoint2D_scale u len_inv in
  let v := mkTPoint2D (- y u) (x u) in
  let rel_vel := TPoint2D_minus pt1vel pt0vel in
  ((x rel_vel * x v + y rel_vel * y v) * len_inv)%R.

(** [w = ((p1vel - p0vel) . v_perp) / |p1 - p0|], with [v_perp] the
    rotation by +90 degrees of the unit vector from [p0] to [p1]. *)
Definition rate_observation (p0 p1 p0vel p1vel : TPoint2D) : R :=
  let v_perp := rot90 (unit_director p0 p1) in
  let rel := TPoint2D_minus p1vel p0vel in
  ((x rel * x v_perp + y rel * y v_perp) / norm (TPoint2D_minus p1 p0))%R.

(** The error of the factor at [(q, dq)], read off a call that asks for no
    Jacobian. *)
Definition residual (f : FactorGyroscope) (a : CAssembledRigidModel)
    (q dq : list R) : R :=
  match fst (evaluateError f a q dq false false) with
  | Ok e => nth 0 (err e) 0%R
  | _ => 0%R
  end.

(** A row with [v] written in column [c], unless [c] marks a fixed axis. *)
Definition with_column (c : dof_index_t) (v : R) (row : list R) : list R :=
  if (c =? INVALID_DOF)%N then row else <[N.to_nat c := v]> row.

(** Two assembled models of one symbolic model: the same definition and
    tables of degrees of freedom, and state and constraint vectors of the
    same sizes. *)
Definition same_definition (this o : CAssembledRigidModel) : Prop :=
  parent_ this = parent_ o ∧
  DOFs_ this = DOFs_ o ∧
  rDOFs_ this = rDOFs_ o ∧
  points2DOFs_ this = points2DOFs_ o ∧
  size (q_ this) = size (q_ o) ∧
  size (dotq_ this) = size (dotq_ o) ∧
  Phi_ this = Phi_ o.

(** Every body has two reference points among the points of the model,
    and, where a debug build checks it, a positive stored length. *)
Definition bodies_ok (_DEBUG : bool) (a : CAssembledRigidModel) : Prop :=
  ∀ (k : nat) (b : Body),
    getBodies (parent_ a) !! k = Some b →
    ∃ i0 i1, reference_points a (N.of_nat k) b i0 i1 ∧
             (_DEBUG = true → (length_ b > 0)%R).

(** The current global position of the centre of gravity of body [i], by
    the reconstruction of a point attached to the body. *)
Definition global_cog (_DEBUG : bool) (a : CAssembledRigidModel) (i : N)
    (b : Body) : TPoint2D :=
  match getPointOnBodyCurrentCoords _DEBUG a i (cog b) with
  | Ok p => p
  | _ => mkTPoint2D 0 0
  end.

(** [-(mass * (gravity . cog))] for one body; the centre of gravity lies
    in the plane [z = 0]. *)
Definition potential_of_body (_DEBUG : bool) (a : CAssembledRigidModel)
    (i : N) (b : Body) : R :=
  let '(gx, gy, gz) := gravity_ a in
  let c := global_cog _DEBUG a i b in
  (- (mass b * (gx * x c + gy * y c + gz * 0)))%R.

(** Every point of the model has velocity zero. *)
Definition at_rest (a : CAssembledRigidModel) : Prop :=
  ∀ (p : N) (v : TPoint2D),
    getPointCurrentVelocity a p = Ok v → v = mkTPoint2D 0 0.

Definition Rsum (l : list R) : R := foldr Rplus 0%R l.

(** The sum over the bodies, body [k] of the list being body [i + k] of the
    model. *)
Definition potential_from (_DEBUG : bool) (a : CAssembledRigidModel)
    (i : N) (bodies : list Body) : R :=
  Rsum (imap (λ k b, potential_of_body _DEBUG a (i + N.of_nat k) b) bodies).

Definition potential_energy (_DEBUG : bool) (a : CAssembledRigidModel) : R :=
  potential_from _DEBUG a 0 (getBodies (parent_ a)).

(** A Euclidean degree of freedom the constructor accepts: an x or a y
    coordinate of a point of the definition. *)
Definition natural_coord_ok (m : ModelDefinition) (d : NaturalCoordDOF)
  : Prop :=
  (point_index d < getPointCount m)%N ∧ point_dof d ≠ PointDOF.Z.

(** Every column a reverse table gives for an axis of a point is the
    position of that axis in [all]. *)
Definition table_agrees (all : list NaturalCoordDOF)
    (p2d : list Point2ToDOF) : Prop :=
  ∀ (p : N) (d : Point2ToDOF),
    p2d !! N.to_nat p = Some d →
    (dof_x d ≠ INVALID_DOF →
       all !! N.to_nat (dof_x d) = Some (mkDOF p PointDOF.X)) ∧
    (dof_y d ≠ INVALID_DOF →
       all !! N.to_nat (dof_y d) = Some (mkDOF p PointDOF.Y)).

(** The pairs of local point indices that get a constant-distance
    constraint in a body of [n] points: (0,1) for two points; (0,1), (0,2),
    (1,2) for three; and for four or more (0,1), then (0,j) and (1,j) for
    each [j] from 2 to [n - 1]. *)
Definition closure_pairs (n : N) : list (N * N) :=
  if (n =? 2)%N then [(0, 1)%N]
  else if (n =? 3)%N then [(0, 1); (0, 2); (1, 2)]%N
  else (0, 1)%N ::
       flat_map (λ j, [(0%N, j); (1%N, j)])
                (N.of_nat <$> seq 2 (N.to_nat n - 2)).

(** The distance of two points of the definition at their initial
    coordinates. *)
Definition initial_distance (m : ModelDefinition) (p q : N) : R :=
  let origin := mkPoint2 (mkTPoint2D 0 0) false in
  norm (TPoint2D_minus (coords (nth (N.to_nat p) (points_ m) origin))
                       (coords (nth (N.to_nat q) (points_ m) origin))).

(** The closure constraints of one body: a two-point body is held at its
    stored length, a larger one at the initial distances of its pairs. *)
Definition closure_constraints (m : ModelDefinition) (b : Body)
  : list Constraint :=
  let n := size (points b) in
  (λ '(i, j),
     let p := nth (N.to_nat i) (points b) 0%N in
     let q := nth (N.to_nat j) (points b) 0%N in
     ConstraintConstantDistance p q
       (if (n =? 2)%N then length_ b else initial_distance m p q))
  <$> closure_pairs n.

(** The closure constraints of one body in the words of the
    specification: every constraint, also the one of a two-point body, at
    the initial distance of its pair. *)
Definition closure_constraints_by_distance (m : ModelDefinition) (b : Body)
  : list Constraint :=
  (λ '(i, j),
     let p := nth (N.to_nat i) (points b) 0%N in
     let q := nth (N.to_nat j) (points b) 0%N in
     ConstraintConstantDistance p q (initial_distance m p q))
  <$> closure_pairs (size (points b)).

(** A body the symbolic assembly accepts: two points or more, each a point
    of the definition. *)
Definition body_ok (m : ModelDefinition) (b : Body) : Prop :=
  (2 <= size (points b))%N ∧
  Forall (λ p, (p < size (points_ m))%N) (points b).

(** The definition with more constraints. *)
Definition with_constraints (cs : list Constraint) (m : ModelDefinition)
  : ModelDefinition :=
  mkModelDefinition (points_ m) (bodies_ m) (getConstraints m ++ cs)
    (already_added_fixed_len_constraints_ m).

(** The rate as a function of the eight coordinates and velocities:
    [((p1vel - p0vel) x (p1 - p0)) / |p1 - p0|^2]. *)
Definition rate_closed (x0 y0 x1 y1 vx0 vy0 vx1 vy1 : R) : R :=
  (((vy1 - vy0) * (x1 - x0) - (vx1 - vx0) * (y1 - y0)) /
   ((x1 - x0) * (x1 - x0) + (y1 - y0) * (y1 - y0)))%R.

(** Column [i] is the column [c] of a free axis. *)
Definition hits (c : dof_index_t) (i : nat) : bool :=
  negb (c =? INVALID_DOF)%N && (c =? N.of_nat i)%N.

(** No column of [q] serves two of the four coordinates of the two
    reference points. *)
Definition columns_apart (d0 d1 : Point2ToDOF) : Prop :=
  ∀ (j k : nat) (c : dof_index_t),
    j ≠ k →
    [dof_x d0; dof_y d0; dof_x d1; dof_y d1] !! j = Some c →
    [dof_x d0; dof_y d0; dof_x d1; dof_y d1] !! k = Some c →
    c = INVALID_DOF.

(** ** A four-bar linkage *)

(** Points 0 and 3 are fixed to the ground; the bars join 0-1, 1-2 and
    2-3.  [L01] is the length stored in the first bar. *)
Definition bar (p0 p1 : N) (L : R) : Body :=
  mkBody [p0; p1] L 1 (mkTPoint2D (L / 2) 0)
    (mkMatrix2d (1 / 3) 0 0 (1 / 3))
    (mkMatrix2d (1 / 6) 0 0 (1 / 6))
    (mkMatrix2d (1 / 3) 0 0 (1 / 3)).

Definition fourbar_points : list Point2 :=
  [mkPoint2 (mkTPoint2D 0 0) true; mkPoint2 (mkTPoint2D 1 0) false;
   mkPoint2 (mkTPoint2D 1 2) false; mkPoint2 (mkTPoint2D 4 0) true].

Definition linkage_bodies (L01 : R) : list Body :=
  [bar 0 1 L01; bar 1 2 2; bar 2 3 (sqrt 13)].

Definition linkage_constraints (L01 : R) : list Constraint :=
  [ConstraintConstantDistance 0 1 L01;
   ConstraintConstantDistance 1 2 2;
   ConstraintConstantDistance 2 3 (sqrt 13)].

(** The definition as its author builds it. *)
Definition linkage (L01 : R) : ModelDefinition :=
  mkModelDefinition fourbar_points (linkage_bodies L01) [] false.

(** The definition after its first symbolic assembly. *)
Definition linkage_closed (L01 : R) : ModelDefinition :=
  mkModelDefinition fourbar_points (linkage_bodies L01)
    (linkage_constraints L01) true.

Definition fourbar_DOFs : list NaturalCoordDOF :=
  [mkDOF 1 PointDOF.X; mkDOF 1 PointDOF.Y;
   mkDOF 2 PointDOF.X; mkDOF 2 PointDOF.Y].

Definition linkage_symbolic (L01 : R) : TSymbolicAssembledModel :=
  mkSymbolic (linkage_closed L01) fourbar_DOFs [].

Definition fourbar_points2DOFs : list Point2ToDOF :=
  [Point2ToDOF_default; mkPoint2ToDOF 0 1; mkPoint2ToDOF 2 3;
   Point2ToDOF_default].

(** The assembled linkage with state [q], [dq]. *)
Definition linkage_at (L01 : R) (q dq : list R) : CAssembledRigidModel :=
  mkARM (linkage_closed L01) DEFAULT_GRAVITY q dq (setZero 4) (setZero 4)
        fourbar_DOFs [] fourbar_points2DOFs (linkage_constraints L01) []
        3 3 (mkShape 3 4) (mkShape 3 4) (mkShape 3 4) (mkShape 3 4)
        (mkShape 3 4).

(** The four-bar linkage proper: the first bar has length 1. *)
Definition fourbar : ModelDefinition := linkage 1.
Definition fourbar_symbolic : TSymbolicAssembledModel := linkage_symbolic 1.
Definition fourbar_at (q dq : list R) : CAssembledRigidModel :=
  linkage_at 1 q dq.

(** The assembled model as the constructor leaves it. *)
Definition fourbar_arm : CAssembledRigidModel :=
  fourbar_at [1; 0; 1; 2]%R (setZero 4).

(** A body of five points, all on the four points of the linkage and one
    more. *)
Definition pentagon : ModelDefinition :=
  mkModelDefinition
    (fourbar_points ++ [mkPoint2 (mkTPoint2D 2 3) false])
    [mkBody [0; 1; 2; 3; 4]%N 1 1 (mkTPoint2D 0 0)
       (mkMatrix2d 0 0 0 0) (mkMatrix2d 0 0 0 0) (mkMatrix2d 0 0 0 0)]
    [] false.

(** ** More of the model definition and of the assembled model *)

(** [ModelDefinition::setPointCoords(i, coords, is_fixed)] *)
Definition setPointCoords (m : ModelDefinition) (i : N) (c : TPoint2D)
    (is_fixed : bool) : result ModelDefinition :=
  ASSERT_ (i <? size (points_ m))%N "i < points_.size()";;
  Ok (mkModelDefinition
        (<[N.to_nat i := mkPoint2 c is_fixed]> (points_ m))
        (bodies_ m) (getConstraints m)
        (already_added_fixed_len_constraints_ m)).

(** [ModelDefinition::assembleRigidMBS(relativeCoordinates)]: the symbolic
    assembly, the optional relative coordinates, then the constructor of
    the assembled model.  The definition comes back as the symbolic
    assembly leaves it. *)
Definition assembleRigidMBS_shared (m : ModelDefinition)
    (relativeCoordinates : option (list RelativeDOF))
  : result CAssembledRigidModel * ModelDefinition :=
  match assembleRigidMBS m with
  | (Ok armi, m') =>
      let armi :=
        match relativeCoordinates with
        | Some r => mkSymbolic (model armi) (DOFs armi) r
        | None => armi
        end in
      (CAssembledRigidModel_new armi, m')
  | (Throw what, m') => (Throw what, m')
  | (Undef, m') => (Undef, m')
  end.

(** [getGravityVector(gx, gy, gz)] *)
Definition getGravityVector (a : CAssembledRigidModel) : R * R * R :=
  let '(gx, gy, gz) := gravity_ a in (gx, gy, gz).

(** [ModelDefinition::addBody(name)], taken together with the writes that
    the caller makes through the reference it returns: [new_body] is the
    new last body as the caller leaves it.  The names of the bodies are
    not part of this development. *)
Definition addBody (m : ModelDefinition) (new_body : Body)
  : result ModelDefinition :=
  ASSERT_ (negb (already_added_fixed_len_constraints_ m))
    "Can't modify model after assembling!";;
  Ok (mkModelDefinition (points_ m) (bodies_ m ++ [new_body])
        (getConstraints m) (already_added_fixed_len_constraints_ m)).

(** *** Printing the coordinates *)

(** [o << n] for an unsigned integer: its decimal digits. *)
Definition show_N (n : N) : string := NilZero.string_of_uint (N.to_uint n).

(** [dof2letter(p)]; its [default] branch is for no value of the
    enumeration. *)
Definition dof2letter (p : PointDOF.t) : ascii :=
  match p with
  | PointDOF.X => "x"
  | PointDOF.Y => "y"
  | PointDOF.Z => "z"
  end%char.

(** The line of Euclidean degree of freedom [i]. *)
Definition natural_line (i : nat) (d : NaturalCoordDOF) : string :=
  String.concat ""
    [" q["; show_N (N.of_nat i); "]: ";
     String (dof2letter (point_dof d)) (show_N (point_index d))]%string.

(** The line of relative coordinate [i]; only the absolute angle has a
    name there. *)
Definition relative_line (nDOFs : N) (i : nat) (relConstr : RelativeDOF)
  : string :=
  String.concat ""
    [" q["; show_N (N.of_nat i + nDOFs); "]: ";
     match relConstr with
     | RelativeAngleAbsoluteDOF point_idx0 point_idx1 =>
         String.concat ""
           ["relativeAngleWrtGround("; show_N point_idx0; " - ";
            show_N point_idx1; ")"]%string
     | _ => "???"
     end]%string.

(** [printCoordinates(o)]: what it writes to [o], line by line; each line
    ends with a newline in the stream. *)
Definition printCoordinates (a : CAssembledRigidModel)
  : result (list string) :=
  ASSERT_ (size (q_ a) =? size (DOFs_ a) + size (rDOFs_ a))%N
    "ASSERT_EQUAL_(q_.size(), DOFs_.size() + rDOFs_.size())";;
  Ok ([String.concat ""
         ["[CAssembledRigidModel] |q|="; show_N (size (q_ a)); ", ";
          show_N (size (DOFs_ a)); " natural, "; show_N (size (rDOFs_ a));
          " relative coordinates."]%string;
       "Natural coordinates:"%string]
      ++ imap natural_line (DOFs_ a)
      ++ match rDOFs_ a with
         | [] => []
         | _ => "Relative coordinates:"%string
                :: imap (relative_line (size (DOFs_ a))) (rDOFs_ a)
         end).

(** ** Vocabulary of the further statements *)

(** The reverse table of a list of points whose first free coordinate
    takes column [i]: a free point takes two columns in a row, a fixed
    point none. *)
Fixpoint dof_columns (i : N) (pts : list Point2) : list Point2ToDOF :=
  match pts with
  | [] => []
  | pt :: rest =>
      if fixed pt then Point2ToDOF_default :: dof_columns i rest
      else mkPoint2ToDOF i (i + 1) :: dof_columns (i + 2)%N rest
  end.

(** The static coordinates of the free points, x before y, in point
    order. *)
Fixpoint free_coords (pts : list Point2) : list R :=
  match pts with
  | [] => []
  | pt :: rest =>
      (if fixed pt then [] else [x (coords pt); y (coords pt)])
      ++ free_coords rest
  end.

(** The constraint of relative coordinate number [i], bound to column
    [nEuclideanDOFs + i]; none for a variant the constructor does not
    know. *)
Definition relative_constraint (nEuclideanDOFs : N) (i : nat)
    (r : RelativeDOF) : option Constraint :=
  let idxInQ := (nEuclideanDOFs + N.of_nat i)%N in
  match r with
  | RelativeAngleDOF p0 p1 p2 => Some (CConstraintRelativeAngle p0 p1 p2 idxInQ)
  | RelativeAngleAbsoluteDOF p0 p1 =>
      Some (CConstraintRelativeAngleAbsolute p0 p1 idxInQ)
  | OtherRelativeDOF => None
  end.

(** Constraints are all the generation of closure constraints changes in a
    definition, whether it succeeds or not. *)
Definition same_but_constraints (m m' : ModelDefinition) : Prop :=
  points_ m' = points_ m ∧ bodies_ m' = bodies_ m ∧
  already_added_fixed_len_constraints_ m'
  = already_added_fixed_len_constraints_ m ∧
  ∃ cs, getConstraints m' = getConstraints m ++ cs.

(** The order of the list of Euclidean degrees of freedom: a point of
    lower index comes first, and the x of a point before its y. *)
Definition dof_before (d d' : NaturalCoordDOF) : Prop :=
  (point_index d < point_index d')%N ∨
  (point_index d = point_index d' ∧
   point_dof d = PointDOF.X ∧ point_dof d' = PointDOF.Y).

(** The product of a row and a column. *)
Definition dot (row v : list R) : R := Rsum (zip_with Rmult row v).

(** All the constraint-sized vectors and matrices have [m] rows. *)
Definition rows_agree (a : CAssembledRigidModel) (m : N) : Prop :=
  Phi_ a = m ∧ dotPhi_ a = m ∧ nrows (Phi_q_ a) = m ∧
  nrows (dotPhi_q_ a) = m ∧ nrows (dPhiqdq_dq_ a) = m ∧
  nrows (Phiqq_times_dq_ a) = m ∧ nrows (d_dotPhiq_ddq_times_dq_ a) = m.

(** A linkage with every point fixed to the ground. *)
Definition grounded : ModelDefinition :=
  mkModelDefinition
    [mkPoint2 (mkTPoint2D 0 0) true; mkPoint2 (mkTPoint2D 1 0) true]
    [bar 0 1 1] [] false.

(** A body on the given points, of unit length and unit mass. *)
Definition plate (pts : list N) : Body :=
  mkBody pts 1 1 (mkTPoint2D 0 0) (mkMatrix2d 0 0 0 0) (mkMatrix2d 0 0 0 0)
    (mkMatrix2d 0 0 0 0).

(** The points of the four-bar linkage with its first bar and a body of
    one point. *)
Definition broken : ModelDefinition :=
  mkModelDefinition fourbar_points [bar 0 1 1; plate [2%N]] [] false.

(** The points of the four-bar linkage with a triangle on the points 1, 2
    and 9. *)
Definition dangling : ModelDefinition :=
  mkModelDefinition fourbar_points [plate [1; 2; 9]%N] [] false.

(** * Properties *)

(** ** The [result] monad and the containers *)

Lemma bind_Ok {A B} (a : A) (k : A → result B) : (Ok a ≫= k) = k a.
Proof. reflexivity. Qed.

Lemma bind_inv {A B} (r : result A) (k : A → result B) (b : B) :
  r ≫= k = Ok b → ∃ a, r = Ok a ∧ k a = Ok b.
Proof. destruct r as [a| |]; [|done..]. intros H. by exists a. Qed.

Lemma index_Some {A} (v : list A) (i : N) (a : A) :
  v !! N.to_nat i = Some a → index v i = Ok a.
Proof. unfold index. by intros ->. Qed.

Lemma index_Ok {A} (v : list A) (i : N) (a : A) :
  index v i = Ok a → v !! N.to_nat i = Some a.
Proof. unfold index. by destruct (v !! N.to_nat i); intros [= ->]. Qed.

Lemma lookup_size_lt {A} (v : list A) (i : N) :
  (i < size v)%N → ∃ a, v !! N.to_nat i = Some a.
Proof. unfold size. intros H. apply lookup_lt_is_Some_2. lia. Qed.

Lemma lookup_size_Some {A} (v : list A) (i : N) (a : A) :
  v !! N.to_nat i = Some a → (i < size v)%N.
Proof. unfold size. intros H%lookup_lt_Some. lia. Qed.

Lemma index_nth (v : list R) (i : N) :
  (i < size v)%N → index v i = Ok (nth (N.to_nat i) v 0%R).
Proof.
  intros H. destruct (lookup_size_lt v i H) as [a Ha].
  rewrite (index_Some _ _ _ Ha). f_equal.
  symmetry. by apply nth_lookup_Some with (d := 0%R) in Ha.
Qed.

Lemma set_index_Ok {A} (v v' : list A) (i : N) (a : A) :
  set_index v i a = Ok v' → (i < size v)%N ∧ v' = <[N.to_nat i := a]> v.
Proof.
  unfold set_index. destruct (N.ltb_spec i (size v)); [|done].
  by intros [= <-].
Qed.

Lemma set_index_lt {A} (v : list A) (i : N) (a : A) :
  (i < size v)%N → set_index v i a = Ok (<[N.to_nat i := a]> v).
Proof. unfold set_index. intros H. by destruct (N.ltb_spec i (size v)); [|lia]. Qed.

Lemma size_insert {A} (v : list A) (i : nat) (a : A) :
  size (<[i := a]> v) = size v.
Proof. unfold size. by rewrite length_insert. Qed.

Lemma size_setZero (n : N) : size (setZero n) = n.
Proof. unfold size, setZero. rewrite length_replicate. lia. Qed.

Lemma column_in_size (c : dof_index_t) (v w : list R) :
  size v = size w → column_in c v → column_in c w.
Proof. unfold column_in. intros <-. tauto. Qed.

(** ** Reading one axis *)

Lemma read_axis (static : R) (v : list R) (c : dof_index_t) :
  column_in c v →
  (if negb (c =? INVALID_DOF)%N then index v c else Ok static)
  = Ok (axis_value static v c).
Proof.
  unfold axis_value. intros [-> | Hlt]; [done|].
  destruct (c =? INVALID_DOF)%N; [done|]. by apply index_nth.
Qed.

Lemma axis_value_fixed (static : R) (v : list R) :
  axis_value static v INVALID_DOF = static.
Proof. reflexivity. Qed.

Lemma axis_value_free (static : R) (v : list R) (c : dof_index_t) :
  c ≠ INVALID_DOF → axis_value static v c = nth (N.to_nat c) v 0%R.
Proof. unfold axis_value. intros H. by destruct (N.eqb_spec c INVALID_DOF). Qed.

Lemma axis_value_insert_eq (static r : R) (v : list R) (c : dof_index_t) :
  c ≠ INVALID_DOF → (c < size v)%N →
  axis_value static (<[N.to_nat c := r]> v) c = r.
Proof.
  intros Hc Hlt. rewrite axis_value_free by done.
  apply nth_lookup_Some with (d := 0%R).
  apply list_lookup_insert_eq. unfold size in Hlt. lia.
Qed.

Lemma axis_value_insert_ne (static r : R) (v : list R) (c i : dof_index_t) :
  c ≠ i → axis_value static (<[N.to_nat i := r]> v) c = axis_value static v c.
Proof.
  intros Hne. unfold axis_value. destruct (c =? INVALID_DOF)%N; [done|].
  destruct (decide (N.to_nat c < length v)%nat) as [Hlt|Hge].
  - destruct (lookup_lt_is_Some_2 v _ Hlt) as [e He].
    rewrite (nth_lookup_Some _ _ 0%R _ He).
    apply nth_lookup_Some with (d := 0%R).
    rewrite list_lookup_insert_ne by lia. done.
  - rewrite !nth_overflow; [done | lia | rewrite length_insert; lia].
Qed.

Lemma getPointCurrentCoords_value (a : CAssembledRigidModel) (pt_idx : N)
    (info : Point2) (d : Point2ToDOF) :
  points_ (parent_ a) !! N.to_nat pt_idx = Some info →
  points2DOFs_ a !! N.to_nat pt_idx = Some d →
  column_in (dof_x d) (q_ a) → column_in (dof_y d) (q_ a) →
  getPointCurrentCoords a pt_idx
  = Ok (mkTPoint2D (axis_value (x (coords info)) (q_ a) (dof_x d))
                   (axis_value (y (coords info)) (q_ a) (dof_y d))).
Proof.
  intros Hinfo Hd Hx Hy. unfold getPointCurrentCoords, getPointInfo.
  rewrite (index_Some _ _ _ Hinfo), bind_Ok, (index_Some _ _ _ Hd), bind_Ok.
  by rewrite (read_axis _ _ _ Hx), bind_Ok, (read_axis _ _ _ Hy), bind_Ok.
Qed.

Lemma getPointCurrentVelocity_value (a : CAssembledRigidModel) (pt_idx : N)
    (d : Point2ToDOF) :
  points2DOFs_ a !! N.to_nat pt_idx = Some d →
  column_in (dof_x d) (dotq_ a) → column_in (dof_y d) (dotq_ a) →
  getPointCurrentVelocity a pt_idx
  = Ok (mkTPoint2D (axis_value 0 (dotq_ a) (dof_x d))
                   (axis_value 0 (dotq_ a) (dof_y d))).
Proof.
  intros Hd Hx Hy. unfold getPointCurrentVelocity.
  rewrite (index_Some _ _ _ Hd), bind_Ok.
  by rewrite (read_axis _ _ _ Hx), bind_Ok, (read_axis _ _ _ Hy), bind_Ok.
Qed.

(** ** The four-bar linkage, assembled *)

Example linkage_assembleRigidMBS (L01 : R) :
  assembleRigidMBS (linkage L01)
  = (Ok (linkage_symbolic L01), linkage_closed L01).
Proof. reflexivity. Qed.

Example linkage_new (L01 : R) :
  CAssembledRigidModel_new (linkage_symbolic L01)
  = Ok (linkage_at L01 [1; 0; 1; 2]%R (setZero 4)).
Proof. reflexivity. Qed.

(** ** Point accessors *)

(** C5.  For a point of the model, [getPointCurrentCoords] returns, axis by
    axis, the entry of [q] in the axis' column when the axis is a degree of
    freedom and the point's static coordinate otherwise;
    [getPointCurrentVelocity] returns the entry of [dq] for a free axis and
    0 for a fixed one; and a value written into [q] (into [dq]) at the
    column of a free axis is the value the accessor reads back. *)
Theorem point_accessors (a : CAssembledRigidModel) (pt_idx : N)
    (info : Point2) (d : Point2ToDOF)
    (Hinfo : points_ (parent_ a) !! N.to_nat pt_idx = Some info)
    (Hd : points2DOFs_ a !! N.to_nat pt_idx = Some d)
    (Hqx : column_in (dof_x d) (q_ a)) (Hqy : column_in (dof_y d) (q_ a))
    (Hvx : column_in (dof_x d) (dotq_ a))
    (Hvy : column_in (dof_y d) (dotq_ a)) :
  getPointCurrentCoords a pt_idx
  = Ok (mkTPoint2D
          (if decide (dof_x d = INVALID_DOF) then x (coords info)
           else nth (N.to_nat (dof_x d)) (q_ a) 0%R)
          (if decide (dof_y d = INVALID_DOF) then y (coords info)
           else nth (N.to_nat (dof_y d)) (q_ a) 0%R)) ∧
  getPointCurrentVelocity a pt_idx
  = Ok (mkTPoint2D
          (if decide (dof_x d = INVALID_DOF) then 0%R
           else nth (N.to_nat (dof_x d)) (dotq_ a) 0%R)
          (if decide (dof_y d = INVALID_DOF) then 0%R
           else nth (N.to_nat (dof_y d)) (dotq_ a) 0%R)) ∧
  (∀ r q', dof_x d ≠ INVALID_DOF → set_index (q_ a) (dof_x d) r = Ok q' →
     x <$> getPointCurrentCoords (set_q q' a) pt_idx = Ok r) ∧
  (∀ r q', dof_y d ≠ INVALID_DOF → set_index (q_ a) (dof_y d) r = Ok q' →
     y <$> getPointCurrentCoords (set_q q' a) pt_idx = Ok r) ∧
  (∀ r dq', dof_x d ≠ INVALID_DOF →
     set_index (dotq_ a) (dof_x d) r = Ok dq' →
     x <$> getPointCurrentVelocity (set_dotq dq' a) pt_idx = Ok r) ∧
  (∀ r dq', dof_y d ≠ INVALID_DOF →
     set_index (dotq_ a) (dof_y d) r = Ok dq' →
     y <$> getPointCurrentVelocity (set_dotq dq' a) pt_idx = Ok r).
Proof.
  assert (Hav : ∀ s v c,
    axis_value s v c
    = if decide (c = INVALID_DOF) then s else nth (N.to_nat c) v 0%R).
  { intros s v c. unfold axis_value.
    destruct (N.eqb_spec c INVALID_DOF), (decide (c = INVALID_DOF)); done. }
  split_and!.
  - rewrite (getPointCurrentCoords_value a pt_idx info d) by done.
    by rewrite !Hav.
  - rewrite (getPointCurrentVelocity_value a pt_idx d) by done.
    by rewrite !Hav.
  - intros r q' Hfree [Hlt ->]%set_index_Ok.
    rewrite (getPointCurrentCoords_value _ pt_idx info d); try done.
    + cbn. by rewrite axis_value_insert_eq.
    + cbn. right. by rewrite size_insert.
    + cbn. eapply column_in_size; [|exact Hqy]. by rewrite size_insert.
  - intros r q' Hfree [Hlt ->]%set_index_Ok.
    rewrite (getPointCurrentCoords_value _ pt_idx info d); try done.
    + cbn. by rewrite axis_value_insert_eq.
    + cbn. eapply column_in_size; [|exact Hqx]. by rewrite size_insert.
    + cbn. right. by rewrite size_insert.
  - intros r q' Hfree [Hlt ->]%set_index_Ok.
    rewrite (getPointCurrentVelocity_value _ pt_idx d); try done.
    + cbn. by rewrite axis_value_insert_eq.
    + cbn. right. by rewrite size_insert.
    + cbn. eapply column_in_size; [|exact Hvy]. by rewrite size_insert.
  - intros r q' Hfree [Hlt ->]%set_index_Ok.
    rewrite (getPointCurrentVelocity_value _ pt_idx d); try done.
    + cbn. by rewrite axis_value_insert_eq.
    + cbn. eapply column_in_size; [|exact Hvx]. by rewrite size_insert.
    + cbn. right. by rewrite size_insert.
Qed.

(** Point 1 of the four-bar linkage is free: its coordinates are columns 0
    and 1 of [q]. *)
Lemma point_accessors_witness :
  getPointCurrentCoords fourbar_arm 1 = Ok (mkTPoint2D 1 0) ∧
  getPointCurrentVelocity fourbar_arm 1 = Ok (mkTPoint2D 0 0) ∧
  x <$> getPointCurrentCoords
          (set_q [5; 0; 1; 2]%R fourbar_arm) 1 = Ok 5%R.
Proof.
  destruct (point_accessors fourbar_arm 1
              (mkPoint2 (mkTPoint2D 1 0) false) (mkPoint2ToDOF 0 1)
              eq_refl eq_refl
              (or_intror eq_refl) (or_intror eq_refl)
              (or_intror eq_refl) (or_intror eq_refl))
    as (Hc & Hv & Hrt & _).
  split_and!.
  - exact Hc.
  - exact Hv.
  - apply (Hrt 5%R); [discriminate | reflexivity].
Defined.

(** ** A point attached to a body *)

Lemma Rgtb_true (r s : R) : (r > s)%R → Rgtb r s = true.
Proof. unfold Rgtb. intros H. by destruct (Rgt_dec r s). Qed.

Lemma Rgtb_false (r s : R) : ¬ (r > s)%R → Rgtb r s = false.
Proof. unfold Rgtb. intros H. by destruct (Rgt_dec r s). Qed.

Lemma reference_points_below (a : CAssembledRigidModel) (body_index : N)
    (b : Body) (i0 i1 : N) :
  reference_points a body_index b i0 i1 →
  (body_index <? size (getBodies (parent_ a)))%N = true.
Proof.
  intros (Hb & _). apply N.ltb_lt. by eapply lookup_size_Some.
Qed.

Lemma ASSERTDEB_true (_DEBUG : bool) (what : string) :
  ASSERTDEB_ _DEBUG true what = Ok ().
Proof. unfold ASSERTDEB_. cbn. by rewrite andb_false_r. Qed.

(** What the code computes: the frame is spanned by [(p1 - p0) / L] with
    [L] the length stored in the body, and the only check, on [L], is made
    in debug builds. *)
Lemma getPointOnBodyCurrentCoords_value (_DEBUG : bool)
    (a : CAssembledRigidModel) (body_index : N) (relative_pt : TPoint2D)
    (b : Body) (i0 i1 : N) (p0 p1 : TPoint2D) :
  reference_points a body_index b i0 i1 →
  getPointCurrentCoords a i0 = Ok p0 →
  getPointCurrentCoords a i1 = Ok p1 →
  getPointOnBodyCurrentCoords _DEBUG a body_index relative_pt
  = if _DEBUG && negb (Rgtb (length_ b) 0) then Throw "L > 0"
    else Ok (frame_point p0 (scaled_director p0 p1 (length_ b)) relative_pt).
Proof.
  intros Href H0 H1. unfold getPointOnBodyCurrentCoords.
  rewrite (reference_points_below _ _ _ _ _ Href).
  destruct Href as (Hb & Hi0 & Hi1 & _).
  rewrite ASSERTDEB_true, bind_Ok.
  rewrite (index_Some _ _ _ Hb), bind_Ok.
  rewrite (index_Some (points b) 0 i0 Hi0), bind_Ok.
  rewrite (index_Some (points b) 1 i1 Hi1), bind_Ok.
  rewrite H0, bind_Ok, H1, bind_Ok.
  unfold ASSERTDEB_.
  destruct (_DEBUG && negb (Rgtb (length_ b) 0)); [done|].
  change (Ok () ≫= ?k) with (k ()). cbv beta.
  unfold frame_point, scaled_director, rot90, TPoint2D_scale; cbn.
  f_equal. f_equal; lra.
Qed.

(** ** The gyroscope factor: what a call computes *)

Lemma ASSERT_true (what : string) : ASSERT_ true what = Ok ().
Proof. reflexivity. Qed.

Lemma fill_column_value (Hv : list R) (c : dof_index_t) (v : R) :
  column_in c Hv → fill_column Hv c v = Ok (with_column c v Hv).
Proof.
  unfold fill_column, with_column. intros [-> | Hlt]; [done|].
  destruct (c =? INVALID_DOF)%N; [done|]. by apply set_index_lt.
Qed.

Lemma size_with_column (c : dof_index_t) (v : R) (row : list R) :
  size (with_column c v row) = size row.
Proof.
  unfold with_column. destruct (c =? INVALID_DOF)%N; [done|].
  apply size_insert.
Qed.

Lemma column_in_with_column (c c' : dof_index_t) (v : R) (row : list R) :
  column_in c row → column_in c (with_column c' v row).
Proof. apply column_in_size. by rewrite size_with_column. Qed.

Section JacobianRows.
Variables (n : N) (d0 d1 : Point2ToDOF).
Hypothesis Hx0 : column_in (dof_x d0) (setZero n).
Hypothesis Hy0 : column_in (dof_y d0) (setZero n).
Hypothesis Hx1 : column_in (dof_x d1) (setZero n).
Hypothesis Hy1 : column_in (dof_y d1) (setZero n).

(** Four writes into a row of zeros, in the order of the code. *)
Lemma four_writes (e1 e2 e3 e4 : R) :
  (Hv ← fill_column (setZero n) (dof_x d0) e1;
   Hv ← fill_column Hv (dof_y d0) e2;
   Hv ← fill_column Hv (dof_x d1) e3;
   fill_column Hv (dof_y d1) e4)
  = Ok (with_column (dof_y d1) e4
          (with_column (dof_x d1) e3
             (with_column (dof_y d0) e2
                (with_column (dof_x d0) e1 (setZero n))))).
Proof using Hx0 Hy0 Hx1 Hy1.
  rewrite fill_column_value, bind_Ok by done.
  rewrite fill_column_value, bind_Ok by by apply column_in_with_column.
  rewrite fill_column_value, bind_Ok
    by by do 2 apply column_in_with_column.
  by rewrite fill_column_value by by do 3 apply column_in_with_column.
Qed.
End JacobianRows.

(** The call on a model whose state already is [(q_k, dq_k)]: the error is
    the rate minus the reading, and each Jacobian asked for is a row of
    zeros with four writes. *)
Lemma evaluateError_body_value (f : FactorGyroscope)
    (a : CAssembledRigidModel) (n : N) (H1 H2 : bool)
    (b : Body) (i0 i1 : N) (d0 d1 : Point2ToDOF)
    (pt0 pt1 pt0vel pt1vel : TPoint2D) :
  reference_points a (m_body_idx f) b i0 i1 →
  points2DOFs_ a !! N.to_nat i0 = Some d0 →
  points2DOFs_ a !! N.to_nat i1 = Some d1 →
  getPointCurrentCoords a i0 = Ok pt0 →
  getPointCurrentCoords a i1 = Ok pt1 →
  getPointCurrentVelocity a i0 = Ok pt0vel →
  getPointCurrentVelocity a i1 = Ok pt1vel →
  evaluateError_body f a n H1 H2
  = (H1v ← (if H1 then
              Some <$> jacobian_q n d0 d1 pt0 pt1 pt0vel pt1vel
                         (1 / norm (TPoint2D_minus pt1 pt0))
            else Ok None);
     H2v ← (if H2 then
              Some <$> jacobian_dq n d0 d1 pt0 pt1
                         (1 / norm (TPoint2D_minus pt1 pt0))
            else Ok None);
     Ok (mkEvaluation [(gyro_rate pt0 pt1 pt0vel pt1vel - m_reading f)%R]
           H1v H2v)).
Proof.
  intros Href Hd0 Hd1 Hp0 Hp1 Hv0 Hv1. unfold evaluateError_body.
  rewrite (reference_points_below _ _ _ _ _ Href), ASSERT_true, bind_Ok.
  destruct Href as (Hb & Hi0 & Hi1 & _).
  rewrite (index_Some _ _ _ Hb), bind_Ok.
  rewrite (index_Some (points b) 0 i0 Hi0), bind_Ok.
  rewrite (index_Some (points b) 1 i1 Hi1), bind_Ok.
  rewrite Hp0, bind_Ok, Hp1, bind_Ok, Hv0, bind_Ok, Hv1, bind_Ok.
  rewrite (index_Some _ _ _ Hd0), (index_Some _ _ _ Hd1).
  reflexivity.
Qed.

(** The guards of [evaluateError]. *)
Lemma evaluateError_guards (f : FactorGyroscope) (a : CAssembledRigidModel)
    (q_k dq_k : list R) (H1 H2 : bool) :
  size dq_k = size q_k → (1 <= size q_k)%N →
  evaluateError f a q_k dq_k H1 H2
  = (evaluateError_body f (set_state q_k dq_k a) (size q_k) H1 H2,
     set_state q_k dq_k a).
Proof.
  intros Heq Hpos. unfold evaluateError.
  rewrite Heq, N.eqb_refl. cbn [negb].
  by destruct (N.ltb_spec (size q_k) 1); [lia|].
Qed.

(** ** Consequences of a consistent reverse table *)

Lemma dof_table_ok_set_state (q dq : list R) (a : CAssembledRigidModel) :
  dof_table_ok a → dof_table_ok (set_state q dq a).
Proof. done. Qed.

Lemma dof_table_columns (a : CAssembledRigidModel) (p : N) (d : Point2ToDOF)
    (v : list R) :
  dof_table_ok a → points2DOFs_ a !! N.to_nat p = Some d →
  (length (DOFs_ a) <= length v)%nat →
  column_in (dof_x d) v ∧ column_in (dof_y d) v.
Proof.
  intros [_ Htab] Hd Hlen. destruct (Htab p d Hd) as [Hx Hy].
  split.
  - destruct (decide (dof_x d = INVALID_DOF)) as [|Hne]; [by left|right].
    apply Hx, lookup_lt_Some in Hne. unfold size. lia.
  - destruct (decide (dof_y d = INVALID_DOF)) as [|Hne]; [by left|right].
    apply Hy, lookup_lt_Some in Hne. unfold size. lia.
Qed.

Lemma dof_table_entry (a : CAssembledRigidModel) (p : N) :
  dof_table_ok a → (p < getPointCount (parent_ a))%N →
  ∃ info d, points_ (parent_ a) !! N.to_nat p = Some info ∧
            points2DOFs_ a !! N.to_nat p = Some d.
Proof.
  intros [Hlen _] Hp.
  destruct (lookup_size_lt _ _ Hp) as [info Hinfo].
  destruct (lookup_lt_is_Some_2 (points2DOFs_ a) (N.to_nat p)) as [d Hd].
  { rewrite Hlen. by eapply lookup_lt_Some. }
  by exists info, d.
Qed.

(** Two axes that share a column are one axis of one point. *)
Lemma dof_table_injective (a : CAssembledRigidModel) (p p' : N)
    (d d' : Point2ToDOF) :
  dof_table_ok a →
  points2DOFs_ a !! N.to_nat p = Some d →
  points2DOFs_ a !! N.to_nat p' = Some d' →
  (dof_x d ≠ INVALID_DOF → dof_x d = dof_x d' → p = p') ∧
  (dof_y d ≠ INVALID_DOF → dof_y d = dof_y d' → p = p') ∧
  (dof_x d ≠ INVALID_DOF → dof_x d ≠ dof_y d') ∧
  (dof_y d ≠ INVALID_DOF → dof_y d ≠ dof_x d').
Proof.
  intros [_ Htab] Hd Hd'.
  destruct (Htab p d Hd) as [Hx Hy], (Htab p' d' Hd') as [Hx' Hy'].
  split_and!.
  - intros Hv Heq. specialize (Hx Hv). rewrite Heq in Hx, Hv.
    specialize (Hx' Hv). congruence.
  - intros Hv Heq. specialize (Hy Hv). rewrite Heq in Hy, Hv.
    specialize (Hy' Hv). congruence.
  - intros Hv Heq. specialize (Hx Hv). rewrite Heq in Hx, Hv.
    specialize (Hy' Hv). congruence.
  - intros Hv Heq. specialize (Hy Hv). rewrite Heq in Hy, Hv.
    specialize (Hx' Hv). congruence.
Qed.

(** With a consistent table and a state long enough for it, the accessors
    return for every point of the model. *)
Lemma accessors_return (a : CAssembledRigidModel) (p : N) :
  dof_table_ok a → (p < getPointCount (parent_ a))%N →
  (length (DOFs_ a) <= length (q_ a))%nat →
  (length (DOFs_ a) <= length (dotq_ a))%nat →
  ∃ info d,
    points_ (parent_ a) !! N.to_nat p = Some info ∧
    points2DOFs_ a !! N.to_nat p = Some d ∧
    getPointCurrentCoords a p
    = Ok (mkTPoint2D (axis_value (x (coords info)) (q_ a) (dof_x d))
                     (axis_value (y (coords info)) (q_ a) (dof_y d))) ∧
    getPointCurrentVelocity a p
    = Ok (mkTPoint2D (axis_value 0 (dotq_ a) (dof_x d))
                     (axis_value 0 (dotq_ a) (dof_y d))).
Proof.
  intros Hok Hp Hq Hdq.
  destruct (dof_table_entry a p Hok Hp) as (info & d & Hinfo & Hd).
  destruct (dof_table_columns a p d (q_ a) Hok Hd Hq) as [? ?].
  destruct (dof_table_columns a p d (dotq_ a) Hok Hd Hdq) as [? ?].
  exists info, d. split_and!; [done|done| |].
  - by apply getPointCurrentCoords_value.
  - by apply getPointCurrentVelocity_value.
Qed.

Lemma linkage_dof_table_ok (L01 : R) (q dq : list R) :
  dof_table_ok (linkage_at L01 q dq).
Proof.
  split; [done|]. intros p d Hd. cbn in Hd.
  destruct (N.to_nat p) as [|[|[|[|k]]]] eqn:Hp; cbn in Hd;
    try discriminate; injection Hd as <-;
    apply (f_equal N.of_nat) in Hp; rewrite N2Nat.id in Hp; subst p;
    (split; intros Hv; [done || reflexivity..]).
Qed.

Lemma linkage_reference_points (L01 : R) (q dq : list R) :
  reference_points (linkage_at L01 q dq) 0 (bar 0 1 L01) 0 1.
Proof. by split_and!. Qed.

(** C6 (amended).  For a body with reference points at current coordinates
    [p0] and [p1], [getPointOnBodyCurrentCoords] returns
    [p0 + offset.x * u + offset.y * v] where [u = (p1 - p0) / L] is scaled
    by the length [L] stored in the body and [v] is [u] turned by +90
    degrees; [u] is the unit director when [L] is the current distance of
    the two points.  The only check is on [L], in debug builds: the call
    throws there when [L > 0] fails; a release build makes no check. *)
Theorem point_on_body_coords (_DEBUG : bool) (a : CAssembledRigidModel)
    (body_index : N) (relative_pt : TPoint2D) (b : Body) (i0 i1 : N)
    (p0 p1 : TPoint2D)
    (Href : reference_points a body_index b i0 i1)
    (H0 : getPointCurrentCoords a i0 = Ok p0)
    (H1 : getPointCurrentCoords a i1 = Ok p1) :
  ((length_ b > 0)%R ∨ _DEBUG = false →
     getPointOnBodyCurrentCoords _DEBUG a body_index relative_pt
     = Ok (frame_point p0 (scaled_director p0 p1 (length_ b)) relative_pt)) ∧
  ((length_ b > 0)%R → norm (TPoint2D_minus p1 p0) = length_ b →
     getPointOnBodyCurrentCoords _DEBUG a body_index relative_pt
     = Ok (frame_point p0 (unit_director p0 p1) relative_pt)) ∧
  (¬ (length_ b > 0)%R → _DEBUG = true →
     getPointOnBodyCurrentCoords _DEBUG a body_index relative_pt
     = Throw "L > 0").
Proof.
  rewrite (getPointOnBodyCurrentCoords_value _ _ _ _ _ _ _ _ _ Href H0 H1).
  split_and!.
  - intros [HL | ->]; [|done]. by rewrite (Rgtb_true _ _ HL), andb_false_r.
  - intros HL Hnorm. rewrite (Rgtb_true _ _ HL), andb_false_r.
    unfold scaled_director, unit_director. by rewrite Hnorm.
  - intros HL ->. by rewrite (Rgtb_false _ _ HL).
Qed.

Lemma norm_1_0 :
  norm (TPoint2D_minus (mkTPoint2D 1 0) (mkTPoint2D 0 0)) = 1%R.
Proof.
  unfold norm; cbn.
  replace ((1 - 0) * (1 - 0) + (0 - 0) * (0 - 0))%R with (1 * 1)%R by lra.
  apply sqrt_square. lra.
Qed.

(** The first bar of the four-bar linkage, in a debug build: with its
    length 1 the centre of the bar is found; with a stored length 0 the
    call throws. *)
Lemma point_on_body_coords_witness :
  getPointOnBodyCurrentCoords true fourbar_arm 0 (mkTPoint2D (1 / 2) 0)
  = Ok (frame_point (mkTPoint2D 0 0)
          (unit_director (mkTPoint2D 0 0) (mkTPoint2D 1 0))
          (mkTPoint2D (1 / 2) 0)) ∧
  getPointOnBodyCurrentCoords true
    (linkage_at 0 [1; 0; 1; 2]%R (setZero 4)) 0 (mkTPoint2D (1 / 2) 0)
  = Throw "L > 0".
Proof.
  split.
  - apply (point_on_body_coords true fourbar_arm 0 (mkTPoint2D (1 / 2) 0)
             (bar 0 1 1) 0 1 (mkTPoint2D 0 0) (mkTPoint2D 1 0)
             (linkage_reference_points 1 _ _) eq_refl eq_refl).
    + cbn. lra.
    + exact norm_1_0.
  - apply (point_on_body_coords true
             (linkage_at 0 [1; 0; 1; 2]%R (setZero 4)) 0
             (mkTPoint2D (1 / 2) 0)
             (bar 0 1 0) 0 1 (mkTPoint2D 0 0) (mkTPoint2D 1 0)
             (linkage_reference_points 0 _ _) eq_refl eq_refl).
    + cbn. lra.
    + reflexivity.
Defined.

(** C6 as stated fails: point 1 moved to (2, 0) while the first bar keeps
    its stored length 1.  The segment has length 2, the point of the
    specification is (1, 0), and the call returns (2, 0), in either
    build. *)
Lemma point_on_body_coords_counterexample :
  let a := fourbar_at [2; 0; 1; 2]%R (setZero 4) in
  let p0 := mkTPoint2D 0 0 in
  let p1 := mkTPoint2D 2 0 in
  let offset := mkTPoint2D 1 0 in
  reference_points a 0 (bar 0 1 1) 0 1 ∧
  getPointCurrentCoords a 0 = Ok p0 ∧
  getPointCurrentCoords a 1 = Ok p1 ∧
  (norm (TPoint2D_minus p1 p0) > 0)%R ∧
  ∀ _DEBUG,
    getPointOnBodyCurrentCoords _DEBUG a 0 offset
    ≠ Ok (frame_point p0 (unit_director p0 p1) offset).
Proof.
  assert (Hnorm :
    norm (TPoint2D_minus (mkTPoint2D 2 0) (mkTPoint2D 0 0)) = 2%R).
  { unfold norm; cbn.
    replace ((2 - 0) * (2 - 0) + (0 - 0) * (0 - 0))%R with (2 * 2)%R by lra.
    apply sqrt_square. lra. }
  cbv zeta. split_and!; [apply linkage_reference_points|done|done| |].
  - rewrite Hnorm. lra.
  - intros _DEBUG.
    rewrite (getPointOnBodyCurrentCoords_value _DEBUG
               (fourbar_at [2; 0; 1; 2]%R (setZero 4)) 0 _ (bar 0 1 1) 0 1
               (mkTPoint2D 0 0) (mkTPoint2D 2 0)
               (linkage_reference_points 1 _ _) eq_refl eq_refl).
    rewrite (Rgtb_true (length_ (bar 0 1 1)) 0), andb_false_r by (cbn; lra).
    intros [= Hx _]. revert Hx. unfold unit_director. rewrite Hnorm. cbn. lra.
Qed.

(** ** The residual of the gyroscope factor *)

Lemma gyro_rate_observation (p0 p1 p0vel p1vel : TPoint2D) :
  gyro_rate p0 p1 p0vel p1vel = rate_observation p0 p1 p0vel p1vel.
Proof.
  unfold gyro_rate, rate_observation, unit_director, rot90, TPoint2D_scale.
  cbn. unfold Rdiv. ring.
Qed.

(** On a consistent model and a state long enough for its table, the call
    returns whatever is asked for. *)
Lemma evaluateError_returns (f : FactorGyroscope) (a : CAssembledRigidModel)
    (q_k dq_k : list R) (H1 H2 : bool) (b : Body) (i0 i1 : N) :
  dof_table_ok a → reference_points a (m_body_idx f) b i0 i1 →
  (length (DOFs_ a) <= length q_k)%nat →
  size dq_k = size q_k → (1 <= size q_k)%N →
  ∃ info0 info1 d0 d1,
    let a' := set_state q_k dq_k a in
    let p0 := mkTPoint2D (axis_value (x (coords info0)) q_k (dof_x d0))
                         (axis_value (y (coords info0)) q_k (dof_y d0)) in
    let p1 := mkTPoint2D (axis_value (x (coords info1)) q_k (dof_x d1))
                         (axis_value (y (coords info1)) q_k (dof_y d1)) in
    let v0 := mkTPoint2D (axis_value 0 dq_k (dof_x d0))
                         (axis_value 0 dq_k (dof_y d0)) in
    let v1 := mkTPoint2D (axis_value 0 dq_k (dof_x d1))
                         (axis_value 0 dq_k (dof_y d1)) in
    let len_inv := (1 / norm (TPoint2D_minus p1 p0))%R in
    points_ (parent_ a) !! N.to_nat i0 = Some info0 ∧
    points_ (parent_ a) !! N.to_nat i1 = Some info1 ∧
    points2DOFs_ a !! N.to_nat i0 = Some d0 ∧
    points2DOFs_ a !! N.to_nat i1 = Some d1 ∧
    getPointCurrentCoords a' i0 = Ok p0 ∧
    getPointCurrentCoords a' i1 = Ok p1 ∧
    getPointCurrentVelocity a' i0 = Ok v0 ∧
    getPointCurrentVelocity a' i1 = Ok v1 ∧
    ∃ row1 row2,
      jacobian_q (size q_k) d0 d1 p0 p1 v0 v1 len_inv = Ok row1 ∧
      jacobian_dq (size q_k) d0 d1 p0 p1 len_inv = Ok row2 ∧
      evaluateError f a q_k dq_k H1 H2
      = (Ok (mkEvaluation [(gyro_rate p0 p1 v0 v1 - m_reading f)%R]
               (if H1 then Some row1 else None)
               (if H2 then Some row2 else None)), a').
Proof.
  intros Hok Href Hlen Hsize Hpos.
  assert (Hlen' : (length (DOFs_ a) <= length dq_k)%nat).
  { unfold size in Hsize. lia. }
  pose proof Href as (_ & _ & _ & Hi0 & Hi1).
  pose proof (dof_table_ok_set_state q_k dq_k a Hok) as Hok'.
  destruct (accessors_return (set_state q_k dq_k a) i0 Hok' Hi0 Hlen Hlen')
    as (info0 & d0 & Hinfo0 & Hd0 & Hp0 & Hv0).
  destruct (accessors_return (set_state q_k dq_k a) i1 Hok' Hi1 Hlen Hlen')
    as (info1 & d1 & Hinfo1 & Hd1 & Hp1 & Hv1).
  exists info0, info1, d0, d1. cbv zeta.
  split_and!; try done.
  assert (Hz : (length (DOFs_ a) <= length (setZero (size q_k)))%nat).
  { pose proof (size_setZero (size q_k)) as Hs. unfold size in *. lia. }
  destruct (dof_table_columns a i0 d0 _ Hok Hd0 Hz) as [Hx0 Hy0].
  destruct (dof_table_columns a i1 d1 _ Hok Hd1 Hz) as [Hx1 Hy1].
  eexists _, _. split_and!.
  - unfold jacobian_q. by apply four_writes.
  - unfold jacobian_dq. by apply four_writes.
  - rewrite evaluateError_guards by done. f_equal.
    rewrite (evaluateError_body_value f (set_state q_k dq_k a) (size q_k)
               H1 H2 b i0 i1 d0 d1 _ _ _ _ Href Hd0 Hd1 Hp0 Hp1 Hv0 Hv1).
    unfold jacobian_q, jacobian_dq.
    rewrite !(four_writes _ _ _ Hx0 Hy0 Hx1 Hy1).
    by destruct H1, H2.
Qed.

(** An axis whose column lies beyond the vector: the read is out of
    range. *)
Lemma read_axis_beyond (static : R) (v : list R) (c : dof_index_t) :
  ¬ column_in c v →
  (if negb (c =? INVALID_DOF)%N then index v c else Ok static) = Undef.
Proof.
  intros Hout. unfold column_in in Hout.
  destruct (N.eqb_spec c INVALID_DOF) as [->|Hv]; [by destruct Hout; left|].
  cbn [negb]. unfold index. rewrite lookup_ge_None_2; [done|].
  unfold size in Hout. lia.
Qed.

Lemma getPointCurrentCoords_beyond (a : CAssembledRigidModel) (pt_idx : N)
    (info : Point2) (d : Point2ToDOF) :
  points_ (parent_ a) !! N.to_nat pt_idx = Some info →
  points2DOFs_ a !! N.to_nat pt_idx = Some d →
  ¬ (column_in (dof_x d) (q_ a) ∧ column_in (dof_y d) (q_ a)) →
  getPointCurrentCoords a pt_idx = Undef.
Proof.
  intros Hinfo Hd Hout. unfold getPointCurrentCoords, getPointInfo.
  rewrite (index_Some _ _ _ Hinfo), (index_Some _ _ _ Hd), !bind_Ok.
  destruct (decide (column_in (dof_x d) (q_ a))) as [Hx|Hx].
  - rewrite (read_axis _ _ _ Hx), bind_Ok.
    rewrite read_axis_beyond; [done|]. intros Hy. by apply Hout.
  - by rewrite (read_axis_beyond _ _ _ Hx).
Qed.

(** The call on state vectors that reach the columns of the two reference
    points: it returns whatever is asked for. *)
Lemma evaluateError_reads (f : FactorGyroscope) (a : CAssembledRigidModel)
    (q_k dq_k : list R) (H1 H2 : bool) (b : Body) (i0 i1 : N)
    (d0 d1 : Point2ToDOF) :
  reference_points a (m_body_idx f) b i0 i1 →
  points2DOFs_ a !! N.to_nat i0 = Some d0 →
  points2DOFs_ a !! N.to_nat i1 = Some d1 →
  size dq_k = size q_k → (1 <= size q_k)%N →
  column_in (dof_x d0) q_k → column_in (dof_y d0) q_k →
  column_in (dof_x d1) q_k → column_in (dof_y d1) q_k →
  ∃ info0 info1,
    let a' := set_state q_k dq_k a in
    let p0 := mkTPoint2D (axis_value (x (coords info0)) q_k (dof_x d0))
                         (axis_value (y (coords info0)) q_k (dof_y d0)) in
    let p1 := mkTPoint2D (axis_value (x (coords info1)) q_k (dof_x d1))
                         (axis_value (y (coords info1)) q_k (dof_y d1)) in
    let v0 := mkTPoint2D (axis_value 0 dq_k (dof_x d0))
                         (axis_value 0 dq_k (dof_y d0)) in
    let v1 := mkTPoint2D (axis_value 0 dq_k (dof_x d1))
                         (axis_value 0 dq_k (dof_y d1)) in
    getPointCurrentCoords a' i0 = Ok p0 ∧
    getPointCurrentCoords a' i1 = Ok p1 ∧
    getPointCurrentVelocity a' i0 = Ok v0 ∧
    getPointCurrentVelocity a' i1 = Ok v1 ∧
    ∃ e, (evaluateError f a q_k dq_k H1 H2).1 = Ok e ∧
         err e = [(gyro_rate p0 p1 v0 v1 - m_reading f)%R].
Proof.
  intros Href Hd0 Hd1 Hsize Hpos Hx0 Hy0 Hx1 Hy1.
  pose proof Href as (_ & _ & _ & Hi0 & Hi1).
  destruct (lookup_size_lt _ _ Hi0) as [info0 Hinfo0].
  destruct (lookup_size_lt _ _ Hi1) as [info1 Hinfo1].
  assert (Hdq : ∀ c, column_in c q_k → column_in c dq_k).
  { intros c. by apply column_in_size. }
  assert (Hz : ∀ c, column_in c q_k → column_in c (setZero (size q_k))).
  { intros c. apply column_in_size. by rewrite size_setZero. }
  pose proof (getPointCurrentCoords_value (set_state q_k dq_k a) i0 info0 d0
                Hinfo0 Hd0 Hx0 Hy0) as Hp0.
  pose proof (getPointCurrentCoords_value (set_state q_k dq_k a) i1 info1 d1
                Hinfo1 Hd1 Hx1 Hy1) as Hp1.
  pose proof (getPointCurrentVelocity_value (set_state q_k dq_k a) i0 d0
                Hd0 (Hdq _ Hx0) (Hdq _ Hy0)) as Hv0.
  pose proof (getPointCurrentVelocity_value (set_state q_k dq_k a) i1 d1
                Hd1 (Hdq _ Hx1) (Hdq _ Hy1)) as Hv1.
  exists info0, info1. cbv zeta. split_and!; [done..|].
  rewrite evaluateError_guards by done. cbn [fst].
  rewrite (evaluateError_body_value f (set_state q_k dq_k a) (size q_k)
             H1 H2 b i0 i1 d0 d1 _ _ _ _ Href Hd0 Hd1 Hp0 Hp1 Hv0 Hv1).
  unfold jacobian_q, jacobian_dq.
  rewrite !(four_writes _ _ _ (Hz _ Hx0) (Hz _ Hy0) (Hz _ Hx1) (Hz _ Hy1)).
  destruct H1, H2; by eexists.
Qed.

(** The call on state vectors that fall short of a column of one of the
    two reference points: the read of that coordinate is out of range. *)
Lemma evaluateError_beyond (f : FactorGyroscope) (a : CAssembledRigidModel)
    (q_k dq_k : list R) (H1 H2 : bool) (b : Body) (i0 i1 : N)
    (d0 d1 : Point2ToDOF) :
  reference_points a (m_body_idx f) b i0 i1 →
  points2DOFs_ a !! N.to_nat i0 = Some d0 →
  points2DOFs_ a !! N.to_nat i1 = Some d1 →
  size dq_k = size q_k → (1 <= size q_k)%N →
  ¬ (column_in (dof_x d0) q_k ∧ column_in (dof_y d0) q_k ∧
     column_in (dof_x d1) q_k ∧ column_in (dof_y d1) q_k) →
  (evaluateError f a q_k dq_k H1 H2).1 = Undef.
Proof.
  intros Href Hd0 Hd1 Hsize Hpos Hout.
  pose proof Href as (Hb & Hb0 & Hb1 & Hi0 & Hi1).
  destruct (lookup_size_lt _ _ Hi0) as [info0 Hinfo0].
  destruct (lookup_size_lt _ _ Hi1) as [info1 Hinfo1].
  rewrite evaluateError_guards by done. cbn [fst].
  unfold evaluateError_body. cbn [parent_ set_state].
  rewrite (reference_points_below _ _ _ _ _ Href), ASSERT_true, bind_Ok.
  rewrite (index_Some _ _ _ Hb), bind_Ok.
  rewrite (index_Some (points b) 0 i0 Hb0), bind_Ok.
  rewrite (index_Some (points b) 1 i1 Hb1), bind_Ok.
  destruct (decide (column_in (dof_x d0) q_k ∧ column_in (dof_y d0) q_k))
    as [[Hx0 Hy0]|Hout0].
  - rewrite (getPointCurrentCoords_value (set_state q_k dq_k a) i0 info0 d0
               Hinfo0 Hd0 Hx0 Hy0), bind_Ok.
    rewrite (getPointCurrentCoords_beyond (set_state q_k dq_k a) i1 info1 d1
               Hinfo1 Hd1); [done|].
    intros [Hx1 Hy1]. by apply Hout.
  - by rewrite (getPointCurrentCoords_beyond (set_state q_k dq_k a) i0 info0
                  d0 Hinfo0 Hd0 Hout0).
Qed.

(** C2 (amended).  With state vectors of different lengths, or of length
    zero, the call throws.  Otherwise, for a body with two reference
    points, when the vectors reach the columns of the free coordinates of
    the two points the call returns the one-element vector [w - reading]
    with [w = ((p1vel - p0vel) . v_perp) / |p1 - p0|], where the points
    and their velocities are what the accessors of the model read from
    [(q_k, dq_k)]; when the vectors fall short of one of those columns,
    the read of that coordinate is unchecked and out of range, and the
    call returns nothing. *)
Theorem gyroscope_residual (f : FactorGyroscope) (a : CAssembledRigidModel)
    (q_k dq_k : list R) (H1 H2 : bool) :
  (size dq_k ≠ size q_k →
     evaluateError f a q_k dq_k H1 H2
     = (Throw "Inconsistent vector lengths!", a)) ∧
  (size dq_k = size q_k → size q_k = 0%N →
     evaluateError f a q_k dq_k H1 H2 = (Throw "Empty state vector!", a)) ∧
  (∀ b i0 i1 d0 d1,
     reference_points a (m_body_idx f) b i0 i1 →
     points2DOFs_ a !! N.to_nat i0 = Some d0 →
     points2DOFs_ a !! N.to_nat i1 = Some d1 →
     size dq_k = size q_k → (1 <= size q_k)%N →
     (column_in (dof_x d0) q_k ∧ column_in (dof_y d0) q_k ∧
      column_in (dof_x d1) q_k ∧ column_in (dof_y d1) q_k →
      ∃ p0 p1 p0vel p1vel e,
        getPointCurrentCoords (set_state q_k dq_k a) i0 = Ok p0 ∧
        getPointCurrentCoords (set_state q_k dq_k a) i1 = Ok p1 ∧
        getPointCurrentVelocity (set_state q_k dq_k a) i0 = Ok p0vel ∧
        getPointCurrentVelocity (set_state q_k dq_k a) i1 = Ok p1vel ∧
        fst (evaluateError f a q_k dq_k H1 H2) = Ok e ∧
        err e = [(rate_observation p0 p1 p0vel p1vel - m_reading f)%R]) ∧
     (¬ (column_in (dof_x d0) q_k ∧ column_in (dof_y d0) q_k ∧
         column_in (dof_x d1) q_k ∧ column_in (dof_y d1) q_k) →
      fst (evaluateError f a q_k dq_k H1 H2) = Undef)).
Proof.
  split_and!.
  - intros Hne. unfold evaluateError.
    by destruct (N.eqb_spec (size dq_k) (size q_k)).
  - intros Heq Hz. unfold evaluateError.
    rewrite Heq, N.eqb_refl, Hz. done.
  - intros b i0 i1 d0 d1 Href Hd0 Hd1 Hsize Hpos. split.
    + intros (Hx0 & Hy0 & Hx1 & Hy1).
      destruct (evaluateError_reads f a q_k dq_k H1 H2 b i0 i1 d0 d1
                  Href Hd0 Hd1 Hsize Hpos Hx0 Hy0 Hx1 Hy1)
        as (info0 & info1 & Hp0 & Hp1 & Hv0 & Hv1 & e & He & Herr).
      cbv zeta in *. eexists _, _, _, _, e.
      split_and!; [exact Hp0|exact Hp1|exact Hv0|exact Hv1|exact He|].
      by rewrite Herr, gyro_rate_observation.
    + by apply (evaluateError_beyond f a q_k dq_k H1 H2 b i0 i1 d0 d1).
Qed.

(** The first bar of the four-bar linkage turning about the ground point
    at unit rate, read as 1/2, with state vectors of length 2, which is
    as far as the columns of its points go; and a call with vectors of
    lengths 2 and 1. *)
Lemma gyroscope_residual_witness :
  (∃ e, fst (evaluateError (mkFactorGyroscope 0 (1 / 2)) fourbar_arm
               [1; 0]%R [0; 1]%R true true) = Ok e ∧
        err e = [(rate_observation (mkTPoint2D 0 0) (mkTPoint2D 1 0)
                    (mkTPoint2D 0 0) (mkTPoint2D 0 1) - 1 / 2)%R]) ∧
  fst (evaluateError (mkFactorGyroscope 0 (1 / 2)) fourbar_arm
         [1; 0]%R [0]%R true true) = Throw "Inconsistent vector lengths!".
Proof.
  split.
  - destruct (gyroscope_residual (mkFactorGyroscope 0 (1 / 2)) fourbar_arm
                [1; 0]%R [0; 1]%R true true)
      as (_ & _ & Hret).
    destruct (Hret (bar 0 1 1) 0%N 1%N Point2ToDOF_default
                (mkPoint2ToDOF 0 1)
                (linkage_reference_points 1 _ _) eq_refl eq_refl eq_refl)
      as [Hin _]; [apply N.leb_le; reflexivity|].
    destruct Hin as (p0 & p1 & v0 & v1 & e & Hp0 & Hp1 & Hv0 & Hv1 & He & Herr).
    { split_and!; [by left | by left | right | right];
        apply N.ltb_lt; reflexivity. }
    injection Hp0 as <-. injection Hp1 as <-.
    injection Hv0 as <-. injection Hv1 as <-.
    exists e. by split.
  - destruct (gyroscope_residual (mkFactorGyroscope 0 (1 / 2)) fourbar_arm
                [1; 0]%R [0]%R true true) as (Hthrow & _).
    rewrite Hthrow; [reflexivity | discriminate].
Defined.

(** C2 as stated fails.  The first bar of the four-bar linkage has two
    reference points and the two state vectors have the same positive
    length 1, yet the call returns no error vector: the y coordinate of
    point 1 is in column 1, beyond the vectors, and the read is out of
    range. *)
Lemma gyroscope_residual_counterexample :
  let f := mkFactorGyroscope 0 0 in
  reference_points fourbar_arm (m_body_idx f) (bar 0 1 1) 0 1 ∧
  size [0]%R = size [1]%R ∧ (1 <= size [1]%R)%N ∧
  (evaluateError f fourbar_arm [1]%R [0]%R false false).1 = Undef ∧
  ¬ ∃ e, (evaluateError f fourbar_arm [1]%R [0]%R false false).1 = Ok e.
Proof.
  cbv zeta.
  assert (Hundef :
    (evaluateError (mkFactorGyroscope 0 0) fourbar_arm [1]%R [0]%R
       false false).1 = Undef) by reflexivity.
  split_and!; [apply linkage_reference_points | reflexivity
               | apply N.leb_le; reflexivity | exact Hundef |].
  intros [e He]. rewrite Hundef in He. discriminate.
Qed.

(** ** The factor writes to the shared model *)

(** C10.  A call with state vectors of one positive length, whichever
    Jacobians it asks for, leaves the shared model with [q = q_k] and
    [dq = dq_k] and nothing else changed; the accessors of the model then
    read the coordinates and velocities of every point from [q_k] and
    [dq_k]. *)
Theorem evaluateError_overwrites_state (f : FactorGyroscope)
    (a : CAssembledRigidModel) (q_k dq_k : list R) (H1 H2 : bool)
    (Hsize : size dq_k = size q_k) (Hpos : (1 <= size q_k)%N) :
  let a' := snd (evaluateError f a q_k dq_k H1 H2) in
  q_ a' = q_k ∧ dotq_ a' = dq_k ∧ a' = set_state q_k dq_k a ∧
  ∀ pt_idx info d,
    points_ (parent_ a) !! N.to_nat pt_idx = Some info →
    points2DOFs_ a !! N.to_nat pt_idx = Some d →
    column_in (dof_x d) q_k → column_in (dof_y d) q_k →
    getPointCurrentCoords a' pt_idx
    = Ok (mkTPoint2D (axis_value (x (coords info)) q_k (dof_x d))
                     (axis_value (y (coords info)) q_k (dof_y d))) ∧
    getPointCurrentVelocity a' pt_idx
    = Ok (mkTPoint2D (axis_value 0 dq_k (dof_x d))
                     (axis_value 0 dq_k (dof_y d))).
Proof.
  rewrite evaluateError_guards by done. cbn [snd].
  split_and!; try done.
  intros pt_idx info d Hinfo Hd Hx Hy. split.
  - by apply (getPointCurrentCoords_value (set_state q_k dq_k a)).
  - apply (getPointCurrentVelocity_value (set_state q_k dq_k a)); [done|..];
      cbn; (eapply column_in_size; [symmetry; exact Hsize|done]).
Qed.

(** The assembled four-bar linkage holds point 1 at (1, 0) at rest; after
    a call at [q_k = (3, 4, 1, 2)] and [dq_k = (0, 1, 0, 0)] the model
    reads the point at (3, 4) with velocity (0, 1). *)
Lemma evaluateError_overwrites_state_witness :
  getPointCurrentCoords fourbar_arm 1 = Ok (mkTPoint2D 1 0) ∧
  let a' := snd (evaluateError (mkFactorGyroscope 0 0) fourbar_arm
                   [3; 4; 1; 2]%R [0; 1; 0; 0]%R false false) in
  q_ a' = [3; 4; 1; 2]%R ∧
  getPointCurrentCoords a' 1 = Ok (mkTPoint2D 3 4) ∧
  getPointCurrentVelocity a' 1 = Ok (mkTPoint2D 0 1).
Proof.
  split; [reflexivity|].
  destruct (evaluateError_overwrites_state (mkFactorGyroscope 0 0) fourbar_arm
              [3; 4; 1; 2]%R [0; 1; 0; 0]%R false false eq_refl)
    as (Hq & _ & _ & Hacc); [apply N.leb_le; reflexivity|].
  destruct (Hacc 1%N (mkPoint2 (mkTPoint2D 1 0) false) (mkPoint2ToDOF 0 1)
              eq_refl eq_refl (or_intror eq_refl) (or_intror eq_refl))
    as [Hc Hv].
  by split_and!.
Defined.

(** ** Division by the length of the reference segment *)

(** C3 (amended).  [getPointOnBodyCurrentCoords] tests the length [L]
    stored in the body before it divides by it, in debug builds only: when
    [L > 0] fails the call throws there, ahead of the division; in a
    release build the test is absent and the call returns. *)
Theorem zero_length_check (a : CAssembledRigidModel) (body_index : N)
    (relative_pt : TPoint2D) (b : Body) (i0 i1 : N) (p0 p1 : TPoint2D)
    (Href : reference_points a body_index b i0 i1)
    (H0 : getPointCurrentCoords a i0 = Ok p0)
    (H1 : getPointCurrentCoords a i1 = Ok p1)
    (HL : ¬ (length_ b > 0)%R) :
  getPointOnBodyCurrentCoords true a body_index relative_pt = Throw "L > 0" ∧
  ∃ p, getPointOnBodyCurrentCoords false a body_index relative_pt = Ok p.
Proof.
  rewrite !(getPointOnBodyCurrentCoords_value _ _ _ _ _ _ _ _ _ Href H0 H1).
  rewrite (Rgtb_false _ _ HL). split; [done|]. by eexists.
Qed.

(** The linkage with a first bar of stored length 0. *)
Lemma zero_length_check_witness :
  getPointOnBodyCurrentCoords true
    (linkage_at 0 [1; 0; 1; 2]%R (setZero 4)) 0 (mkTPoint2D 0 0)
  = Throw "L > 0".
Proof.
  apply (zero_length_check (linkage_at 0 [1; 0; 1; 2]%R (setZero 4)) 0
           (mkTPoint2D 0 0) (bar 0 1 0) 0 1 (mkTPoint2D 0 0) (mkTPoint2D 1 0)
           (linkage_reference_points 0 _ _) eq_refl eq_refl).
  cbn. lra.
Defined.

(** C3 as stated fails.  In a release build a body of stored length 0 goes
    through [getPointOnBodyCurrentCoords] without an error; and in every
    build the gyroscope factor returns an error vector when the state puts
    point 1 on the ground point 0, so that the segment it divides by has
    length 0. *)
Lemma zero_length_check_counterexample :
  (length_ (bar 0 1 0) = 0%R ∧
   ∃ p, getPointOnBodyCurrentCoords false
          (linkage_at 0 [1; 0; 1; 2]%R (setZero 4)) 0 (mkTPoint2D 0 0)
        = Ok p) ∧
  (let a' := fourbar_at [0; 0; 1; 2]%R [0; 1; 0; 0]%R in
   getPointCurrentCoords a' 0 = Ok (mkTPoint2D 0 0) ∧
   getPointCurrentCoords a' 1 = Ok (mkTPoint2D 0 0) ∧
   norm (TPoint2D_minus (mkTPoint2D 0 0) (mkTPoint2D 0 0)) = 0%R ∧
   ∃ e, evaluateError (mkFactorGyroscope 0 0) fourbar_arm
          [0; 0; 1; 2]%R [0; 1; 0; 0]%R true true = (Ok e, a')).
Proof.
  split; [split; [done|]|].
  - rewrite (getPointOnBodyCurrentCoords_value false
               (linkage_at 0 [1; 0; 1; 2]%R (setZero 4)) 0 _ (bar 0 1 0) 0 1
               (mkTPoint2D 0 0) (mkTPoint2D 1 0)
               (linkage_reference_points 0 _ _) eq_refl eq_refl).
    by eexists.
  - cbv zeta. split_and!; [done|done| |].
    + unfold norm; cbn.
      replace ((0 - 0) * (0 - 0) + (0 - 0) * (0 - 0))%R with 0%R by lra.
      apply sqrt_0.
    + destruct (evaluateError_returns (mkFactorGyroscope 0 0) fourbar_arm
                  [0; 0; 1; 2]%R [0; 1; 0; 0]%R true true (bar 0 1 1) 0 1
                  (linkage_dof_table_ok 1 _ _)
                  (linkage_reference_points 1 _ _))
        as (? & ? & ? & ? & _ & _ & _ & _ & _ & _ & _ & _ & ? & ? & _ & _ & He);
        [apply le_n | reflexivity | apply N.leb_le; reflexivity |].
      eexists. exact He.
Qed.

(** ** Copy of the state *)

(** Two models that the constructor builds from one symbolic model, each
    taken to a state of its own, are models of the same definition. *)
Lemma same_definition_new (armi : TSymbolicAssembledModel)
    (a1 a2 : CAssembledRigidModel) (q1 dq1 q2 dq2 : list R) :
  CAssembledRigidModel_new armi = Ok a1 →
  CAssembledRigidModel_new armi = Ok a2 →
  size q1 = size q2 → size dq1 = size dq2 →
  same_definition (set_state q1 dq1 a1) (set_state q2 dq2 a2).
Proof. intros -> [= ->] Hq Hdq. by split_and!. Qed.

(** C7.  Between two models of the same definition, [copyStateFrom] returns
    with this model's [q] and [dq] equal to the other's, so that both
    models read the same coordinates and velocities for every point; the
    tables of degrees of freedom, and everything else but [q] and [dq],
    are as before.  The other model is read only. *)
Theorem copyStateFrom_copies (_DEBUG : bool) (this o : CAssembledRigidModel)
    (Hsame : same_definition this o) :
  ∃ this',
    copyStateFrom _DEBUG this o = Ok this' ∧
    q_ this' = q_ o ∧ dotq_ this' = dotq_ o ∧
    (∀ p, getPointCurrentCoords this' p = getPointCurrentCoords o p ∧
          getPointCurrentVelocity this' p = getPointCurrentVelocity o p) ∧
    DOFs_ this' = DOFs_ this ∧ rDOFs_ this' = rDOFs_ this ∧
    points2DOFs_ this' = points2DOFs_ this ∧
    this' = set_state (q_ o) (dotq_ o) this.
Proof.
  destruct Hsame as (Hparent & HDOFs & _ & Htab & Hq & Hdq & HPhi).
  exists (set_state (q_ o) (dotq_ o) this). split_and!; try done.
  - unfold copyStateFrom. rewrite Hq, Hdq, HDOFs, HPhi, !N.eqb_refl.
    by destruct _DEBUG.
  - intros p.
    unfold getPointCurrentCoords, getPointCurrentVelocity, getPointInfo.
    cbn. by rewrite Hparent, Htab.
Qed.

(** The four-bar linkage at rest takes the state of a moving copy. *)
Lemma copyStateFrom_copies_witness :
  ∃ this',
    copyStateFrom true fourbar_arm
      (fourbar_at [3; 4; 1; 2]%R [0; 1; 0; 0]%R) = Ok this' ∧
    q_ this' = [3; 4; 1; 2]%R ∧
    getPointCurrentCoords this' 1 = Ok (mkTPoint2D 3 4) ∧
    points2DOFs_ this' = fourbar_points2DOFs.
Proof.
  destruct (copyStateFrom_copies true fourbar_arm
              (fourbar_at [3; 4; 1; 2]%R [0; 1; 0; 0]%R))
    as (this' & Hcopy & Hq & _ & Hacc & _ & _ & Htab & _).
  - by split_and!.
  - exists this'. split_and!; [done|done| |done].
    by destruct (Hacc 1%N) as [-> _].
Defined.

(** ** Energy *)

(** A state whose velocity vector is zero is at rest. *)
Lemma zero_dotq_at_rest (a : CAssembledRigidModel) :
  Forall (λ r, r = 0%R) (dotq_ a) → at_rest a.
Proof.
  intros Hz p v Hv. unfold getPointCurrentVelocity in Hv.
  apply bind_inv in Hv as (d & _ & Hv).
  apply bind_inv in Hv as (vx & Hvx & Hv).
  apply bind_inv in Hv as (vy & Hvy & [= <-]).
  assert (Hread : ∀ c r,
    (if negb (c =? INVALID_DOF)%N then index (dotq_ a) c else Ok 0%R) = Ok r →
    r = 0%R).
  { intros c r Hr. destruct (negb (c =? INVALID_DOF)%N).
    - apply index_Ok in Hr. by apply (Forall_lookup_1 _ _ _ _ Hz Hr).
    - by injection Hr. }
  by rewrite (Hread _ _ Hvx), (Hread _ _ Hvy).
Qed.

Lemma quad_form_at_rest (M N : Matrix2d) (v w : TPoint2D) :
  v = mkTPoint2D 0 0 → w = mkTPoint2D 0 0 →
  (0.5 * (quad_form v M v + quad_form w N w))%R = 0%R ∧
  quad_form v M w = 0%R.
Proof. intros -> ->. unfold quad_form; cbn. split; ring. Qed.

(** One turn of the loop: the potential energy grows by the body's
    [-(mass * (gravity . cog))], and the kinetic energy stays where it was
    if nothing moves. *)
Lemma energy_of_body_value (_DEBUG : bool) (a : CAssembledRigidModel)
    (i : N) (b : Body) (i0 i1 : N) (acc : R * R) :
  dof_table_ok a →
  (length (DOFs_ a) <= length (q_ a))%nat →
  (length (DOFs_ a) <= length (dotq_ a))%nat →
  reference_points a i b i0 i1 →
  (_DEBUG = true → (length_ b > 0)%R) →
  ∃ kin,
    energy_of_body _DEBUG a i b acc
    = Ok (kin, (snd acc + potential_of_body _DEBUG a i b)%R) ∧
    (at_rest a → kin = fst acc).
Proof.
  intros Hok Hq Hdq Href HL.
  pose proof Href as (_ & Hi0 & Hi1 & Hc0 & Hc1).
  destruct (accessors_return a i0 Hok Hc0 Hq Hdq)
    as (info0 & d0 & _ & _ & Hp0 & Hv0).
  destruct (accessors_return a i1 Hok Hc1 Hq Hdq)
    as (info1 & d1 & _ & _ & Hp1 & Hv1).
  pose proof (getPointOnBodyCurrentCoords_value _DEBUG a i (cog b) b i0 i1
                _ _ Href Hp0 Hp1) as Hcog.
  assert (Hchk : _DEBUG && negb (Rgtb (length_ b) 0) = false).
  { destruct _DEBUG; [|done]. by rewrite (Rgtb_true _ _ (HL eq_refl)). }
  rewrite Hchk in Hcog.
  unfold energy_of_body, potential_of_body, global_cog.
  rewrite (index_Some (points b) 0 i0 Hi0), bind_Ok.
  rewrite (index_Some (points b) 1 i1 Hi1), bind_Ok.
  rewrite Hv0, bind_Ok, Hv1, bind_Ok, Hcog, bind_Ok.
  destruct (gravity_ a) as [[gx gy] gz].
  eexists. split.
  - apply f_equal. apply f_equal2; reflexivity.
  - intros Hrest.
    destruct (quad_form_at_rest (getM00 b) (getM11 b)
                (mkTPoint2D (axis_value 0 (dotq_ a) (dof_x d0))
                            (axis_value 0 (dotq_ a) (dof_y d0)))
                (mkTPoint2D (axis_value 0 (dotq_ a) (dof_x d1))
                            (axis_value 0 (dotq_ a) (dof_y d1))))
      as [Hk _]; [by apply (Hrest i0) | by apply (Hrest i1) |].
    destruct (quad_form_at_rest (getM01 b) (getM01 b)
                (mkTPoint2D (axis_value 0 (dotq_ a) (dof_x d0))
                            (axis_value 0 (dotq_ a) (dof_y d0)))
                (mkTPoint2D (axis_value 0 (dotq_ a) (dof_x d1))
                            (axis_value 0 (dotq_ a) (dof_y d1))))
      as [_ Hm]; [by apply (Hrest i0) | by apply (Hrest i1) |].
    rewrite Hk, Hm. lra.
Qed.

Lemma energy_loop_value (_DEBUG : bool) (a : CAssembledRigidModel)
    (bodies : list Body) :
  dof_table_ok a →
  (length (DOFs_ a) <= length (q_ a))%nat →
  (length (DOFs_ a) <= length (dotq_ a))%nat →
  ∀ (i : N) (acc : R * R),
    (∀ k b, bodies !! k = Some b →
       ∃ i0 i1, reference_points a (i + N.of_nat k) b i0 i1 ∧
                (_DEBUG = true → (length_ b > 0)%R)) →
    ∃ kin,
      energy_loop _DEBUG a i bodies acc
      = Ok (kin, (snd acc + potential_from _DEBUG a i bodies)%R) ∧
      (at_rest a → kin = fst acc).
Proof.
  intros Hok Hq Hdq. unfold potential_from.
  induction bodies as [|b rest IH]; intros i acc Hbodies.
  - exists (fst acc). cbn. split; [|done].
    destruct acc as [k p]. cbn. f_equal. f_equal. lra.
  - destruct (Hbodies 0%nat b eq_refl) as (i0 & i1 & Href & HL).
    rewrite N.add_0_r in Href.
    destruct (energy_of_body_value _DEBUG a i b i0 i1 acc
                Hok Hq Hdq Href HL) as (kin1 & Hstep & Hrest1).
    destruct (IH (i + 1)%N (kin1, (snd acc + potential_of_body _DEBUG a i b)%R))
      as (kin & Hloop & Hrest).
    { intros k b' Hk. destruct (Hbodies (S k) b' Hk) as (j0 & j1 & Hr & Hl).
      exists j0, j1. split; [|done].
      by replace (i + 1 + N.of_nat k)%N with (i + N.of_nat (S k))%N by lia. }
    exists kin. split.
    + cbn [energy_loop]. rewrite Hstep, bind_Ok, Hloop. cbn [snd].
      f_equal. f_equal. cbn [imap foldr Rsum]. rewrite N.add_0_r.
      rewrite Rplus_assoc. f_equal. f_equal. unfold Rsum. f_equal.
      apply imap_ext. intros k b' _. cbn. f_equal. lia.
    + intros Hz. rewrite (Hrest Hz). cbn. by apply Hrest1.
Qed.

(** C8.  On a consistent model whose bodies have their two reference
    points, [evaluateEnergy] returns; the kinetic energy is 0 when every
    point has velocity 0; the potential energy is the sum over the bodies of
    [-(mass * (gravity . cog))], with the centre of gravity at its current
    global position; and the total is the sum of the two. *)
Theorem energy_values (_DEBUG : bool) (a : CAssembledRigidModel)
    (Hok : dof_table_ok a)
    (Hq : (length (DOFs_ a) <= length (q_ a))%nat)
    (Hdq : (length (DOFs_ a) <= length (dotq_ a))%nat)
    (Hbodies : bodies_ok _DEBUG a) :
  ∃ e,
    evaluateEnergy _DEBUG a = Ok e ∧
    (at_rest a → E_kin e = 0%R) ∧
    E_pot e = potential_energy _DEBUG a ∧
    E_total e = (E_kin e + E_pot e)%R.
Proof.
  destruct (energy_loop_value _DEBUG a (getBodies (parent_ a)) Hok Hq Hdq
              0%N (0, 0)%R) as (kin & Hloop & Hrest).
  { intros k b Hk. destruct (Hbodies k b Hk) as (i0 & i1 & Href & HL).
    exists i0, i1. by rewrite N.add_0_l. }
  unfold evaluateEnergy. rewrite Hloop, bind_Ok. cbn [snd] in *.
  eexists. split; [reflexivity|]. cbn. split_and!; [|unfold potential_energy; lra|done].
  intros Hz. by apply Hrest.
Qed.

Lemma fourbar_bodies_ok (q dq : list R) : bodies_ok true (fourbar_at q dq).
Proof.
  intros k b Hk. destruct k as [|[|[|k]]]; cbn in Hk; try discriminate;
    injection Hk as <-.
  - exists 0%N, 1%N. split; [by split_and!|]. intros _. cbn. lra.
  - exists 1%N, 2%N. split; [by split_and!|]. intros _. cbn. lra.
  - exists 2%N, 3%N. split; [by split_and!|]. intros _. cbn.
    apply sqrt_lt_R0. lra.
Qed.

(** The four-bar linkage at rest under the default gravity: no kinetic
    energy, and the potential energy of its three bars, whose centres are
    at heights 0, 1 and 1. *)
Lemma energy_values_witness :
  ∃ e, evaluateEnergy true fourbar_arm = Ok e ∧
       E_kin e = 0%R ∧ E_pot e = 19.62%R ∧ E_total e = 19.62%R.
Proof.
  destruct (energy_values true fourbar_arm (linkage_dof_table_ok 1 _ _)
              (le_n 4) (le_n 4) (fourbar_bodies_ok _ _))
    as (e & He & Hkin & Hpot & Htot).
  assert (Hk : E_kin e = 0%R).
  { apply Hkin, zero_dotq_at_rest. by repeat constructor. }
  assert (Hp : E_pot e = 19.62%R).
  { rewrite Hpot.
    change (potential_energy true fourbar_arm)
      with (Rsum [potential_of_body true fourbar_arm 0 (bar 0 1 1);
                  potential_of_body true fourbar_arm 1 (bar 1 2 2);
                  potential_of_body true fourbar_arm 2 (bar 2 3 (sqrt 13))]).
    unfold potential_of_body, global_cog.
    rewrite (getPointOnBodyCurrentCoords_value true fourbar_arm _ _
               (bar 0 1 1) 0 1 (mkTPoint2D 0 0) (mkTPoint2D 1 0));
      [|by split_and!|done|done].
    rewrite (getPointOnBodyCurrentCoords_value true fourbar_arm _ _
               (bar 1 2 2) 1 2 (mkTPoint2D 1 0) (mkTPoint2D 1 2));
      [|by split_and!|done|done].
    rewrite (getPointOnBodyCurrentCoords_value true fourbar_arm _ _
               (bar 2 3 (sqrt 13)) 2 3 (mkTPoint2D 1 2) (mkTPoint2D 4 0));
      [|by split_and!|done|done].
    assert (H13 : (sqrt 13 > 0)%R) by (apply sqrt_lt_R0; lra).
    rewrite !Rgtb_true by (cbn; lra). cbn.
    replace (sqrt 13 / 2 * ((0 - 2) / sqrt 13))%R with (-1)%R
      by (field; lra).
    replace (sqrt 13 / 2 * ((4 - 1) / sqrt 13))%R with (3 / 2)%R
      by (field; lra).
    lra. }
  exists e. split_and!; [done|done|done|]. rewrite Htot, Hk, Hp. lra.
Defined.

(** ** The constructor of the assembled model *)

Lemma fails_bind {A B} (r : result A) (k : A → result B) :
  fails r → fails (r ≫= k).
Proof. by destruct r. Qed.

Lemma fails_bind_k {A B} (r : result A) (k : A → result B) :
  (∀ a, r = Ok a → fails (k a)) → fails (r ≫= k).
Proof. destruct r as [a| |]; [|done..]. intros H. by apply H. Qed.

Lemma at_Ok {A} (v : list A) (i : N) (a : A) :
  at_ v i = Ok a → v !! N.to_nat i = Some a.
Proof. unfold at_. by destruct (v !! N.to_nat i); intros [= ->]. Qed.

(** *** The loop over the Euclidean degrees of freedom *)

Lemma init_natural_coords_sizes (parent : ModelDefinition)
    (dofs : list NaturalCoordDOF) :
  ∀ i q p2d q' p2d',
    init_natural_coords parent i dofs q p2d = Ok (q', p2d') →
    size q' = size q ∧ length p2d' = length p2d.
Proof.
  induction dofs as [|d rest IH]; intros i q p2d q' p2d' H.
  - by injection H as <- <-.
  - cbn [init_natural_coords] in H.
    apply bind_inv in H as (pt & _ & H).
    apply bind_inv in H as ([q1 p1] & Hstep & H).
    apply IH in H as [-> ->].
    destruct (point_dof d); [| |done];
      apply bind_inv in Hstep as (q2 & [_ ->]%set_index_Ok & Hstep);
      apply bind_inv in Hstep as (e & _ & [= <- <-]);
      by rewrite size_insert, length_insert.
Qed.

Lemma init_natural_coords_table (parent : ModelDefinition)
    (all : list NaturalCoordDOF) (dofs : list NaturalCoordDOF) :
  ∀ i q p2d q' p2d',
    init_natural_coords parent i dofs q p2d = Ok (q', p2d') →
    (∀ k d, dofs !! k = Some d → all !! (N.to_nat i + k)%nat = Some d) →
    table_agrees all p2d → table_agrees all p2d'.
Proof.
  induction dofs as [|d rest IH]; intros i q p2d q' p2d' H Hall Htab.
  - by injection H as <- <-.
  - cbn [init_natural_coords] in H.
    apply bind_inv in H as (pt & _ & H).
    apply bind_inv in H as ([q1 p1] & Hstep & H).
    apply (IH _ _ _ _ _ H).
    { intros k d' Hk. specialize (Hall (S k) d' Hk).
      by replace (N.to_nat (i + 1) + k)%nat with (N.to_nat i + S k)%nat
        by lia. }
    pose proof (Hall 0%nat d eq_refl) as Hd. rewrite Nat.add_0_r in Hd.
    destruct d as [pt_idx axis]. cbn [point_index point_dof] in *.
    destruct axis; [| |done];
      apply bind_inv in Hstep as (q2 & _ & Hstep);
      apply bind_inv in Hstep as (e & He & [= <- <-]);
      apply at_Ok in He as Hlook;
      intros p d' Hp;
      (destruct (decide (p = pt_idx)) as [->|Hne];
       [ rewrite list_lookup_insert_eq in Hp by (by eapply lookup_lt_Some);
         injection Hp as <-; cbn [dof_x dof_y];
         destruct (Htab pt_idx e Hlook) as [Hx Hy]; by split
       | rewrite list_lookup_insert_ne in Hp by lia; by apply Htab ]).
Qed.

Lemma init_natural_coords_returns (parent : ModelDefinition)
    (dofs : list NaturalCoordDOF) :
  ∀ i q p2d,
    Forall (natural_coord_ok parent) dofs →
    (N.to_nat i + length dofs <= length q)%nat →
    length p2d = length (points_ parent) →
    ∃ q' p2d', init_natural_coords parent i dofs q p2d = Ok (q', p2d').
Proof.
  induction dofs as [|d rest IH]; intros i q p2d Hok Hq Hp.
  - by eexists _, _.
  - apply Forall_cons in Hok as [[Hidx Haxis] Hok].
    cbn [init_natural_coords length] in *.
    destruct (lookup_size_lt _ _ Hidx) as [pt Hpt].
    unfold getPointInfo. rewrite (index_Some _ _ _ Hpt), bind_Ok.
    destruct (lookup_lt_is_Some_2 p2d (N.to_nat (point_index d))) as [e He].
    { rewrite Hp. by eapply lookup_lt_Some. }
    assert (Hat : at_ p2d (point_index d) = Ok e) by (unfold at_; by rewrite He).
    destruct (point_dof d); [| |done];
      rewrite set_index_lt, bind_Ok, Hat, !bind_Ok by (unfold size; lia);
      (apply IH; [done | rewrite length_insert; lia
                 | by rewrite length_insert]).
Qed.

(** *** The loop over the relative degrees of freedom *)

Lemma add_relative_constraints_unknown (nE : N) (rdofs : list RelativeDOF) :
  OtherRelativeDOF ∈ rdofs →
  ∀ i cs r2i, fails (add_relative_constraints nE i rdofs cs r2i).
Proof.
  induction rdofs as [|r rest IH]; intros Hin i cs r2i.
  - by apply elem_of_nil in Hin.
  - cbn [add_relative_constraints].
    apply elem_of_cons in Hin as [<- | Hin]; [done|].
    apply fails_bind_k. intros [cs' r2i'] _. by apply IH.
Qed.

Lemma add_relative_constraints_unknown_what (nE : N)
    (rdofs : list RelativeDOF) :
  OtherRelativeDOF ∈ rdofs →
  ∀ i cs r2i,
    (N.to_nat i + length rdofs <= length r2i)%nat →
    add_relative_constraints nE i rdofs cs r2i
    = Throw "Unknown type of relative coordinate".
Proof.
  induction rdofs as [|r rest IH]; intros Hin i cs r2i Hlen.
  - by apply elem_of_nil in Hin.
  - cbn [add_relative_constraints length] in *.
    destruct r; [| |done];
      apply elem_of_cons in Hin as [|Hin]; try done;
      rewrite set_index_lt, !bind_Ok by (unfold size; lia);
      (apply IH; [done | rewrite length_insert; lia]).
Qed.

Lemma add_relative_constraints_returns (nE : N) (rdofs : list RelativeDOF) :
  OtherRelativeDOF ∉ rdofs →
  ∀ i cs r2i,
    (N.to_nat i + length rdofs <= length r2i)%nat →
    ∃ cs' r2i', add_relative_constraints nE i rdofs cs r2i = Ok (cs', r2i').
Proof.
  induction rdofs as [|r rest IH]; intros Hin i cs r2i Hlen.
  - by eexists _, _.
  - apply not_elem_of_cons in Hin as [Hr Hin].
    cbn [add_relative_constraints length] in *.
    destruct r; [| |done];
      rewrite set_index_lt, !bind_Ok by (unfold size; lia);
      (apply IH; [done | rewrite length_insert; lia]).
Qed.

(** *** The structure builders leave state and tables alone *)

Lemma build_all_frame (cs : list Constraint) :
  ∀ a, ∃ a',
    build_all cs a = Ok a' ∧
    parent_ a' = parent_ a ∧ q_ a' = q_ a ∧ dotq_ a' = dotq_ a ∧
    ddotq_ a' = ddotq_ a ∧ Q_ a' = Q_ a ∧ DOFs_ a' = DOFs_ a ∧
    rDOFs_ a' = rDOFs_ a ∧ points2DOFs_ a' = points2DOFs_ a.
Proof.
  induction cs as [|c rest IH]; intros a.
  - by exists a.
  - cbn [build_all]. unfold buildSparseStructures. rewrite bind_Ok.
    destruct (IH (snd (addNewRowToConstraints a)))
      as (a' & -> & ? & ? & ? & ? & ? & ? & ? & ?).
    by exists a'.
Qed.

(** What the constructor returns, when it returns. *)
Lemma new_inv (armi : TSymbolicAssembledModel) (a : CAssembledRigidModel) :
  CAssembledRigidModel_new armi = Ok a →
  let nDOFs := (size (DOFs armi) + size (rDOFs armi))%N in
  parent_ a = model armi ∧ DOFs_ a = DOFs armi ∧ rDOFs_ a = rDOFs armi ∧
  size (q_ a) = nDOFs ∧ dotq_ a = setZero nDOFs ∧
  ddotq_ a = setZero nDOFs ∧ Q_ a = setZero nDOFs ∧
  dof_table_ok a.
Proof.
  unfold CAssembledRigidModel_new.
  destruct (negb (0 <? size (DOFs armi))%N); [done|].
  intros H. apply bind_inv in H as ([q p2d] & Hinit & H).
  apply bind_inv in H as ([cs r2i] & _ & H).
  match type of H with build_all _ ?a0 = _ =>
    destruct (build_all_frame cs a0)
      as (a' & Hb & Hparent & Hq & Hdq & Hddq & HQ & HD & HR & Htab)
  end.
  rewrite Hb in H. injection H as <-.
  cbn [parent_ q_ dotq_ ddotq_ Q_ DOFs_ rDOFs_ points2DOFs_] in *.
  pose proof (init_natural_coords_sizes _ _ _ _ _ _ _ Hinit) as [Hsq Hsp].
  rewrite size_setZero in Hsq. rewrite length_replicate in Hsp.
  split_and!; try done; try congruence.
  split.
  - rewrite Htab, Hparent, Hsp. unfold getPointCount, size. lia.
  - rewrite Htab, HD.
    apply (init_natural_coords_table _ (DOFs armi) _ _ _ _ _ _ Hinit).
    + by intros k d Hk.
    + intros p d [-> _]%lookup_replicate. by split.
Qed.

(** C4.  The constructor throws when the list of Euclidean degrees of
    freedom is empty, so that no model of size zero comes to exist; it
    fails when a relative degree of freedom is of a variant other than
    relative-angle and relative-angle-absolute, by the exception for an
    unknown relative coordinate when the Euclidean degrees of freedom are
    in order; whenever it returns, [q], [dq], [ddq] and [Q] have length
    |Euclidean DOFs| + |relative DOFs|; and it does return when every
    Euclidean degree of freedom is an x or a y coordinate of a point of
    the definition and every relative one is of a known variant. *)
Theorem assembly_allocation (armi : TSymbolicAssembledModel) :
  let nDOFs := (size (DOFs armi) + size (rDOFs armi))%N in
  (DOFs armi = [] →
     CAssembledRigidModel_new armi
     = Throw "Trying to assemble model with 0 Natural Coordinate DOFs") ∧
  (OtherRelativeDOF ∈ rDOFs armi → fails (CAssembledRigidModel_new armi)) ∧
  (DOFs armi ≠ [] →
   Forall (natural_coord_ok (model armi)) (DOFs armi) →
   OtherRelativeDOF ∈ rDOFs armi →
   CAssembledRigidModel_new armi
   = Throw "Unknown type of relative coordinate") ∧
  (∀ a, CAssembledRigidModel_new armi = Ok a →
     size (q_ a) = nDOFs ∧ size (dotq_ a) = nDOFs ∧
     size (ddotq_ a) = nDOFs ∧ size (Q_ a) = nDOFs) ∧
  (DOFs armi ≠ [] →
   Forall (natural_coord_ok (model armi)) (DOFs armi) →
   OtherRelativeDOF ∉ rDOFs armi →
   ∃ a, CAssembledRigidModel_new armi = Ok a).
Proof.
  cbv zeta. split_and!.
  - intros Hnil. unfold CAssembledRigidModel_new. by rewrite Hnil.
  - intros Hin. unfold CAssembledRigidModel_new.
    destruct (negb (0 <? size (DOFs armi))%N); [done|].
    apply fails_bind_k. intros [q p2d] _.
    apply fails_bind. by apply add_relative_constraints_unknown.
  - intros Hne Hok Hin. unfold CAssembledRigidModel_new.
    assert (Hpos : (0 <? size (DOFs armi))%N = true).
    { apply N.ltb_lt. unfold size. destruct (DOFs armi); [done|cbn; lia]. }
    rewrite Hpos. cbn [negb].
    destruct (init_natural_coords_returns (model armi) (DOFs armi) 0
                (setZero (size (DOFs armi) + size (rDOFs armi)))
                (replicate (N.to_nat (getPointCount (model armi)))
                   Point2ToDOF_default) Hok)
      as (q & p2d & ->).
    { pose proof (size_setZero (size (DOFs armi) + size (rDOFs armi))) as Hs.
      unfold size in *. lia. }
    { rewrite length_replicate. unfold getPointCount, size. lia. }
    rewrite bind_Ok, add_relative_constraints_unknown_what; [done|done|].
    rewrite length_replicate. lia.
  - intros a Ha.
    destruct (new_inv armi a Ha) as (_ & _ & _ & Hq & -> & -> & -> & _).
    by rewrite !size_setZero.
  - intros Hne Hok Hknown. unfold CAssembledRigidModel_new.
    assert (Hpos : (0 <? size (DOFs armi))%N = true).
    { apply N.ltb_lt. unfold size. destruct (DOFs armi); [done|cbn; lia]. }
    rewrite Hpos. cbn [negb].
    destruct (init_natural_coords_returns (model armi) (DOFs armi) 0
                (setZero (size (DOFs armi) + size (rDOFs armi)))
                (replicate (N.to_nat (getPointCount (model armi)))
                   Point2ToDOF_default) Hok)
      as (q & p2d & ->).
    { pose proof (size_setZero (size (DOFs armi) + size (rDOFs armi))) as Hs.
      unfold size in *. lia. }
    { rewrite length_replicate. unfold getPointCount, size. lia. }
    rewrite bind_Ok.
    destruct (add_relative_constraints_returns (size (DOFs armi))
                (rDOFs armi) Hknown 0
                (clone <$> getConstraints (model armi))
                (replicate (length (rDOFs armi)) 0%N))
      as (cs & r2i & ->).
    { rewrite length_replicate. lia. }
    rewrite bind_Ok.
    match goal with |- ∃ a, build_all _ ?a0 = _ =>
      destruct (build_all_frame cs a0) as (a' & -> & _)
    end.
    by exists a'.
Qed.

Lemma fourbar_natural_coords_ok :
  Forall (natural_coord_ok (model fourbar_symbolic)) (DOFs fourbar_symbolic).
Proof. repeat constructor; done. Qed.

(** The four-bar linkage: assembled as it is; refused without its degrees
    of freedom; refused with a relative coordinate of an unknown variant. *)
Lemma assembly_allocation_witness :
  (∃ a, CAssembledRigidModel_new fourbar_symbolic = Ok a ∧
        size (q_ a) = 4%N ∧ size (dotq_ a) = 4%N ∧
        size (ddotq_ a) = 4%N ∧ size (Q_ a) = 4%N) ∧
  throws (CAssembledRigidModel_new (mkSymbolic (linkage_closed 1) [] [])) ∧
  fails (CAssembledRigidModel_new
           (mkSymbolic (linkage_closed 1) fourbar_DOFs
              [RelativeAngleAbsoluteDOF 0 1; OtherRelativeDOF])).
Proof.
  split_and!.
  - destruct (assembly_allocation fourbar_symbolic)
      as (_ & _ & _ & Hsz & Hret).
    destruct Hret as [a Ha];
      [discriminate | exact fourbar_natural_coords_ok
       | cbn; apply not_elem_of_nil |].
    exists a. split; [done|]. exact (Hsz a Ha).
  - destruct (assembly_allocation (mkSymbolic (linkage_closed 1) [] []))
      as (Hthrow & _).
    by rewrite Hthrow.
  - destruct (assembly_allocation
                (mkSymbolic (linkage_closed 1) fourbar_DOFs
                   [RelativeAngleAbsoluteDOF 0 1; OtherRelativeDOF]))
      as (_ & _ & Hwhat & _).
    rewrite Hwhat; [done | discriminate | exact fourbar_natural_coords_ok |].
    cbn. apply list_elem_of_further, list_elem_of_here.
Defined.

(** ** Closure constraints of the symbolic assembly *)

Lemma with_constraints_nil (m : ModelDefinition) : with_constraints [] m = m.
Proof. destruct m. unfold with_constraints. cbn. by rewrite app_nil_r. Qed.

Lemma with_constraints_app (cs cs' : list Constraint) (m : ModelDefinition) :
  with_constraints cs' (with_constraints cs m) = with_constraints (cs ++ cs') m.
Proof. unfold with_constraints. cbn. by rewrite app_assoc. Qed.

Lemma addConstraint_with (c : Constraint) (m : ModelDefinition) :
  addConstraint c m = with_constraints [c] m.
Proof. done. Qed.

Lemma index_nth_N (v : list N) (i : N) :
  (i < size v)%N → index v i = Ok (nth (N.to_nat i) v 0%N).
Proof.
  intros H. destruct (lookup_size_lt v i H) as [a Ha].
  rewrite (index_Some _ _ _ Ha). f_equal.
  symmetry. by apply nth_lookup_Some with (d := 0%N) in Ha.
Qed.

Lemma at_nth_Point2 (v : list Point2) (i : N) (d : Point2) :
  (i < size v)%N → at_ v i = Ok (nth (N.to_nat i) v d).
Proof.
  intros H. destruct (lookup_size_lt v i H) as [a Ha].
  unfold at_. rewrite Ha. f_equal.
  symmetry. by apply nth_lookup_Some with (d := d) in Ha.
Qed.

Lemma points_in_range (m : ModelDefinition) (b : Body) (i : N) :
  Forall (λ p, (p < size (points_ m))%N) (points b) →
  (i < size (points b))%N →
  (nth (N.to_nat i) (points b) 0 < size (points_ m))%N.
Proof.
  intros Hall Hi. destruct (lookup_size_lt _ _ Hi) as [p Hp].
  rewrite (nth_lookup_Some _ _ 0%N _ Hp).
  by apply (Forall_lookup_1 _ _ _ _ Hall Hp).
Qed.

Lemma distance_constraint_value (m : ModelDefinition) (b : Body) (i j : N) :
  Forall (λ p, (p < size (points_ m))%N) (points b) →
  (i < size (points b))%N → (j < size (points b))%N →
  distance_constraint m b (i, j)
  = Ok (ConstraintConstantDistance
          (nth (N.to_nat i) (points b) 0%N) (nth (N.to_nat j) (points b) 0%N)
          (initial_distance m (nth (N.to_nat i) (points b) 0%N)
                              (nth (N.to_nat j) (points b) 0%N))).
Proof.
  intros Hall Hi Hj. unfold distance_constraint.
  rewrite (index_nth_N _ _ Hi), bind_Ok, (index_nth_N _ _ Hj), bind_Ok.
  pose proof (points_in_range m b i Hall Hi) as Hpi.
  pose proof (points_in_range m b j Hall Hj) as Hpj.
  apply N.ltb_lt in Hpi as Hbi. apply N.ltb_lt in Hpj as Hbj.
  rewrite Hbi, Hbj. cbn [negb].
  rewrite (at_nth_Point2 _ _ (mkPoint2 (mkTPoint2D 0 0) false) Hpi), bind_Ok.
  by rewrite (at_nth_Point2 _ _ (mkPoint2 (mkTPoint2D 0 0) false) Hpj), bind_Ok.
Qed.

Lemma add_pair_constraints_value (b : Body) (pairs : list (N * N)) :
  Forall (λ ij, (ij.1 < size (points b))%N ∧ (ij.2 < size (points b))%N)
         pairs →
  ∀ m,
    Forall (λ p, (p < size (points_ m))%N) (points b) →
    add_pair_constraints b pairs m
    = (Ok (),
       with_constraints
         ((λ '(i, j),
             let p := nth (N.to_nat i) (points b) 0%N in
             let q := nth (N.to_nat j) (points b) 0%N in
             ConstraintConstantDistance p q (initial_distance m p q))
          <$> pairs) m).
Proof.
  induction 1 as [|[i j] rest [Hi Hj] _ IH]; intros m Hall.
  - cbn. by rewrite with_constraints_nil.
  - cbn [add_pair_constraints].
    rewrite (distance_constraint_value m b i j Hall Hi Hj).
    rewrite addConstraint_with, IH by done.
    by rewrite with_constraints_app.
Qed.

Lemma default_pairs_in_range (n : N) :
  (2 <= n)%N →
  Forall (λ ij : N * N, (ij.1 < n)%N ∧ (ij.2 < n)%N) (default_pairs n).
Proof.
  intros Hn. unfold default_pairs. constructor; [cbn; lia|].
  apply Forall_flat_map, Forall_fmap, Forall_forall.
  intros j [Hlo Hhi]%elem_of_seq. cbn. repeat constructor; cbn; lia.
Qed.

(** The [switch] lays down the pairs of [closure_pairs]. *)
Lemma add_body_constraints_value (b : Body) (m : ModelDefinition) :
  body_ok m b →
  add_body_constraints b m = (Ok (), with_constraints (closure_constraints m b) m).
Proof.
  intros [Hn Hall]. unfold add_body_constraints, closure_constraints.
  pose proof (default_pairs_in_range _ Hn) as Hdef.
  assert (H0 : (0 < size (points b))%N) by lia.
  assert (H1 : (1 < size (points b))%N) by lia.
  pose proof (points_in_range m b 0 Hall H0) as Hp0.
  pose proof (points_in_range m b 1 Hall H1) as Hp1.
  rewrite (index_nth_N _ _ H0), (index_nth_N _ _ H1).
  apply N.ltb_lt in Hp0, Hp1. rewrite Hp0, Hp1. cbn [negb].
  unfold closure_pairs.
  assert (Hpairs : ∀ pairs,
    Forall (λ ij : N * N,
              (ij.1 < size (points b))%N ∧ (ij.2 < size (points b))%N) pairs →
    add_pair_constraints b pairs m
    = (Ok (),
       with_constraints
         ((λ '(i, j),
             let p := nth (N.to_nat i) (points b) 0%N in
             let q := nth (N.to_nat j) (points b) 0%N in
             ConstraintConstantDistance p q (initial_distance m p q))
          <$> pairs) m)).
  { intros pairs Hin. by apply add_pair_constraints_value. }
  destruct (size (points b)) as [|[[p|p|]|[p|p|]|]] eqn:Hsz; try lia.
  - by apply Hpairs.
  - by apply Hpairs.
  - apply Hpairs. repeat constructor.
  - by apply Hpairs.
  - by apply Hpairs.
  - done.
Qed.

Lemma body_ok_with_constraints (cs : list Constraint) (m : ModelDefinition)
    (b : Body) :
  body_ok m b → body_ok (with_constraints cs m) b.
Proof. done. Qed.

Lemma add_bodies_constraints_value (bodies : list Body) :
  ∀ m,
    Forall (body_ok m) bodies →
    add_bodies_constraints bodies m
    = (Ok (), with_constraints (flat_map (closure_constraints m) bodies) m).
Proof.
  induction bodies as [|b rest IH]; intros m Hall.
  - cbn. by rewrite with_constraints_nil.
  - apply Forall_cons in Hall as [Hb Hrest].
    cbn [add_bodies_constraints flat_map].
    rewrite (add_body_constraints_value b m Hb).
    rewrite IH by done. by rewrite with_constraints_app.
Qed.

Lemma add_body_constraints_few_points (b : Body) (m : ModelDefinition) :
  (size (points b) < 2)%N →
  add_body_constraints b m
  = (Throw "Body has an invalid number of points (=%u), valid are >=2", m).
Proof.
  intros Hn. unfold add_body_constraints.
  by destruct (size (points b)) as [|[[p|p|]|[p|p|]|]]; try lia.
Qed.

Lemma add_bodies_constraints_fails (bodies : list Body) (b : Body) :
  b ∈ bodies → (size (points b) < 2)%N →
  ∀ m, fails (add_bodies_constraints bodies m).1.
Proof.
  intros Hin Hn. induction bodies as [|b0 rest IH]; intros m.
  - by apply elem_of_nil in Hin.
  - cbn [add_bodies_constraints].
    apply elem_of_cons in Hin as [<- | Hin].
    + by rewrite add_body_constraints_few_points.
    + destruct (add_body_constraints b0 m) as [[[]| |] m']; [|done..].
      by apply IH.
Qed.

Lemma add_bodies_constraints_app (good rest : list Body) :
  ∀ m,
    Forall (body_ok m) good →
    add_bodies_constraints (good ++ rest) m
    = add_bodies_constraints rest
        (with_constraints (flat_map (closure_constraints m) good) m).
Proof.
  induction good as [|b good IH]; intros m Hall.
  - cbn. by rewrite with_constraints_nil.
  - apply Forall_cons in Hall as [Hb Hgood].
    cbn [app add_bodies_constraints flat_map].
    rewrite (add_body_constraints_value b m Hb).
    rewrite IH by done. by rewrite with_constraints_app.
Qed.

(** C9 (amended).  On the first symbolic assembly of a definition whose
    bodies have two points or more, all of them points of the definition,
    the constraints added are, body after body, the constant-distance
    constraints over the pairs (0,1) for two points, (0,1), (0,2), (1,2)
    for three, and (0,1) followed by (0,j), (1,j) for j = 2 .. n-1 for
    n >= 4 points.  A body of three points or more has each constraint at
    the initial distance of its pair, as the specification says of every
    body; the one constraint of a two-point body is at the length stored
    in the body.  With a body of fewer than two points the assembly
    aborts. *)
Theorem symbolic_assembly_closure (m : ModelDefinition)
    (Hfirst : already_added_fixed_len_constraints_ m = false) :
  (Forall (body_ok m) (bodies_ m) →
     let m' :=
       mark_constraints_added
         (with_constraints (flat_map (closure_constraints m) (bodies_ m)) m)
     in
     assembleRigidMBS m
     = (Ok (mkSymbolic m' (collect_DOFs 0 (points_ m)) []), m')) ∧
  (∀ b, size (points b) ≠ 2%N →
     closure_constraints m b = closure_constraints_by_distance m b) ∧
  (∀ b p0 p1, points b = [p0; p1] →
     closure_constraints m b
     = [ConstraintConstantDistance p0 p1 (length_ b)]) ∧
  (∀ b, b ∈ bodies_ m → (size (points b) < 2)%N →
     fails (assembleRigidMBS m).1) ∧
  (∀ good b rest,
     bodies_ m = good ++ b :: rest → Forall (body_ok m) good →
     (size (points b) < 2)%N →
     throws (assembleRigidMBS m).1).
Proof.
  split_and!.
  - intros Hall. unfold assembleRigidMBS. rewrite Hfirst. cbn [negb].
    by rewrite (add_bodies_constraints_value _ m Hall).
  - intros b Hn. unfold closure_constraints, closure_constraints_by_distance.
    by destruct (N.eqb_spec (size (points b)) 2).
  - intros b p0 p1 Hpts. unfold closure_constraints. by rewrite Hpts.
  - intros b Hin Hn. unfold assembleRigidMBS. rewrite Hfirst. cbn [negb].
    pose proof (add_bodies_constraints_fails _ b Hin Hn m) as Hf.
    by destruct (add_bodies_constraints (bodies_ m) m) as [[[]| |] m'].
  - intros good b rest Hbodies Hgood Hn.
    unfold assembleRigidMBS. rewrite Hfirst, Hbodies. cbn [negb].
    rewrite (add_bodies_constraints_app good (b :: rest) m Hgood).
    cbn [add_bodies_constraints].
    by rewrite (add_body_constraints_few_points b _ Hn).
Qed.

Lemma body_ok_intro (m : ModelDefinition) (b : Body) :
  (2 <=? size (points b))%N = true →
  forallb (λ p, p <? size (points_ m))%N (points b) = true →
  body_ok m b.
Proof.
  intros H2 Hall. split; [by apply N.leb_le|].
  apply Forall_forall. intros p Hp. apply N.ltb_lt.
  rewrite forallb_forall in Hall. by apply Hall, list_elem_of_In.
Qed.

Ltac bodies_ok :=
  repeat (apply List.Forall_cons; [by apply body_ok_intro|]);
  apply List.Forall_nil.

Lemma pentagon_body_ok : Forall (body_ok pentagon) (bodies_ pentagon).
Proof. bodies_ok. Qed.

(** A body of five points gets the seven pairs (0,1), (0,2), (1,2), (0,3),
    (1,3), (0,4), (1,4); the bars of the four-bar linkage get one
    constraint each, at their stored lengths; a body of one point is
    refused. *)
Lemma symbolic_assembly_closure_witness :
  getConstraints (assembleRigidMBS pentagon).2
  = (λ '(p, q), ConstraintConstantDistance p q (initial_distance pentagon p q))
    <$> [(0, 1); (0, 2); (1, 2); (0, 3); (1, 3); (0, 4); (1, 4)]%N ∧
  getConstraints (assembleRigidMBS fourbar).2 = linkage_constraints 1 ∧
  throws (assembleRigidMBS
            (mkModelDefinition fourbar_points
               [bar 0 1 1;
                mkBody [2%N] 1 1 (mkTPoint2D 0 0) (mkMatrix2d 0 0 0 0)
                  (mkMatrix2d 0 0 0 0) (mkMatrix2d 0 0 0 0)]
               [] false)).1.
Proof.
  split_and!.
  - destruct (symbolic_assembly_closure pentagon eq_refl) as (Hok & _).
    rewrite (Hok pentagon_body_ok). reflexivity.
  - destruct (symbolic_assembly_closure fourbar eq_refl) as (Hok & _).
    rewrite Hok; [reflexivity|].
    bodies_ok.
  - destruct (symbolic_assembly_closure
                (mkModelDefinition fourbar_points
                   [bar 0 1 1;
                    mkBody [2%N] 1 1 (mkTPoint2D 0 0) (mkMatrix2d 0 0 0 0)
                      (mkMatrix2d 0 0 0 0) (mkMatrix2d 0 0 0 0)]
                   [] false) eq_refl) as (_ & _ & _ & _ & Hthrow).
    apply (Hthrow [bar 0 1 1] _ [] eq_refl);
      [|apply N.ltb_lt; reflexivity].
    bodies_ok.
Defined.

Lemma initial_distance_0_1 (L01 : R) : initial_distance (linkage L01) 0 1 = 1%R.
Proof.
  change (sqrt ((0 - 1) * (0 - 1) + (0 - 0) * (0 - 0)) = 1)%R.
  replace ((0 - 1) * (0 - 1) + (0 - 0) * (0 - 0))%R with (1 * 1)%R by lra.
  apply sqrt_square. lra.
Qed.

(** C9 as stated fails.  The first bar of this linkage joins the points 0
    and 1, which are 1 apart, and is stored with length 5: its constraint
    comes out at length 5, not at the initial distance of the two
    points. *)
Lemma symbolic_assembly_closure_counterexample :
  already_added_fixed_len_constraints_ (linkage 5) = false ∧
  Forall (body_ok (linkage 5)) (bodies_ (linkage 5)) ∧
  getConstraints (assembleRigidMBS (linkage 5)).2
  = [ConstraintConstantDistance 0 1 5; ConstraintConstantDistance 1 2 2;
     ConstraintConstantDistance 2 3 (sqrt 13)] ∧
  initial_distance (linkage 5) 0 1 = 1%R ∧
  getConstraints (assembleRigidMBS (linkage 5)).2
  ≠ flat_map (closure_constraints_by_distance (linkage 5))
      (bodies_ (linkage 5)).
Proof.
  split_and!; [done | bodies_ok | done | apply initial_distance_0_1 |].
  intros H.
  apply (f_equal (λ cs, match cs with
                        | ConstraintConstantDistance _ _ L :: _ => L
                        | _ => 0%R
                        end)) in H.
  change (5 = initial_distance (linkage 5) 0 1)%R in H.
  rewrite initial_distance_0_1 in H. lra.
Qed.

(** ** The rate and its partial derivatives *)

Section Analysis.
Local Open Scope R_scope.

Lemma inv_norm_sq (d : TPoint2D) :
  1 / norm d * (1 / norm d) = / (x d * x d + y d * y d).
Proof.
  unfold norm. set (D := x d * x d + y d * y d).
  assert (HD : 0 <= D) by (unfold D; nra).
  unfold Rdiv. rewrite !Rmult_1_l, <- Rinv_mult. f_equal.
  by apply sqrt_sqrt.
Qed.

Lemma gyro_rate_closed (p0 p1 v0 v1 : TPoint2D) :
  gyro_rate p0 p1 v0 v1
  = rate_closed (x p0) (y p0) (x p1) (y p1) (x v0) (y v0) (x v1) (y v1).
Proof.
  unfold gyro_rate, rate_closed.
  pose proof (inv_norm_sq (TPoint2D_minus p1 p0)) as Hli.
  set (li := 1 / norm (TPoint2D_minus p1 p0)) in *.
  cbn in *. unfold Rdiv at 1. rewrite <- Hli. ring.
Qed.

Lemma derivable_pt_lim_quad (c0 c1 c2 t0 : R) :
  derivable_pt_lim (λ t, c0 + c1 * t + c2 * (t * t)) t0 (c1 + 2 * c2 * t0).
Proof.
  apply (derivable_pt_lim_ext
           (fct_cte c0 + mult_real_fct c1 Ranalysis1.id
            + mult_real_fct c2 (Ranalysis1.id * Ranalysis1.id))%F);
    [done|].
  replace (c1 + 2 * c2 * t0)
    with (0 + c1 * 1 + c2 * (1 * Ranalysis1.id t0 + Ranalysis1.id t0 * 1))
    by (unfold Ranalysis1.id; ring).
  repeat first
    [ apply derivable_pt_lim_plus
    | apply derivable_pt_lim_scal
    | apply derivable_pt_lim_mult
    | apply derivable_pt_lim_const
    | apply derivable_pt_lim_id ].
Qed.

(** A quotient of two polynomials of degree two, where the denominator
    does not vanish. *)
Lemma derivable_pt_lim_ratio (n0 n1 n2 d0 d1 d2 t0 : R) :
  d0 + d1 * t0 + d2 * (t0 * t0) ≠ 0 →
  derivable_pt_lim
    (λ t, (n0 + n1 * t + n2 * (t * t)) / (d0 + d1 * t + d2 * (t * t)))
    t0
    (((n1 + 2 * n2 * t0) * (d0 + d1 * t0 + d2 * (t0 * t0))
      - (d1 + 2 * d2 * t0) * (n0 + n1 * t0 + n2 * (t0 * t0)))
     / (d0 + d1 * t0 + d2 * (t0 * t0))²).
Proof.
  intros Hd.
  apply (derivable_pt_lim_div
           (λ t, n0 + n1 * t + n2 * (t * t))
           (λ t, d0 + d1 * t + d2 * (t * t))); [| |done];
    apply derivable_pt_lim_quad.
Qed.

(** A function that is a quotient of two such polynomials, with the value
    of its derivative given in another form. *)
Lemma derivable_pt_lim_as_ratio (g : R → R) (l : R)
    (n0 n1 n2 d0 d1 d2 t0 : R) :
  d0 + d1 * t0 + d2 * (t0 * t0) ≠ 0 →
  (∀ t, (n0 + n1 * t + n2 * (t * t)) / (d0 + d1 * t + d2 * (t * t)) = g t) →
  ((n1 + 2 * n2 * t0) * (d0 + d1 * t0 + d2 * (t0 * t0))
   - (d1 + 2 * d2 * t0) * (n0 + n1 * t0 + n2 * (t0 * t0)))
  / (d0 + d1 * t0 + d2 * (t0 * t0))² = l →
  derivable_pt_lim g t0 l.
Proof.
  intros Hd Hg <-. eapply derivable_pt_lim_ext; [exact Hg|].
  by apply derivable_pt_lim_ratio.
Qed.

Variables (x0 y0 x1 y1 vx0 vy0 vx1 vy1 : R).
Let D : R := (x1 - x0) * (x1 - x0) + (y1 - y0) * (y1 - y0).
Variable len_inv : R.
Hypothesis Hlen_inv : len_inv * len_inv = / D.
Hypothesis HD : D ≠ 0.

Ltac ratio_of n0 n1 n2 d0 d1 d2 :=
  apply (derivable_pt_lim_as_ratio _ _ n0 n1 n2 d0 d1 d2);
  [ unfold D in HD; intros Hz; apply HD; rewrite <- Hz; ring
  | intros t; unfold rate_closed, Rdiv; f_equal; [ring | f_equal; ring]
  | unfold D in *; unfold Rsqr; field;
    repeat split; intros Hz; apply HD; rewrite <- Hz; ring ].

(** [d w / d x0], as the code writes it. *)
Lemma rate_d_x0 :
  derivable_pt_lim (λ t, rate_closed t y0 x1 y1 vx0 vy0 vx1 vy1) x0
    (len_inv * len_inv * (vy0 - vy1) -
     2 * len_inv * len_inv * len_inv * len_inv * (x0 - x1) *
       ((x0 - x1) * (vy0 - vy1) - (y0 - y1) * (vx0 - vx1))).
Proof using Hlen_inv HD.
  replace (2 * len_inv * len_inv * len_inv * len_inv)
    with (2 * (len_inv * len_inv) * (len_inv * len_inv)) by ring.
  rewrite Hlen_inv.
  ratio_of ((vy1 - vy0) * x1 - (vx1 - vx0) * (y1 - y0)) (- (vy1 - vy0)) 0
           (x1 * x1 + (y1 - y0) * (y1 - y0)) (- 2 * x1) 1.
Qed.

Ltac fold_len_inv :=
  replace (2 * len_inv * len_inv * len_inv * len_inv)
    with (2 * (len_inv * len_inv) * (len_inv * len_inv)) by ring;
  try replace (- len_inv * len_inv) with (- (len_inv * len_inv)) by ring;
  rewrite Hlen_inv.

(** [d w / d y0] *)
Lemma rate_d_y0 :
  derivable_pt_lim (λ t, rate_closed x0 t x1 y1 vx0 vy0 vx1 vy1) y0
    (- len_inv * len_inv * (vx0 - vx1) +
     2 * len_inv * len_inv * len_inv * len_inv * (y0 - y1) *
       ((y0 - y1) * (vx0 - vx1) - (x0 - x1) * (vy0 - vy1))).
Proof using Hlen_inv HD.
  fold_len_inv.
  ratio_of ((vy1 - vy0) * (x1 - x0) - (vx1 - vx0) * y1) (vx1 - vx0) 0
           ((x1 - x0) * (x1 - x0) + y1 * y1) (- 2 * y1) 1.
Qed.

(** [d w / d x1] *)
Lemma rate_d_x1 :
  derivable_pt_lim (λ t, rate_closed x0 y0 t y1 vx0 vy0 vx1 vy1) x1
    (- len_inv * len_inv * (vy0 - vy1) +
     2 * len_inv * len_inv * len_inv * len_inv * (x0 - x1) *
       ((x0 - x1) * (vy0 - vy1) - (y0 - y1) * (vx0 - vx1))).
Proof using Hlen_inv HD.
  fold_len_inv.
  ratio_of (- (vy1 - vy0) * x0 - (vx1 - vx0) * (y1 - y0)) (vy1 - vy0) 0
           (x0 * x0 + (y1 - y0) * (y1 - y0)) (- 2 * x0) 1.
Qed.

(** [d w / d y1] *)
Lemma rate_d_y1 :
  derivable_pt_lim (λ t, rate_closed x0 y0 x1 t vx0 vy0 vx1 vy1) y1
    (len_inv * len_inv * (vx0 - vx1) +
     2 * len_inv * len_inv * len_inv * len_inv * (y0 - y1) *
       (- (y0 - y1) * (vx0 - vx1) + (x0 - x1) * (vy0 - vy1))).
Proof using Hlen_inv HD.
  fold_len_inv.
  ratio_of ((vy1 - vy0) * (x1 - x0) + (vx1 - vx0) * y0) (- (vx1 - vx0)) 0
           ((x1 - x0) * (x1 - x0) + y0 * y0) (- 2 * y0) 1.
Qed.

(** [d w / d vx0] *)
Lemma rate_d_vx0 :
  derivable_pt_lim (λ t, rate_closed x0 y0 x1 y1 t vy0 vx1 vy1) vx0
    (len_inv * len_inv * (y1 - y0)).
Proof using Hlen_inv HD.
  rewrite Hlen_inv.
  ratio_of ((vy1 - vy0) * (x1 - x0) - vx1 * (y1 - y0)) (y1 - y0) 0
           ((x1 - x0) * (x1 - x0) + (y1 - y0) * (y1 - y0)) 0 0.
Qed.

(** [d w / d vy0] *)
Lemma rate_d_vy0 :
  derivable_pt_lim (λ t, rate_closed x0 y0 x1 y1 vx0 t vx1 vy1) vy0
    (len_inv * len_inv * (x0 - x1)).
Proof using Hlen_inv HD.
  rewrite Hlen_inv.
  ratio_of (vy1 * (x1 - x0) - (vx1 - vx0) * (y1 - y0)) (- (x1 - x0)) 0
           ((x1 - x0) * (x1 - x0) + (y1 - y0) * (y1 - y0)) 0 0.
Qed.

(** [d w / d vx1] *)
Lemma rate_d_vx1 :
  derivable_pt_lim (λ t, rate_closed x0 y0 x1 y1 vx0 vy0 t vy1) vx1
    (len_inv * len_inv * (y0 - y1)).
Proof using Hlen_inv HD.
  rewrite Hlen_inv.
  ratio_of ((vy1 - vy0) * (x1 - x0) + vx0 * (y1 - y0)) (- (y1 - y0)) 0
           ((x1 - x0) * (x1 - x0) + (y1 - y0) * (y1 - y0)) 0 0.
Qed.

(** [d w / d vy1] *)
Lemma rate_d_vy1 :
  derivable_pt_lim (λ t, rate_closed x0 y0 x1 y1 vx0 vy0 vx1 t) vy1
    (len_inv * len_inv * (x1 - x0)).
Proof using Hlen_inv HD.
  rewrite Hlen_inv.
  ratio_of (- vy0 * (x1 - x0) - (vx1 - vx0) * (y1 - y0)) (x1 - x0) 0
           ((x1 - x0) * (x1 - x0) + (y1 - y0) * (y1 - y0)) 0 0.
Qed.

End Analysis.

(** ** From the code to the rate function *)

Lemma residual_value (f : FactorGyroscope) (a : CAssembledRigidModel)
    (q dq : list R) (b : Body) (i0 i1 : N) (info0 info1 : Point2)
    (d0 d1 : Point2ToDOF) :
  reference_points a (m_body_idx f) b i0 i1 →
  points_ (parent_ a) !! N.to_nat i0 = Some info0 →
  points_ (parent_ a) !! N.to_nat i1 = Some info1 →
  points2DOFs_ a !! N.to_nat i0 = Some d0 →
  points2DOFs_ a !! N.to_nat i1 = Some d1 →
  column_in (dof_x d0) q → column_in (dof_y d0) q →
  column_in (dof_x d1) q → column_in (dof_y d1) q →
  size dq = size q → (1 <= size q)%N →
  residual f a q dq
  = (rate_closed
       (axis_value (x (coords info0)) q (dof_x d0))
       (axis_value (y (coords info0)) q (dof_y d0))
       (axis_value (x (coords info1)) q (dof_x d1))
       (axis_value (y (coords info1)) q (dof_y d1))
       (axis_value 0 dq (dof_x d0)) (axis_value 0 dq (dof_y d0))
       (axis_value 0 dq (dof_x d1)) (axis_value 0 dq (dof_y d1))
     - m_reading f)%R.
Proof.
  intros Href Hinfo0 Hinfo1 Hd0 Hd1 Hx0 Hy0 Hx1 Hy1 Hsize Hpos.
  unfold residual. rewrite evaluateError_guards by done. cbn [fst].
  assert (Hcol : ∀ c, column_in c q → column_in c dq).
  { intros c. by apply column_in_size. }
  rewrite (evaluateError_body_value f (set_state q dq a) (size q) false false
             b i0 i1 d0 d1 _ _ _ _ Href Hd0 Hd1
             (getPointCurrentCoords_value (set_state q dq a) i0 info0 d0
                Hinfo0 Hd0 Hx0 Hy0)
             (getPointCurrentCoords_value (set_state q dq a) i1 info1 d1
                Hinfo1 Hd1 Hx1 Hy1)
             (getPointCurrentVelocity_value (set_state q dq a) i0 d0
                Hd0 (Hcol _ Hx0) (Hcol _ Hy0))
             (getPointCurrentVelocity_value (set_state q dq a) i1 d1
                Hd1 (Hcol _ Hx1) (Hcol _ Hy1))).
  cbn. by rewrite gyro_rate_closed.
Qed.

Lemma hits_true (c : dof_index_t) (i : nat) :
  hits c i = true → c ≠ INVALID_DOF ∧ c = N.of_nat i.
Proof.
  unfold hits. intros [Hv Hc]%andb_true_iff.
  apply negb_true_iff, N.eqb_neq in Hv. by apply N.eqb_eq in Hc.
Qed.

Lemma hits_false (c : dof_index_t) (i : nat) :
  hits c i = false → c = INVALID_DOF ∨ c ≠ N.of_nat i.
Proof.
  unfold hits. intros [Hv | Hc]%andb_false_iff.
  - left. by apply negb_false_iff, N.eqb_eq in Hv.
  - right. by apply N.eqb_neq in Hc.
Qed.

Lemma axis_value_insert (static t : R) (v : list R) (c : dof_index_t)
    (i : nat) :
  (i < length v)%nat →
  axis_value static (<[i := t]> v) c
  = if hits c i then t else axis_value static v c.
Proof.
  intros Hi. destruct (hits c i) eqn:Hh.
  - apply hits_true in Hh as [Hv ->].
    rewrite <- (Nat2N.id i) at 1. apply axis_value_insert_eq; [done|].
    unfold size. lia.
  - apply hits_false in Hh as [-> | Hne]; [done|].
    rewrite <- (Nat2N.id i). by apply axis_value_insert_ne.
Qed.

Lemma axis_value_hit (static : R) (v : list R) (c : dof_index_t) (i : nat) :
  hits c i = true → axis_value static v c = nth i v 0%R.
Proof.
  intros [Hv ->]%hits_true. rewrite axis_value_free by done.
  by rewrite Nat2N.id.
Qed.

Lemma nth_with_column (c : dof_index_t) (v : R) (row : list R) (i : nat) :
  (i < length row)%nat →
  nth i (with_column c v row) 0%R = if hits c i then v else nth i row 0%R.
Proof.
  intros Hi. unfold with_column, hits.
  destruct (N.eqb_spec c INVALID_DOF) as [|Hv]; [done|]. cbn [negb andb].
  destruct (N.eqb_spec c (N.of_nat i)) as [-> | Hne].
  - rewrite Nat2N.id. apply nth_lookup_Some with (d := 0%R).
    by apply list_lookup_insert_eq.
  - destruct (lookup_lt_is_Some_2 row i Hi) as [r Hr].
    rewrite (nth_lookup_Some _ _ 0%R _ Hr).
    apply nth_lookup_Some with (d := 0%R).
    rewrite list_lookup_insert_ne by lia. done.
Qed.

Lemma length_with_column (c : dof_index_t) (v : R) (row : list R) :
  length (with_column c v row) = length row.
Proof.
  unfold with_column. destruct (c =? INVALID_DOF)%N; [done|].
  apply length_insert.
Qed.

Lemma nth_setZero (n : N) (i : nat) : nth i (setZero n) 0%R = 0%R.
Proof.
  unfold setZero. destruct (decide (i < N.to_nat n)%nat) as [Hlt|Hge].
  - apply nth_lookup_Some with (d := 0%R). by apply lookup_replicate_2.
  - apply nth_overflow. rewrite length_replicate. lia.
Qed.

(** An entry of a row of zeros after the four writes. *)
Lemma nth_four_writes (n : N) (d0 d1 : Point2ToDOF) (e1 e2 e3 e4 : R)
    (i : nat) :
  (i < N.to_nat n)%nat →
  nth i (with_column (dof_y d1) e4
           (with_column (dof_x d1) e3
              (with_column (dof_y d0) e2
                 (with_column (dof_x d0) e1 (setZero n))))) 0%R
  = if hits (dof_y d1) i then e4
    else if hits (dof_x d1) i then e3
    else if hits (dof_y d0) i then e2
    else if hits (dof_x d0) i then e1
    else 0%R.
Proof.
  intros Hi.
  rewrite !nth_with_column, nth_setZero;
    rewrite ?length_with_column; unfold setZero;
    rewrite ?length_replicate; done.
Qed.

Lemma hits_apart (d0 d1 : Point2ToDOF) (i j k : nat) (c c' : dof_index_t) :
  columns_apart d0 d1 → j ≠ k →
  [dof_x d0; dof_y d0; dof_x d1; dof_y d1] !! j = Some c →
  [dof_x d0; dof_y d0; dof_x d1; dof_y d1] !! k = Some c' →
  hits c i = true → hits c' i = true → False.
Proof.
  intros Hapart Hjk Hj Hk [Hv ->]%hits_true [_ ->]%hits_true.
  by apply Hv, (Hapart j k).
Qed.

(** In a consistent table the four coordinates of two different points
    have columns of their own. *)
Lemma dof_table_columns_apart (a : CAssembledRigidModel) (i0 i1 : N)
    (d0 d1 : Point2ToDOF) :
  dof_table_ok a → i0 ≠ i1 →
  points2DOFs_ a !! N.to_nat i0 = Some d0 →
  points2DOFs_ a !! N.to_nat i1 = Some d1 →
  columns_apart d0 d1.
Proof.
  intros Hok Hne Hd0 Hd1.
  destruct (dof_table_injective a i0 i0 d0 d0 Hok Hd0 Hd0) as (_ & _ & A3 & A4).
  destruct (dof_table_injective a i0 i1 d0 d1 Hok Hd0 Hd1) as (B1 & B2 & B3 & B4).
  destruct (dof_table_injective a i1 i1 d1 d1 Hok Hd1 Hd1) as (_ & _ & C3 & C4).
  destruct (dof_table_injective a i1 i0 d1 d0 Hok Hd1 Hd0) as (_ & _ & D3 & D4).
  intros j k c Hjk Hj Hk.
  destruct (decide (c = INVALID_DOF)) as [|Hv]; [done|]. exfalso.
  destruct j as [|[|[|[|j]]]]; cbn in Hj; try discriminate;
    destruct k as [|[|[|[|k]]]]; cbn in Hk; try discriminate; try done;
    injection Hj as Hj; injection Hk as Hk; subst c;
    first [ by apply (A3 Hv) | by apply (A4 Hv) | by apply (B3 Hv)
          | by apply (B4 Hv) | by apply (C3 Hv) | by apply (C4 Hv)
          | by apply (D3 Hv) | by apply (D4 Hv)
          | by apply Hne, (B1 Hv) | by apply Hne, (B2 Hv)
          | idtac ].
  all: rewrite <- Hk in Hv.
  all: first [ by apply (A3 Hv) | by apply (A4 Hv) | by apply (B3 Hv)
             | by apply (B4 Hv) | by apply (C3 Hv) | by apply (C4 Hv)
             | by apply (D3 Hv) | by apply (D4 Hv)
             | by apply Hne, (B1 Hv) | by apply Hne, (B2 Hv) ].
Qed.

(** ** Each column of the two Jacobians *)

Lemma derivable_pt_lim_shift (g : R → R) (c t0 l : R) :
  derivable_pt_lim g t0 l → derivable_pt_lim (λ t, g t - c)%R t0 l.
Proof.
  intros Hg. replace l with (l - 0)%R by ring.
  apply (derivable_pt_lim_minus g (fct_cte c)); [done|].
  apply derivable_pt_lim_const.
Qed.

Lemma derivable_pt_lim_constant (c t0 : R) :
  derivable_pt_lim (λ _, c) t0 0%R.
Proof. apply (derivable_pt_lim_const c). Qed.

Lemma column_in_insert (c : dof_index_t) (v : list R) (i : nat) (t : R) :
  column_in c v → column_in c (<[i := t]> v).
Proof. apply column_in_size. by rewrite size_insert. Qed.

Section Columns.
Variables (f : FactorGyroscope) (a : CAssembledRigidModel).
Variables (q_k dq_k : list R) (b : Body) (i0 i1 : N).
Variables (info0 info1 : Point2) (d0 d1 : Point2ToDOF).
Hypothesis Href : reference_points a (m_body_idx f) b i0 i1.
Hypothesis Hinfo0 : points_ (parent_ a) !! N.to_nat i0 = Some info0.
Hypothesis Hinfo1 : points_ (parent_ a) !! N.to_nat i1 = Some info1.
Hypothesis Hd0 : points2DOFs_ a !! N.to_nat i0 = Some d0.
Hypothesis Hd1 : points2DOFs_ a !! N.to_nat i1 = Some d1.
Hypothesis Hx0 : column_in (dof_x d0) q_k.
Hypothesis Hy0 : column_in (dof_y d0) q_k.
Hypothesis Hx1 : column_in (dof_x d1) q_k.
Hypothesis Hy1 : column_in (dof_y d1) q_k.
Hypothesis Hsize : size dq_k = size q_k.
Hypothesis Hpos : (1 <= size q_k)%N.
Hypothesis Hapart : columns_apart d0 d1.

Let pt0 : TPoint2D :=
  mkTPoint2D (axis_value (x (coords info0)) q_k (dof_x d0))
             (axis_value (y (coords info0)) q_k (dof_y d0)).
Let pt1 : TPoint2D :=
  mkTPoint2D (axis_value (x (coords info1)) q_k (dof_x d1))
             (axis_value (y (coords info1)) q_k (dof_y d1)).
Let pt0vel : TPoint2D :=
  mkTPoint2D (axis_value 0 dq_k (dof_x d0)) (axis_value 0 dq_k (dof_y d0)).
Let pt1vel : TPoint2D :=
  mkTPoint2D (axis_value 0 dq_k (dof_x d1)) (axis_value 0 dq_k (dof_y d1)).
Let len_inv : R := (1 / norm (TPoint2D_minus pt1 pt0))%R.

Hypothesis Hsep : pt0 ≠ pt1.

Lemma len_inv_sq :
  (len_inv * len_inv
   = / ((x pt1 - x pt0) * (x pt1 - x pt0) + (y pt1 - y pt0) * (y pt1 - y pt0)))%R.
Proof using Type. apply (inv_norm_sq (TPoint2D_minus pt1 pt0)). Qed.

Lemma segment_not_null :
  ((x pt1 - x pt0) * (x pt1 - x pt0) + (y pt1 - y pt0) * (y pt1 - y pt0)
   ≠ 0)%R.
Proof using Hsep.
  intros Hz. apply Hsep.
  set (dx := (x pt1 - x pt0)%R) in *. set (dy := (y pt1 - y pt0)%R) in *.
  assert (Hx : dx = 0%R) by nra. assert (Hy : dy = 0%R) by nra.
  unfold dx, dy, pt0, pt1 in *. cbn in Hx, Hy. f_equal; lra.
Qed.

Ltac apart :=
  exfalso;
  first
    [ by eapply (hits_apart d0 d1 _ 0 1 _ _ Hapart)
    | by eapply (hits_apart d0 d1 _ 0 2 _ _ Hapart)
    | by eapply (hits_apart d0 d1 _ 0 3 _ _ Hapart)
    | by eapply (hits_apart d0 d1 _ 1 2 _ _ Hapart)
    | by eapply (hits_apart d0 d1 _ 1 3 _ _ Hapart)
    | by eapply (hits_apart d0 d1 _ 2 3 _ _ Hapart) ].

Lemma columns_in_setZero :
  column_in (dof_x d0) (setZero (size q_k)) ∧
  column_in (dof_y d0) (setZero (size q_k)) ∧
  column_in (dof_x d1) (setZero (size q_k)) ∧
  column_in (dof_y d1) (setZero (size q_k)).
Proof using Hx0 Hy0 Hx1 Hy1.
  split_and!; (eapply column_in_size; [|eassumption]);
    by rewrite size_setZero.
Qed.

(** Column [i] of the Jacobian with respect to [q]. *)
Lemma jacobian_q_column (row : list R) (i : nat) :
  jacobian_q (size q_k) d0 d1 pt0 pt1 pt0vel pt1vel len_inv = Ok row →
  (i < length q_k)%nat →
  derivable_pt_lim (λ t, residual f a (<[i := t]> q_k) dq_k)
    (nth i q_k 0%R) (nth i row 0%R).
Proof using All.
  intros Hrow Hi.
  destruct columns_in_setZero as (Hz1 & Hz2 & Hz3 & Hz4).
  unfold jacobian_q in Hrow.
  rewrite (four_writes _ _ _ Hz1 Hz2 Hz3 Hz4) in Hrow. injection Hrow as <-.
  rewrite nth_four_writes by (unfold size; lia).
  pose proof len_inv_sq as Hli. pose proof segment_not_null as HD.
  eapply (derivable_pt_lim_ext
            (λ t, rate_closed
                    (if hits (dof_x d0) i then t else x pt0)
                    (if hits (dof_y d0) i then t else y pt0)
                    (if hits (dof_x d1) i then t else x pt1)
                    (if hits (dof_y d1) i then t else y pt1)
                    (x pt0vel) (y pt0vel) (x pt1vel) (y pt1vel)
                  - m_reading f)%R).
  { intros t. symmetry.
    rewrite (residual_value f a (<[i := t]> q_k) dq_k b i0 i1 info0 info1
               d0 d1 Href Hinfo0 Hinfo1 Hd0 Hd1);
      try (by apply column_in_insert); try by rewrite size_insert.
    by rewrite !axis_value_insert. }
  destruct (hits (dof_x d0) i) eqn:E1, (hits (dof_y d0) i) eqn:E2,
           (hits (dof_x d1) i) eqn:E3, (hits (dof_y d1) i) eqn:E4;
    try apart.
  - rewrite <- (axis_value_hit (x (coords info0)) q_k _ i E1).
    apply derivable_pt_lim_shift, (rate_d_x0 _ _ _ _ _ _ _ _ _ Hli HD).
  - rewrite <- (axis_value_hit (y (coords info0)) q_k _ i E2).
    apply derivable_pt_lim_shift, (rate_d_y0 _ _ _ _ _ _ _ _ _ Hli HD).
  - rewrite <- (axis_value_hit (x (coords info1)) q_k _ i E3).
    apply derivable_pt_lim_shift, (rate_d_x1 _ _ _ _ _ _ _ _ _ Hli HD).
  - rewrite <- (axis_value_hit (y (coords info1)) q_k _ i E4).
    apply derivable_pt_lim_shift, (rate_d_y1 _ _ _ _ _ _ _ _ _ Hli HD).
  - apply derivable_pt_lim_constant.
Qed.

(** Column [i] of the Jacobian with respect to [dq]. *)
Lemma jacobian_dq_column (row : list R) (i : nat) :
  jacobian_dq (size q_k) d0 d1 pt0 pt1 len_inv = Ok row →
  (i < length dq_k)%nat →
  derivable_pt_lim (λ t, residual f a q_k (<[i := t]> dq_k))
    (nth i dq_k 0%R) (nth i row 0%R).
Proof using All.
  intros Hrow Hi.
  destruct columns_in_setZero as (Hz1 & Hz2 & Hz3 & Hz4).
  unfold jacobian_dq in Hrow.
  rewrite (four_writes _ _ _ Hz1 Hz2 Hz3 Hz4) in Hrow. injection Hrow as <-.
  rewrite nth_four_writes by (unfold size in *; lia).
  pose proof len_inv_sq as Hli. pose proof segment_not_null as HD.
  eapply (derivable_pt_lim_ext
            (λ t, rate_closed (x pt0) (y pt0) (x pt1) (y pt1)
                    (if hits (dof_x d0) i then t else x pt0vel)
                    (if hits (dof_y d0) i then t else y pt0vel)
                    (if hits (dof_x d1) i then t else x pt1vel)
                    (if hits (dof_y d1) i then t else y pt1vel)
                  - m_reading f)%R).
  { intros t. symmetry.
    rewrite (residual_value f a q_k (<[i := t]> dq_k) b i0 i1 info0 info1
               d0 d1 Href Hinfo0 Hinfo1 Hd0 Hd1);
      try done; try by rewrite size_insert.
    by rewrite !axis_value_insert. }
  destruct (hits (dof_x d0) i) eqn:E1, (hits (dof_y d0) i) eqn:E2,
           (hits (dof_x d1) i) eqn:E3, (hits (dof_y d1) i) eqn:E4;
    try apart.
  - rewrite <- (axis_value_hit 0 dq_k _ i E1).
    apply derivable_pt_lim_shift, (rate_d_vx0 _ _ _ _ _ _ _ _ _ Hli HD).
  - rewrite <- (axis_value_hit 0 dq_k _ i E2).
    apply derivable_pt_lim_shift, (rate_d_vy0 _ _ _ _ _ _ _ _ _ Hli HD).
  - rewrite <- (axis_value_hit 0 dq_k _ i E3).
    apply derivable_pt_lim_shift, (rate_d_vx1 _ _ _ _ _ _ _ _ _ Hli HD).
  - rewrite <- (axis_value_hit 0 dq_k _ i E4).
    apply derivable_pt_lim_shift, (rate_d_vy1 _ _ _ _ _ _ _ _ _ Hli HD).
  - apply derivable_pt_lim_constant.
Qed.

End Columns.

Lemma hits_other (c : dof_index_t) (i : nat) :
  (c ≠ INVALID_DOF → c ≠ N.of_nat i) → hits c i = false.
Proof.
  intros H. unfold hits. destruct (N.eqb_spec c INVALID_DOF) as [|Hv]; [done|].
  cbn. apply N.eqb_neq. by apply H.
Qed.

(** A row of zeros after four writes is zero away from the four columns
    and is as long as the row of zeros. *)
Lemma four_writes_elsewhere (n : N) (d0 d1 : Point2ToDOF) (e1 e2 e3 e4 : R) :
  let row := with_column (dof_y d1) e4
               (with_column (dof_x d1) e3
                  (with_column (dof_y d0) e2
                     (with_column (dof_x d0) e1 (setZero n)))) in
  size row = n ∧
  ∀ i : nat,
    (∀ c, c ∈ [dof_x d0; dof_y d0; dof_x d1; dof_y d1] →
          c ≠ INVALID_DOF → c ≠ N.of_nat i) →
    nth i row 0%R = 0%R.
Proof.
  cbv zeta. split.
  - by rewrite !size_with_column, size_setZero.
  - intros i Hfree.
    destruct (decide (i < N.to_nat n)%nat) as [Hlt|Hge].
    + rewrite nth_four_writes by done.
      rewrite !hits_other; [done|..]; apply Hfree;
        repeat first [apply list_elem_of_here | apply list_elem_of_further].
    + apply nth_overflow. rewrite !length_with_column.
      unfold setZero. rewrite length_replicate. lia.
Qed.

(** C1.  For a body whose two reference points are apart, the Jacobians
    [H1] and [H2] that [evaluateError] hands back on request are rows as
    long as [q_k]; column by column they are the derivatives of the error
    with respect to the entries of [q_k] and of [dq_k]; and they are zero
    in every column that is not the column of a free coordinate of one of
    the two points.  Each of the four coordinates may be free or fixed. *)
Theorem gyroscope_jacobians (f : FactorGyroscope) (a : CAssembledRigidModel)
    (q_k dq_k : list R) (H1 H2 : bool) (b : Body) (i0 i1 : N)
    (p0 p1 : TPoint2D)
    (Hok : dof_table_ok a)
    (Href : reference_points a (m_body_idx f) b i0 i1)
    (Hlen : (length (DOFs_ a) <= length q_k)%nat)
    (Hsize : size dq_k = size q_k) (Hpos : (1 <= size q_k)%N)
    (Hp0 : getPointCurrentCoords (set_state q_k dq_k a) i0 = Ok p0)
    (Hp1 : getPointCurrentCoords (set_state q_k dq_k a) i1 = Ok p1)
    (Hsep : p0 ≠ p1) :
  ∃ d0 d1 e row1 row2,
    points2DOFs_ a !! N.to_nat i0 = Some d0 ∧
    points2DOFs_ a !! N.to_nat i1 = Some d1 ∧
    (evaluateError f a q_k dq_k H1 H2).1 = Ok e ∧
    H1_out e = (if H1 then Some row1 else None) ∧
    H2_out e = (if H2 then Some row2 else None) ∧
    size row1 = size q_k ∧ size row2 = size q_k ∧
    (∀ i : nat, (i < length q_k)%nat →
       derivable_pt_lim (λ t, residual f a (<[i := t]> q_k) dq_k)
         (nth i q_k 0%R) (nth i row1 0%R) ∧
       derivable_pt_lim (λ t, residual f a q_k (<[i := t]> dq_k))
         (nth i dq_k 0%R) (nth i row2 0%R)) ∧
    (∀ i : nat,
       (∀ c, c ∈ [dof_x d0; dof_y d0; dof_x d1; dof_y d1] →
             c ≠ INVALID_DOF → c ≠ N.of_nat i) →
       nth i row1 0%R = 0%R ∧ nth i row2 0%R = 0%R).
Proof.
  assert (Hne : i0 ≠ i1).
  { intros ->. rewrite Hp0 in Hp1. by injection Hp1. }
  destruct (evaluateError_returns f a q_k dq_k H1 H2 b i0 i1
              Hok Href Hlen Hsize Hpos)
    as (info0 & info1 & d0 & d1 & Hinfo0 & Hinfo1 & Hd0 & Hd1 & Hp0' & Hp1'
        & _ & _ & row1 & row2 & Hrow1 & Hrow2 & Heval).
  cbv zeta in *.
  rewrite Hp0 in Hp0'. injection Hp0' as ->.
  rewrite Hp1 in Hp1'. injection Hp1' as ->.
  destruct (dof_table_columns a i0 d0 q_k Hok Hd0 Hlen) as [Hx0 Hy0].
  destruct (dof_table_columns a i1 d1 q_k Hok Hd1 Hlen) as [Hx1 Hy1].
  pose proof (dof_table_columns_apart a i0 i1 d0 d1 Hok Hne Hd0 Hd1)
    as Hapart.
  assert (Hlendq : length dq_k = length q_k) by (unfold size in Hsize; lia).
  exists d0, d1. eexists. exists row1, row2.
  split_and!; [done | done | by rewrite Heval | done | done | | | | ].
  - unfold jacobian_q in Hrow1.
    rewrite four_writes in Hrow1
      by (eapply column_in_size; [|eassumption]; by rewrite size_setZero).
    injection Hrow1 as <-. apply four_writes_elsewhere.
  - unfold jacobian_dq in Hrow2.
    rewrite four_writes in Hrow2
      by (eapply column_in_size; [|eassumption]; by rewrite size_setZero).
    injection Hrow2 as <-. apply four_writes_elsewhere.
  - intros i Hi. split.
    + by apply (jacobian_q_column f a q_k dq_k b i0 i1 info0 info1 d0 d1).
    + apply (jacobian_dq_column f a q_k dq_k b i0 i1 info0 info1 d0 d1);
        try done. by rewrite Hlendq.
  - intros i Hfree. split.
    + unfold jacobian_q in Hrow1.
      rewrite four_writes in Hrow1
        by (eapply column_in_size; [|eassumption]; by rewrite size_setZero).
      injection Hrow1 as <-. by apply four_writes_elsewhere.
    + unfold jacobian_dq in Hrow2.
      rewrite four_writes in Hrow2
        by (eapply column_in_size; [|eassumption]; by rewrite size_setZero).
      injection Hrow2 as <-. by apply four_writes_elsewhere.
Qed.

(** The first bar of the four-bar linkage, point 0 fixed and point 1 free
    in columns 0 and 1: the entry of [H1] in column 0 and the entry of
    [H2] in column 1 are derivatives of the error, and column 2, which
    belongs to point 2, holds zero. *)
Lemma gyroscope_jacobians_witness :
  let f := mkFactorGyroscope 0 (1 / 2) in
  let q_k := [1; 0; 1; 2]%R in
  let dq_k := [0; 1; 0; 0]%R in
  ∃ e row1 row2,
    (evaluateError f fourbar_arm q_k dq_k true true).1 = Ok e ∧
    H1_out e = Some row1 ∧ H2_out e = Some row2 ∧
    derivable_pt_lim (λ t, residual f fourbar_arm (<[0%nat := t]> q_k) dq_k)
      1 (nth 0 row1 0%R) ∧
    derivable_pt_lim (λ t, residual f fourbar_arm q_k (<[1%nat := t]> dq_k))
      1 (nth 1 row2 0%R) ∧
    nth 2 row1 0%R = 0%R.
Proof.
  cbv zeta.
  destruct (gyroscope_jacobians (mkFactorGyroscope 0 (1 / 2)) fourbar_arm
              [1; 0; 1; 2]%R [0; 1; 0; 0]%R true true (bar 0 1 1) 0 1
              (mkTPoint2D 0 0) (mkTPoint2D 1 0)
              (linkage_dof_table_ok 1 _ _) (linkage_reference_points 1 _ _))
    as (d0 & d1 & e & row1 & row2 & Hd0 & Hd1 & He & Hr1 & Hr2 & _ & _
        & Hder & Hzero);
    [apply le_n | reflexivity | apply N.leb_le; reflexivity
     | reflexivity | reflexivity | intros [= H0]; lra |].
  injection Hd0 as <-. injection Hd1 as <-.
  exists e, row1, row2. split_and!; [done|done|done| | |].
  - apply (Hder 0%nat). cbn. lia.
  - apply (Hder 1%nat). cbn. lia.
  - apply (Hzero 2%nat). intros c Hc Hv.
    repeat (apply elem_of_cons in Hc as [-> | Hc]); try done.
    by apply elem_of_nil in Hc.
Defined.

(** The first bar of the four-bar linkage turning about the ground point
    at unit rate: the rate is 1, it falls at unit rate when point 1 moves
    outwards along the bar, and it grows at unit rate with the velocity of
    point 1 across the bar. *)
Example fourbar_jacobians :
  (evaluateError (mkFactorGyroscope 0 (1 / 2)) fourbar_arm
     [1; 0; 1; 2]%R [0; 1; 0; 0]%R true true).1
  = Ok (mkEvaluation [(1 / 2)%R] (Some [-1; 0; 0; 0]%R)
          (Some [0; 1; 0; 0]%R)).
Proof.
  rewrite evaluateError_guards by (reflexivity || (apply N.leb_le; reflexivity)).
  cbn [fst].
  etransitivity;
  [ exact (evaluateError_body_value (mkFactorGyroscope 0 (1 / 2))
             (fourbar_at [1; 0; 1; 2]%R [0; 1; 0; 0]%R) 4 true true
             (bar 0 1 1) 0 1
             (mkPoint2ToDOF INVALID_DOF INVALID_DOF) (mkPoint2ToDOF 0 1)
             (mkTPoint2D 0 0) (mkTPoint2D 1 0) (mkTPoint2D 0 0)
             (mkTPoint2D 0 1) (linkage_reference_points 1 _ _)
             eq_refl eq_refl eq_refl eq_refl eq_refl eq_refl) | ].
  unfold gyro_rate. rewrite norm_1_0.
  cbn. rewrite !set_index_lt by reflexivity. cbn.
  rewrite !set_index_lt by reflexivity. cbn.
  f_equal. f_equal; [| f_equal..];
    repeat (apply (f_equal2 cons); [lra|]); reflexivity.
Qed.

(** * Further properties *)

(** ** Setting a point of the definition *)

(** X1.  [setPointCoords] throws for an index that is not a point of the
    definition.  Otherwise it returns, the point reads back with the
    coordinates and the fixed flag given, every other point reads as
    before, and the number of points, the bodies, the constraints and the
    assembly flag are unchanged. *)
Theorem setPointCoords_lookup (m : ModelDefinition) (i : N) (c : TPoint2D)
    (is_fixed : bool) :
  ((size (points_ m) <= i)%N →
     setPointCoords m i c is_fixed = Throw "i < points_.size()") ∧
  ((i < size (points_ m))%N →
     ∃ m', setPointCoords m i c is_fixed = Ok m' ∧
           getPointInfo m' i = Ok (mkPoint2 c is_fixed) ∧
           (∀ j, j ≠ i → getPointInfo m' j = getPointInfo m j) ∧
           getPointCount m' = getPointCount m ∧
           bodies_ m' = bodies_ m ∧ getConstraints m' = getConstraints m ∧
           already_added_fixed_len_constraints_ m'
           = already_added_fixed_len_constraints_ m).
Proof.
  unfold setPointCoords. split.
  - intros Hge. by destruct (N.ltb_spec i (size (points_ m))); [lia|].
  - intros Hlt. destruct (N.ltb_spec i (size (points_ m))); [|lia].
    rewrite ASSERT_true, bind_Ok. eexists. split; [reflexivity|].
    unfold getPointInfo, getPointCount. cbn. split_and!; try done.
    + apply index_Some, list_lookup_insert_eq. unfold size in *. lia.
    + intros j Hj. unfold index. rewrite list_lookup_insert_ne by lia. done.
    + apply size_insert.
Qed.

(** Point 2 of the four-bar linkage moved and fixed; point 7 does not
    exist. *)
Lemma setPointCoords_lookup_witness :
  (∃ m', setPointCoords fourbar 2 (mkTPoint2D 3 3) true = Ok m' ∧
         getPointInfo m' 2 = Ok (mkPoint2 (mkTPoint2D 3 3) true) ∧
         getPointInfo m' 1 = Ok (mkPoint2 (mkTPoint2D 1 0) false)) ∧
  setPointCoords fourbar 7 (mkTPoint2D 3 3) true = Throw "i < points_.size()".
Proof.
  split.
  - destruct (setPointCoords_lookup fourbar 2 (mkTPoint2D 3 3) true)
      as [_ Hin].
    destruct Hin as (m' & Hset & Hget & Hother & _);
      [apply N.ltb_lt; reflexivity|].
    exists m'. split_and!; [done|done|]. by rewrite Hother.
  - destruct (setPointCoords_lookup fourbar 7 (mkTPoint2D 3 3) true)
      as [Hout _].
    apply Hout. apply N.leb_le. reflexivity.
Defined.

(** ** More on the symbolic assembly *)

Lemma same_but_constraints_refl (m : ModelDefinition) :
  same_but_constraints m m.
Proof. split_and!; try done. exists []. by rewrite app_nil_r. Qed.

Lemma same_but_constraints_trans (m1 m2 m3 : ModelDefinition) :
  same_but_constraints m1 m2 → same_but_constraints m2 m3 →
  same_but_constraints m1 m3.
Proof.
  intros (Hp & Hb & Hf & cs & Hc) (Hp' & Hb' & Hf' & cs' & Hc').
  split_and!; try congruence.
  exists (cs ++ cs'). by rewrite Hc', Hc, app_assoc.
Qed.

Lemma add_pair_constraints_frame (b : Body) (pairs : list (N * N)) :
  ∀ m, same_but_constraints m (add_pair_constraints b pairs m).2.
Proof.
  induction pairs as [|p rest IH]; intros m; cbn [add_pair_constraints].
  - apply same_but_constraints_refl.
  - destruct (distance_constraint m b p) as [c| |];
      [|apply same_but_constraints_refl..].
    eapply same_but_constraints_trans; [|apply IH].
    split_and!; try done. by exists [c].
Qed.

Lemma add_body_constraints_frame (b : Body) (m : ModelDefinition) :
  same_but_constraints m (add_body_constraints b m).2.
Proof.
  unfold add_body_constraints.
  destruct (size (points b)) as [|[[p|p|]|[p|p|]|]];
    try apply add_pair_constraints_frame;
    try apply same_but_constraints_refl.
  destruct (index (points b) 0) as [b0| |], (index (points b) 1) as [b1| |];
    try apply same_but_constraints_refl.
  destruct (negb (b0 <? size (points_ m))%N);
    [apply same_but_constraints_refl|].
  destruct (negb (b1 <? size (points_ m))%N);
    [apply same_but_constraints_refl|].
  split_and!; try done. by eexists [_].
Qed.

Lemma add_bodies_constraints_frame (bodies : list Body) :
  ∀ m, same_but_constraints m (add_bodies_constraints bodies m).2.
Proof.
  induction bodies as [|b rest IH]; intros m; cbn [add_bodies_constraints].
  - apply same_but_constraints_refl.
  - pose proof (add_body_constraints_frame b m) as Hb.
    destruct (add_body_constraints b m) as [[[]| |] m']; try done.
    eapply same_but_constraints_trans; [exact Hb|apply IH].
Qed.

Lemma collect_DOFs_length (pts : list Point2) :
  ∀ i, length (collect_DOFs i pts)
       = (2 * length (filter (λ pt, fixed pt = false) pts))%nat.
Proof.
  induction pts as [|pt rest IH]; intros i; [done|].
  cbn [collect_DOFs]. rewrite length_app, IH.
  rewrite filter_cons. destruct (fixed pt); cbn.
  - by destruct (decide (true = false)).
  - destruct (decide (false = false)); [cbn; lia|done].
Qed.

Lemma collect_DOFs_elem (pts : list Point2) :
  ∀ i d, d ∈ collect_DOFs i pts →
    ∃ (k : nat) (pt : Point2),
      pts !! k = Some pt ∧ fixed pt = false ∧
      point_index d = (i + N.of_nat k)%N ∧
      (point_dof d = PointDOF.X ∨ point_dof d = PointDOF.Y).
Proof.
  induction pts as [|pt rest IH]; intros i d Hd.
  - by apply elem_of_nil in Hd.
  - cbn [collect_DOFs] in Hd. apply elem_of_app in Hd as [Hd | Hd].
    + destruct (fixed pt) eqn:Hfix; [by apply elem_of_nil in Hd|].
      exists 0%nat, pt. rewrite N.add_0_r.
      apply elem_of_cons in Hd as [-> | Hd]; [by repeat split; try left|].
      apply elem_of_cons in Hd as [-> | Hd]; [by repeat split; try right|].
      by apply elem_of_nil in Hd.
    + destruct (IH _ _ Hd) as (k & pt' & Hk & Hfix & Hidx & Hax).
      exists (S k), pt'. split_and!; try done. lia.
Qed.

Lemma assembleRigidMBS_inv (m m' : ModelDefinition)
    (armi : TSymbolicAssembledModel) :
  assembleRigidMBS m = (Ok armi, m') →
  armi = mkSymbolic m' (collect_DOFs 0 (points_ m)) [] ∧
  points_ m' = points_ m ∧ bodies_ m' = bodies_ m ∧
  already_added_fixed_len_constraints_ m' = true.
Proof.
  unfold assembleRigidMBS. intros Hret.
  destruct (already_added_fixed_len_constraints_ m) eqn:Hflag; cbn in Hret.
  - by injection Hret as <- <-.
  - pose proof (add_bodies_constraints_frame (bodies_ m) m)
      as (Hp & Hb & _ & _).
    destruct (add_bodies_constraints (bodies_ m) m) as [[[]| |] m1];
      try done.
    by injection Hret as <- <-.
Qed.

Lemma collect_DOFs_complete (pts : list Point2) :
  ∀ (i : N) (k : nat) (pt : Point2),
    pts !! k = Some pt → fixed pt = false →
    mkDOF (i + N.of_nat k) PointDOF.X ∈ collect_DOFs i pts ∧
    mkDOF (i + N.of_nat k) PointDOF.Y ∈ collect_DOFs i pts.
Proof.
  induction pts as [|pt' rest IH]; intros i k pt Hk Hfree; [done|].
  cbn [collect_DOFs]. destruct k as [|k'].
  - injection Hk as ->. rewrite Hfree, N.add_0_r.
    split; apply elem_of_app; left.
    + apply list_elem_of_here.
    + apply list_elem_of_further, list_elem_of_here.
  - cbn in Hk. destruct (IH (i + 1)%N k' pt Hk Hfree) as [Hx Hy].
    replace (i + N.of_nat (S k'))%N with (i + 1 + N.of_nat k')%N by lia.
    split; apply elem_of_app; by right.
Qed.

Lemma collect_DOFs_from (pts : list Point2) (i : N) :
  Forall (λ d, (i <= point_index d)%N) (collect_DOFs i pts).
Proof.
  apply Forall_forall. intros d Hd.
  destruct (collect_DOFs_elem _ _ _ Hd) as (k & pt & _ & _ & -> & _). lia.
Qed.

Lemma collect_DOFs_sorted (pts : list Point2) :
  ∀ i, StronglySorted dof_before (collect_DOFs i pts).
Proof.
  induction pts as [|pt rest IH]; intros i; [constructor|].
  cbn [collect_DOFs]. destruct (fixed pt); [apply IH|].
  assert (Hlater : ∀ ax, Forall (dof_before (mkDOF i ax))
                           (collect_DOFs (i + 1) rest)).
  { intros ax. eapply Forall_impl; [apply collect_DOFs_from|].
    intros d Hd. left. cbn in *. lia. }
  cbn [app]. constructor; [constructor; [apply IH | apply Hlater]|].
  constructor; [by right | apply Hlater].
Qed.

Lemma dof_before_irrefl (d : NaturalCoordDOF) : ¬ dof_before d d.
Proof. intros [Hlt | (_ & Hx & Hy)]; [lia | congruence]. Qed.

Lemma dof_before_NoDup (l : list NaturalCoordDOF) :
  StronglySorted dof_before l → NoDup l.
Proof.
  induction 1 as [|d l _ IH Hall]; [constructor|].
  constructor; [|exact IH]. intros Hin.
  rewrite Forall_forall in Hall. by apply (dof_before_irrefl d), Hall.
Qed.

(** X2.  The symbolic model that [assembleRigidMBS] fills in has exactly
    two degrees of freedom for each free point of the definition, its x
    and its y, and none else: each entry names a point of the definition
    that is not fixed, with axis x or y; the x and the y of every free
    point are there; no entry comes twice, and the entries stand in point
    order, x before y.  The symbolic model has no relative coordinate,
    and the call changes nothing in the definition but its constraints and
    its flag. *)
Theorem symbolic_assembly_DOFs (m m' : ModelDefinition)
    (armi : TSymbolicAssembledModel)
    (Hret : assembleRigidMBS m = (Ok armi, m')) :
  length (DOFs armi)
  = (2 * length (filter (λ pt, fixed pt = false) (points_ m)))%nat ∧
  (∀ d, d ∈ DOFs armi →
     ∃ pt, points_ m !! N.to_nat (point_index d) = Some pt ∧
           fixed pt = false ∧
           (point_dof d = PointDOF.X ∨ point_dof d = PointDOF.Y)) ∧
  rDOFs armi = [] ∧ model armi = m' ∧
  points_ m' = points_ m ∧ bodies_ m' = bodies_ m ∧
  already_added_fixed_len_constraints_ m' = true ∧
  (∀ p pt, points_ m !! N.to_nat p = Some pt → fixed pt = false →
     mkDOF p PointDOF.X ∈ DOFs armi ∧ mkDOF p PointDOF.Y ∈ DOFs armi) ∧
  NoDup (DOFs armi) ∧
  StronglySorted dof_before (DOFs armi).
Proof.
  destruct (assembleRigidMBS_inv m m' armi Hret) as (-> & Hp & Hb & Hflag).
  cbn. split_and!; try done.
  - apply collect_DOFs_length.
  - intros d Hd.
    destruct (collect_DOFs_elem _ _ _ Hd) as (k & pt & Hk & Hfix & -> & Hax).
    exists pt. by rewrite N.add_0_l, Nat2N.id.
  - intros p pt Hpt Hfree.
    pose proof (collect_DOFs_complete (points_ m) 0 _ pt Hpt Hfree) as Hin.
    by rewrite N.add_0_l, N2Nat.id in Hin.
  - apply dof_before_NoDup, collect_DOFs_sorted.
  - apply collect_DOFs_sorted.
Qed.

(** The four-bar linkage: the x and the y of its free points 1 and 2, in
    this order. *)
Lemma symbolic_assembly_DOFs_witness :
  ∃ armi m',
    assembleRigidMBS fourbar = (Ok armi, m') ∧
    length (DOFs armi) = 4%nat ∧ rDOFs armi = [] ∧
    already_added_fixed_len_constraints_ m' = true ∧
    mkDOF 2 PointDOF.Y ∈ DOFs armi ∧ NoDup (DOFs armi).
Proof.
  exists fourbar_symbolic, (linkage_closed 1).
  destruct (symbolic_assembly_DOFs fourbar (linkage_closed 1)
              fourbar_symbolic (linkage_assembleRigidMBS 1))
    as (Hlen & _ & Hr & _ & _ & _ & Hflag & Hall & Hnodup & _).
  destruct (Hall 2%N _ eq_refl eq_refl) as [_ Hy].
  by split_and!.
Defined.

(** X3.  Once a symbolic assembly has returned, a second one returns the
    same symbolic model and leaves the definition as it is: the closure
    constraints are added once. *)
Theorem symbolic_assembly_once (m m' : ModelDefinition)
    (armi : TSymbolicAssembledModel)
    (Hret : assembleRigidMBS m = (Ok armi, m')) :
  assembleRigidMBS m' = (Ok armi, m').
Proof.
  destruct (assembleRigidMBS_inv m m' armi Hret) as (-> & Hp & _ & Hflag).
  unfold assembleRigidMBS. by rewrite Hflag, Hp.
Qed.

Lemma symbolic_assembly_once_witness :
  assembleRigidMBS (assembleRigidMBS fourbar).2
  = (Ok fourbar_symbolic, linkage_closed 1).
Proof.
  apply (symbolic_assembly_once fourbar). apply linkage_assembleRigidMBS.
Defined.

(** ** Symbolic assemblies that abort *)

Lemma closure_constraints_with (cs : list Constraint) (m : ModelDefinition)
    (b : Body) :
  closure_constraints (with_constraints cs m) b = closure_constraints m b.
Proof. done. Qed.

(** An assembly that stops at a body with fewer than two points. *)
Lemma assembleRigidMBS_abort (m : ModelDefinition) (good rest : list Body)
    (b : Body) :
  already_added_fixed_len_constraints_ m = false →
  bodies_ m = good ++ b :: rest → Forall (body_ok m) good →
  (size (points b) < 2)%N →
  assembleRigidMBS m
  = (Throw "Body has an invalid number of points (=%u), valid are >=2",
     with_constraints (flat_map (closure_constraints m) good) m).
Proof.
  intros Hflag Hbodies Hgood Hn. unfold assembleRigidMBS.
  rewrite Hflag, Hbodies. cbn [negb].
  rewrite (add_bodies_constraints_app good (b :: rest) m Hgood).
  cbn [add_bodies_constraints].
  by rewrite (add_body_constraints_few_points b _ Hn).
Qed.

(** X4.  An assembly that aborts at a body with fewer than two points is
    not undone: the closure constraints of the bodies before it stay in
    the definition and the flag stays unset, so that a second attempt on
    the same definition adds those constraints once more. *)
Theorem symbolic_assembly_abort_keeps (m : ModelDefinition)
    (good rest : list Body) (b : Body)
    (Hflag : already_added_fixed_len_constraints_ m = false)
    (Hbodies : bodies_ m = good ++ b :: rest)
    (Hgood : Forall (body_ok m) good)
    (Hn : (size (points b) < 2)%N) :
  let cs := flat_map (closure_constraints m) good in
  let m1 := (assembleRigidMBS m).2 in
  getConstraints m1 = getConstraints m ++ cs ∧
  already_added_fixed_len_constraints_ m1 = false ∧
  throws (assembleRigidMBS m1).1 ∧
  getConstraints (assembleRigidMBS m1).2 = getConstraints m ++ cs ++ cs.
Proof.
  cbv zeta.
  rewrite (assembleRigidMBS_abort m good rest b Hflag Hbodies Hgood Hn).
  cbn [snd].
  rewrite (assembleRigidMBS_abort
             (with_constraints (flat_map (closure_constraints m) good) m)
             good rest b Hflag Hbodies Hgood Hn).
  cbn. by rewrite app_assoc.
Qed.

Lemma symbolic_assembly_abort_keeps_witness :
  getConstraints (assembleRigidMBS broken).2
  = [ConstraintConstantDistance 0 1 1] ∧
  getConstraints (assembleRigidMBS (assembleRigidMBS broken).2).2
  = [ConstraintConstantDistance 0 1 1; ConstraintConstantDistance 0 1 1].
Proof.
  destruct (symbolic_assembly_abort_keeps broken [bar 0 1 1] [] (plate [2%N])
              eq_refl eq_refl)
    as (H1 & _ & _ & H2); [bodies_ok | apply N.ltb_lt; reflexivity |].
  by split.
Defined.

Lemma distance_constraint_bad_point (m : ModelDefinition) (b : Body)
    (i j : N) :
  (i < size (points b))%N → (j < size (points b))%N →
  (size (points_ m) <= nth (N.to_nat i) (points b) 0)%N ∨
  (size (points_ m) <= nth (N.to_nat j) (points b) 0)%N →
  fails (distance_constraint m b (i, j)).
Proof.
  intros Hi Hj Hbad. unfold distance_constraint.
  rewrite (index_nth_N _ _ Hi), bind_Ok, (index_nth_N _ _ Hj), bind_Ok.
  destruct (N.ltb_spec (nth (N.to_nat i) (points b) 0%N)
              (size (points_ m))); [|done].
  destruct (N.ltb_spec (nth (N.to_nat j) (points b) 0%N)
              (size (points_ m))); [|done].
  lia.
Qed.

Lemma add_pair_constraints_bad_point (b : Body) (pairs : list (N * N))
    (i j : N) (pts : list Point2) :
  (i, j) ∈ pairs →
  (i < size (points b))%N → (j < size (points b))%N →
  (size pts <= nth (N.to_nat i) (points b) 0)%N ∨
  (size pts <= nth (N.to_nat j) (points b) 0)%N →
  ∀ m, points_ m = pts → fails (add_pair_constraints b pairs m).1.
Proof.
  intros Hin Hi Hj Hbad. induction pairs as [|p rest IH]; intros m Hpts.
  - by apply elem_of_nil in Hin.
  - cbn [add_pair_constraints].
    apply elem_of_cons in Hin as [<- | Hin].
    + pose proof (distance_constraint_bad_point m b i j Hi Hj) as Hf.
      rewrite Hpts in Hf. specialize (Hf Hbad).
      by destruct (distance_constraint m b (i, j)).
    + destruct (distance_constraint m b p) as [c| |]; [|done..].
      by apply IH.
Qed.

(** Every local index of a body occurs in a pair. *)
Lemma default_pairs_cover (n k : N) :
  (2 <= n)%N → (k < n)%N →
  ∃ i j, (i, j) ∈ default_pairs n ∧ (i = k ∨ j = k) ∧ (i < n)%N ∧ (j < n)%N.
Proof.
  intros Hn Hk. destruct (decide (k < 2)%N) as [Hlow|Hhigh].
  - exists 0%N, 1%N. split_and!; [apply list_elem_of_here|lia|lia|lia].
  - exists 0%N, k. split_and!; [|by right|lia|lia].
    unfold default_pairs. apply list_elem_of_further.
    apply list_elem_of_In, in_flat_map. exists k. split; [|by left].
    apply list_elem_of_In, list_elem_of_fmap.
    exists (N.to_nat k). split; [lia|]. apply elem_of_seq. lia.
Qed.

Lemma add_body_constraints_bad_point (b : Body) (m : ModelDefinition)
    (p : N) :
  p ∈ points b → (size (points_ m) <= p)%N →
  fails (add_body_constraints b m).1.
Proof.
  intros Hin Hbad.
  apply list_elem_of_lookup in Hin as [k Hk].
  pose proof (lookup_lt_Some _ _ _ Hk) as Hlt.
  assert (Hnth : nth k (points b) 0%N = p)
    by by apply nth_lookup_Some with (d := 0%N) in Hk.
  destruct (decide (size (points b) < 2)%N) as [Hfew|Hmany].
  { by rewrite add_body_constraints_few_points. }
  assert (Hk' : (N.of_nat k < size (points b))%N) by (unfold size; lia).
  destruct (default_pairs_cover (size (points b)) (N.of_nat k))
    as (i & j & Hij & Hor & Hi & Hj); [lia|done|].
  assert (Hbad' :
    (size (points_ m) <= nth (N.to_nat i) (points b) 0)%N ∨
    (size (points_ m) <= nth (N.to_nat j) (points b) 0)%N).
  { destruct Hor as [-> | ->]; [left|right]; by rewrite Nat2N.id, Hnth. }
  pose proof (add_pair_constraints_bad_point b
                (default_pairs (size (points b))) i j (points_ m)
                Hij Hi Hj Hbad' m eq_refl) as Hdef.
  unfold add_body_constraints.
  destruct (size (points b)) as [|[[q|q|]|[q|q|]|]] eqn:Hsz;
    try lia; try exact Hdef.
  destruct (points b) as [|b0 [|b1 [|]]] eqn:Hpts;
    try rewrite Hpts in Hsz; try rewrite Hpts in Hk; try discriminate;
    try (unfold size in Hsz; cbn in Hsz; lia).
  rewrite (index_Some [b0; b1] 0 b0 eq_refl).
  rewrite (index_Some [b0; b1] 1 b1 eq_refl).
  destruct k as [|[|k]]; cbn in Hk; try discriminate; injection Hk as ->.
  - destruct (N.ltb_spec p (size (points_ m))); [lia|]. by cbn.
  - destruct (N.ltb_spec b0 (size (points_ m))); [|by cbn].
    destruct (N.ltb_spec p (size (points_ m))); [lia|]. by cbn.
Qed.

Lemma add_bodies_constraints_bad_point (bodies : list Body) (b : Body)
    (p : N) (pts : list Point2) :
  b ∈ bodies → p ∈ points b → (size pts <= p)%N →
  ∀ m, points_ m = pts → fails (add_bodies_constraints bodies m).1.
Proof.
  intros Hin Hp Hbad. induction bodies as [|b0 rest IH]; intros m Hpts.
  - by apply elem_of_nil in Hin.
  - cbn [add_bodies_constraints].
    apply elem_of_cons in Hin as [<- | Hin].
    + pose proof (add_body_constraints_bad_point b m p Hp) as Hf.
      rewrite Hpts in Hf. specialize (Hf Hbad).
      by destruct (add_body_constraints b m) as [[[]| |] m'].
    + pose proof (add_body_constraints_frame b0 m) as (Hp' & _).
      destruct (add_body_constraints b0 m) as [[[]| |] m']; [|done..].
      apply IH; [done|]. cbn in Hp'. congruence.
Qed.

(** X5.  The first symbolic assembly fails whenever a body lists a point
    that is not a point of the definition. *)
Theorem symbolic_assembly_bad_point (m : ModelDefinition) (b : Body) (p : N)
    (Hflag : already_added_fixed_len_constraints_ m = false)
    (Hb : b ∈ bodies_ m) (Hp : p ∈ points b)
    (Hbad : (size (points_ m) <= p)%N) :
  fails (assembleRigidMBS m).1.
Proof.
  unfold assembleRigidMBS. rewrite Hflag. cbn [negb].
  pose proof (add_bodies_constraints_bad_point (bodies_ m) b p (points_ m)
                Hb Hp Hbad m eq_refl) as Hf.
  by destruct (add_bodies_constraints (bodies_ m) m) as [[[]| |] m'].
Qed.

Lemma symbolic_assembly_bad_point_witness : fails (assembleRigidMBS dangling).1.
Proof.
  apply (symbolic_assembly_bad_point dangling (plate [1; 2; 9]%N) 9%N eq_refl).
  - apply list_elem_of_here.
  - cbn. do 2 apply list_elem_of_further. apply list_elem_of_here.
  - apply N.leb_le. reflexivity.
Defined.

(** ** The table and the state the constructor builds *)

Lemma init_natural_coords_X (parent : ModelDefinition) (i pt_idx : N)
    (rest : list NaturalCoordDOF) (q : list R) (p2d : list Point2ToDOF)
    (pt : Point2) (e : Point2ToDOF) :
  points_ parent !! N.to_nat pt_idx = Some pt →
  (i < size q)%N → p2d !! N.to_nat pt_idx = Some e →
  init_natural_coords parent i (mkDOF pt_idx PointDOF.X :: rest) q p2d
  = init_natural_coords parent (i + 1) rest
      (<[N.to_nat i := x (coords pt)]> q)
      (<[N.to_nat pt_idx := mkPoint2ToDOF i (dof_y e)]> p2d).
Proof.
  intros Hpt Hi He. cbn [init_natural_coords point_index point_dof].
  unfold getPointInfo, at_.
  by rewrite (index_Some _ _ _ Hpt), bind_Ok, set_index_lt, bind_Ok, He.
Qed.

Lemma init_natural_coords_Y (parent : ModelDefinition) (i pt_idx : N)
    (rest : list NaturalCoordDOF) (q : list R) (p2d : list Point2ToDOF)
    (pt : Point2) (e : Point2ToDOF) :
  points_ parent !! N.to_nat pt_idx = Some pt →
  (i < size q)%N → p2d !! N.to_nat pt_idx = Some e →
  init_natural_coords parent i (mkDOF pt_idx PointDOF.Y :: rest) q p2d
  = init_natural_coords parent (i + 1) rest
      (<[N.to_nat i := y (coords pt)]> q)
      (<[N.to_nat pt_idx := mkPoint2ToDOF (dof_x e) i]> p2d).
Proof.
  intros Hpt Hi He. cbn [init_natural_coords point_index point_dof].
  unfold getPointInfo, at_.
  by rewrite (index_Some _ _ _ Hpt), bind_Ok, set_index_lt, bind_Ok, He.
Qed.

Lemma insert_at_end_of_prefix {A} (pre rest : list A) (a a' : A) :
  <[length pre := a']> (pre ++ a :: rest) = pre ++ a' :: rest.
Proof.
  rewrite insert_app_r_alt by lia. by rewrite Nat.sub_diag.
Qed.

Lemma free_coords_length (pts : list Point2) :
  ∀ i, length (free_coords pts) = length (collect_DOFs i pts).
Proof.
  induction pts as [|pt rest IH]; intros i; [done|].
  cbn [free_coords collect_DOFs]. rewrite !length_app, (IH (i + 1)%N).
  by destruct (fixed pt).
Qed.

(** The loop over the degrees of freedom of the symbolic assembly, from
    any point of the definition on. *)
Lemma init_natural_coords_collect (parent : ModelDefinition) :
  ∀ (tail_pts pre_pts : list Point2) (qpre : list R)
    (pre_tab : list Point2ToDOF) (k : nat),
    points_ parent = pre_pts ++ tail_pts →
    length pre_tab = length pre_pts →
    (length (free_coords tail_pts) <= k)%nat →
    init_natural_coords parent (N.of_nat (length qpre))
      (collect_DOFs (N.of_nat (length pre_pts)) tail_pts)
      (qpre ++ replicate k 0%R)
      (pre_tab ++ replicate (length tail_pts) Point2ToDOF_default)
    = Ok (qpre ++ free_coords tail_pts
            ++ replicate (k - length (free_coords tail_pts)) 0%R,
          pre_tab ++ dof_columns (N.of_nat (length qpre)) tail_pts).
Proof.
  induction tail_pts as [|pt rest IH];
    intros pre_pts qpre pre_tab k Hpts Htab Hk.
  - cbn. by rewrite Nat.sub_0_r.
  - assert (Hpts' : points_ parent = (pre_pts ++ [pt]) ++ rest)
      by by rewrite <- app_assoc.
    assert (Hnext : (N.of_nat (length pre_pts) + 1)%N
                    = N.of_nat (length (pre_pts ++ [pt])))
      by (rewrite length_app; cbn; lia).
    cbn [collect_DOFs free_coords dof_columns length replicate] in *.
    destruct (fixed pt) eqn:Hfix.
    + cbn [app] in *. rewrite Hnext.
      replace (pre_tab ++ Point2ToDOF_default
                 :: replicate (length rest) Point2ToDOF_default)
        with ((pre_tab ++ [Point2ToDOF_default])
                ++ replicate (length rest) Point2ToDOF_default)
        by by rewrite <- app_assoc.
      rewrite (IH (pre_pts ++ [pt]) qpre (pre_tab ++ [Point2ToDOF_default]) k)
        by (done || (rewrite !length_app; cbn; lia)).
      by rewrite <- app_assoc.
    + cbn [app length] in *.
      destruct k as [|[|k]]; [lia..|]. cbn [replicate Nat.sub].
      assert (Hpt : points_ parent !! N.to_nat (N.of_nat (length pre_pts))
                    = Some pt).
      { rewrite Nat2N.id, Hpts. by apply list_lookup_middle. }
      set (i := N.of_nat (length qpre)).
      rewrite (init_natural_coords_X parent i _ _ _ _ pt Point2ToDOF_default
                 Hpt).
      2: { unfold i, size. rewrite length_app. cbn. lia. }
      2: { rewrite Nat2N.id, <- Htab. by apply list_lookup_middle. }
      rewrite (init_natural_coords_Y parent (i + 1) _ _ _ _ pt
                 (mkPoint2ToDOF i INVALID_DOF) Hpt).
      2: { unfold i, size. rewrite length_insert, length_app. cbn. lia. }
      2: { rewrite Nat2N.id, <- Htab. apply list_lookup_insert_eq.
           rewrite length_app. cbn. lia. }
      cbn [dof_x dof_y].
      replace (N.to_nat i) with (length qpre) by (unfold i; lia).
      replace (N.to_nat (i + 1)) with (length (qpre ++ [x (coords pt)]))
        by (unfold i; rewrite length_app; cbn; lia).
      rewrite Nat2N.id, <- Htab.
      rewrite !insert_at_end_of_prefix.
      replace (qpre ++ x (coords pt) :: 0%R :: replicate k 0%R)
        with ((qpre ++ [x (coords pt)]) ++ 0%R :: replicate k 0%R)
        by by rewrite <- app_assoc.
      rewrite insert_at_end_of_prefix.
      replace ((qpre ++ [x (coords pt)]) ++ y (coords pt) :: replicate k 0%R)
        with ((qpre ++ [x (coords pt); y (coords pt)]) ++ replicate k 0%R)
        by by rewrite <- !app_assoc.
      replace (pre_tab ++ mkPoint2ToDOF i (i + 1)
                 :: replicate (length rest) Point2ToDOF_default)
        with ((pre_tab ++ [mkPoint2ToDOF i (i + 1)])
                ++ replicate (length rest) Point2ToDOF_default)
        by by rewrite <- app_assoc.
      replace (i + 1 + 1)%N
        with (N.of_nat (length (qpre ++ [x (coords pt); y (coords pt)])))
        by (unfold i; rewrite length_app; cbn; lia).
      rewrite Htab, Hnext.
      rewrite (IH (pre_pts ++ [pt]) (qpre ++ [x (coords pt); y (coords pt)])
                 (pre_tab ++ [mkPoint2ToDOF i (i + 1)]) k)
        by (done || (rewrite !length_app; cbn; lia) || lia).
      f_equal. f_equal.
      * by rewrite <- !app_assoc.
      * rewrite <- app_assoc. cbn. do 3 f_equal.
        unfold i. rewrite length_app. cbn. lia.
Qed.

Lemma build_all_keeps (cs : list Constraint) :
  ∀ a, ∃ a',
    build_all cs a = Ok a' ∧
    parent_ a' = parent_ a ∧ gravity_ a' = gravity_ a ∧ q_ a' = q_ a ∧
    dotq_ a' = dotq_ a ∧ ddotq_ a' = ddotq_ a ∧ Q_ a' = Q_ a ∧
    DOFs_ a' = DOFs_ a ∧ rDOFs_ a' = rDOFs_ a ∧
    points2DOFs_ a' = points2DOFs_ a ∧ constraints_ a' = constraints_ a ∧
    relCoordinate2Index_ a' = relCoordinate2Index_ a.
Proof.
  induction cs as [|c rest IH]; intros a.
  - by exists a.
  - cbn [build_all]. unfold buildSparseStructures. rewrite bind_Ok.
    destruct (IH (snd (addNewRowToConstraints a)))
      as (a' & -> & ? & ? & ? & ? & ? & ? & ? & ? & ? & ? & ?).
    by exists a'.
Qed.

(** The loop over relative coordinates of known variants: coordinate
    number [k] gets its constraint, bound to column
    [nEuclideanDOFs + k], and that column in the reverse table. *)
Lemma add_relative_constraints_value (nE : N) (rdofs : list RelativeDOF) :
  OtherRelativeDOF ∉ rdofs →
  ∀ (pre : list dof_index_t) (cs : list Constraint),
    ∃ cs_rel,
      add_relative_constraints nE (N.of_nat (length pre)) rdofs cs
        (pre ++ replicate (length rdofs) 0%N)
      = Ok (cs ++ cs_rel,
            pre ++ ((λ k, (nE + N.of_nat k)%N)
                    <$> seq (length pre) (length rdofs))) ∧
      Some <$> cs_rel
      = imap (λ k r, relative_constraint nE (length pre + k) r) rdofs.
Proof.
  induction rdofs as [|r rest IH]; intros Hknown pre cs.
  - exists []. cbn. by rewrite !app_nil_r.
  - apply not_elem_of_cons in Hknown as [Hr Hknown].
    cbn [add_relative_constraints length replicate seq fmap list_fmap imap].
    assert (Hnext : (N.of_nat (length pre) + 1)%N
                    = N.of_nat (length (pre ++ [(nE + N.of_nat (length pre))%N])))
      by (rewrite length_app; cbn; lia).
    assert (Hins :
      set_index (pre ++ 0%N :: replicate (length rest) 0%N)
        (N.of_nat (length pre)) (nE + N.of_nat (length pre))%N
      = Ok ((pre ++ [(nE + N.of_nat (length pre))%N])
              ++ replicate (length rest) 0%N)).
    { rewrite set_index_lt by (unfold size; rewrite length_app; cbn; lia).
      rewrite Nat2N.id, insert_at_end_of_prefix. by rewrite <- app_assoc. }
    assert (Hseq : ∀ c : Constraint,
      ∃ cs_rel,
        add_relative_constraints nE (N.of_nat (length pre) + 1) rest
          (cs ++ [c])
          ((pre ++ [(nE + N.of_nat (length pre))%N])
             ++ replicate (length rest) 0%N)
        = Ok (cs ++ c :: cs_rel,
              pre ++ (nE + N.of_nat (length pre))%N
                :: ((λ k, (nE + N.of_nat k)%N)
                    <$> seq (S (length pre)) (length rest))) ∧
        Some <$> cs_rel
        = imap (λ k r, relative_constraint nE (length pre + S k) r) rest).
    { intros c. rewrite Hnext.
      destruct (IH Hknown (pre ++ [(nE + N.of_nat (length pre))%N])
                  (cs ++ [c])) as (cs_rel & -> & Hrel).
      exists cs_rel. split.
      - rewrite <- !app_assoc. cbn.
        replace (length (pre ++ [(nE + N.of_nat (length pre))%N]))
          with (S (length pre)) by (rewrite length_app; cbn; lia).
        done.
      - rewrite Hrel. apply imap_ext. intros k r' _. cbn.
        rewrite length_app. cbn. f_equal. lia. }
    destruct r as [p0 p1 p2|p0 p1|]; [| |done].
    + rewrite Hins, !bind_Ok.
      destruct (Hseq (CConstraintRelativeAngle p0 p1 p2
                        (nE + N.of_nat (length pre))))
        as (cs_rel & -> & Hrel).
      eexists (_ :: cs_rel). split; [done|].
      cbn. rewrite Nat.add_0_r. f_equal. exact Hrel.
    + rewrite Hins, !bind_Ok.
      destruct (Hseq (CConstraintRelativeAngleAbsolute p0 p1
                        (nE + N.of_nat (length pre))))
        as (cs_rel & -> & Hrel).
      eexists (_ :: cs_rel). split; [done|].
      cbn. rewrite Nat.add_0_r. f_equal. exact Hrel.
Qed.

Lemma fmap_clone (cs : list Constraint) : clone <$> cs = cs.
Proof. induction cs as [|c rest IH]; [done|]. cbn. by rewrite IH. Qed.

Lemma collect_DOFs_nonempty (pts : list Point2) (pt : Point2) (i : N) :
  pt ∈ pts → fixed pt = false → collect_DOFs i pts ≠ [].
Proof.
  intros Hin Hfree. revert i.
  induction pts as [|pt' rest IH]; intros i; [by apply elem_of_nil in Hin|].
  cbn [collect_DOFs]. apply elem_of_cons in Hin as [<- | Hin].
  - by rewrite Hfree.
  - intros [_ Hnil]%app_eq_nil. by apply (IH Hin (i + 1)%N).
Qed.

Lemma collect_DOFs_all_fixed (pts : list Point2) (i : N) :
  Forall (λ pt, fixed pt = true) pts → collect_DOFs i pts = [].
Proof.
  intros Hall. revert i. induction Hall as [|pt rest Hpt _ IH]; intros i.
  - done.
  - cbn [collect_DOFs]. by rewrite Hpt, IH.
Qed.

(** The constructor on the degrees of freedom of a symbolic assembly, with
    relative coordinates of known variants. *)
Lemma new_collected (md : ModelDefinition) (rdofs : list RelativeDOF) :
  collect_DOFs 0 (points_ md) ≠ [] → OtherRelativeDOF ∉ rdofs →
  let nE := size (collect_DOFs 0 (points_ md)) in
  ∃ a cs_rel,
    CAssembledRigidModel_new
      (mkSymbolic md (collect_DOFs 0 (points_ md)) rdofs) = Ok a ∧
    parent_ a = md ∧ gravity_ a = DEFAULT_GRAVITY ∧
    q_ a = free_coords (points_ md) ++ replicate (length rdofs) 0%R ∧
    dotq_ a = setZero (nE + size rdofs) ∧
    DOFs_ a = collect_DOFs 0 (points_ md) ∧ rDOFs_ a = rdofs ∧
    points2DOFs_ a = dof_columns 0 (points_ md) ∧
    constraints_ a = getConstraints md ++ cs_rel ∧
    Some <$> cs_rel = imap (relative_constraint nE) rdofs ∧
    relCoordinate2Index_ a
    = (λ k, (nE + N.of_nat k)%N) <$> seq 0 (length rdofs).
Proof.
  intros Hne Hknown. cbv zeta. unfold CAssembledRigidModel_new.
  cbn [DOFs rDOFs model].
  assert (Hpos : (0 <? size (collect_DOFs 0 (points_ md)))%N = true).
  { apply N.ltb_lt. unfold size.
    destruct (collect_DOFs 0 (points_ md)); [done|cbn; lia]. }
  rewrite Hpos. cbn [negb].
  pose proof (free_coords_length (points_ md) 0) as Hfc.
  pose proof (init_natural_coords_collect md (points_ md) [] [] []
                (length (collect_DOFs 0 (points_ md)) + length rdofs)
                eq_refl eq_refl) as Hinit.
  cbn [length app] in Hinit. change (N.of_nat 0) with 0%N in Hinit.
  unfold setZero, getPointCount.
  replace (N.to_nat (size (collect_DOFs 0 (points_ md)) + size rdofs))
    with (length (collect_DOFs 0 (points_ md)) + length rdofs)%nat
    by (unfold size; lia).
  replace (N.to_nat (size (points_ md))) with (length (points_ md))
    by (unfold size; lia).
  rewrite Hinit by lia. rewrite bind_Ok.
  replace (length (collect_DOFs 0 (points_ md)) + length rdofs
           - length (free_coords (points_ md)))%nat
    with (length rdofs) by lia.
  destruct (add_relative_constraints_value
              (size (collect_DOFs 0 (points_ md))) rdofs Hknown []
              (clone <$> getConstraints md)) as (cs_rel & Hrel & Hcs).
  cbn [length app] in Hrel. change (N.of_nat 0) with 0%N in Hrel.
  rewrite Hrel, bind_Ok.
  match goal with |- ∃ a _, build_all ?cs ?a0 = _ ∧ _ =>
    destruct (build_all_keeps cs a0)
      as (a & -> & Hparent & Hg & Hq & Hdq & _ & _ & HD & HR & Htab & Hc & Hr2i)
  end.
  cbn in *. exists a, cs_rel.
  rewrite Hparent, Hg, Hq, Hdq, HD, HR, Htab, Hc, Hr2i, fmap_clone.
  by split_and!.
Qed.

(** What a table of columns in a row says of one point: its columns lie in
    the state, the state holds the point's static coordinates there, and a
    fixed point has no column. *)
Lemma dof_columns_lookup (pts : list Point2) :
  ∀ (qpre tail : list R) (p : nat) (info : Point2),
    pts !! p = Some info →
    ∃ d,
      dof_columns (N.of_nat (length qpre)) pts !! p = Some d ∧
      column_in (dof_x d) (qpre ++ free_coords pts ++ tail) ∧
      column_in (dof_y d) (qpre ++ free_coords pts ++ tail) ∧
      axis_value (x (coords info)) (qpre ++ free_coords pts ++ tail) (dof_x d)
      = x (coords info) ∧
      axis_value (y (coords info)) (qpre ++ free_coords pts ++ tail) (dof_y d)
      = y (coords info) ∧
      (fixed info = true → d = Point2ToDOF_default).
Proof.
  induction pts as [|pt rest IH]; intros qpre tail p info Hp; [done|].
  cbn [dof_columns free_coords].
  destruct p as [|p].
  - injection Hp as ->. destruct (fixed info) eqn:Hfix.
    + exists Point2ToDOF_default. split_and!; try done; by left.
    + exists (mkPoint2ToDOF (N.of_nat (length qpre))
                (N.of_nat (length qpre) + 1)).
      cbn [dof_x dof_y app].
      assert (Hx : (qpre ++ x (coords info) :: y (coords info)
                      :: free_coords rest ++ tail)
                   !! N.to_nat (N.of_nat (length qpre))
                   = Some (x (coords info))).
      { rewrite Nat2N.id. by apply list_lookup_middle. }
      assert (Hy : (qpre ++ x (coords info) :: y (coords info)
                      :: free_coords rest ++ tail)
                   !! N.to_nat (N.of_nat (length qpre) + 1)
                   = Some (y (coords info))).
      { replace (N.to_nat (N.of_nat (length qpre) + 1))
          with (length (qpre ++ [x (coords info)]))
          by (rewrite length_app; cbn; lia).
        replace (qpre ++ x (coords info) :: y (coords info)
                   :: free_coords rest ++ tail)
          with ((qpre ++ [x (coords info)]) ++ y (coords info)
                   :: free_coords rest ++ tail)
          by by rewrite <- app_assoc.
        by apply list_lookup_middle. }
      split_and!; try done.
      * right. by eapply lookup_size_Some.
      * right. by eapply lookup_size_Some.
      * unfold axis_value. destruct (_ =? INVALID_DOF)%N; [done|].
        by apply nth_lookup_Some with (d := 0%R) in Hx.
      * unfold axis_value. destruct (_ =? INVALID_DOF)%N; [done|].
        by apply nth_lookup_Some with (d := 0%R) in Hy.
  - cbn in Hp. destruct (fixed pt) eqn:Hfix.
    + cbn [app]. destruct (IH qpre tail p info Hp) as (d & Hd & Hrest).
      by exists d.
    + destruct (IH (qpre ++ [x (coords pt); y (coords pt)]) tail p info Hp)
        as (d & Hd & Hrest).
      exists d. split.
      * cbn. rewrite <- Hd. do 2 f_equal. rewrite length_app. cbn. lia.
      * rewrite <- app_assoc in Hrest. exact Hrest.
Qed.

(** X6.  When the symbolic assembly of a definition returns, the
    definition has a free point and the relative coordinates are of known
    variants, the full assembly returns a model of that definition whose
    free points take the columns of [q] two by two in point order, x
    before y, while fixed points take none; [q] holds the static
    coordinates of the free points followed by a zero for each relative
    coordinate, and the velocities and the gravity are at their
    defaults. *)
Theorem assembled_model_layout (m m' : ModelDefinition)
    (armi : TSymbolicAssembledModel) (rel : option (list RelativeDOF))
    (Hsym : assembleRigidMBS m = (Ok armi, m'))
    (Hfree : ∃ pt, pt ∈ points_ m ∧ fixed pt = false)
    (Hknown : OtherRelativeDOF ∉ default [] rel) :
  ∃ a,
    assembleRigidMBS_shared m rel = (Ok a, m') ∧
    parent_ a = m' ∧
    points2DOFs_ a = dof_columns 0 (points_ m) ∧
    q_ a = free_coords (points_ m) ++ replicate (length (default [] rel)) 0%R ∧
    dotq_ a = replicate (length (q_ a)) 0%R ∧
    getGravityVector a = (0, -9.81, 0)%R.
Proof.
  destruct Hfree as (pt & Hin & Hpt).
  destruct (assembleRigidMBS_inv m m' armi Hsym) as (-> & Hp & _ & _).
  unfold assembleRigidMBS_shared. rewrite Hsym. cbn [model DOFs].
  rewrite <- Hp.
  destruct (new_collected m' (default [] rel)) as
    (a & cs_rel & Hnew & Hparent & Hg & Hq & Hdq & _ & _ & Htab & _);
    [rewrite Hp; by eapply collect_DOFs_nonempty | done |].
  exists a. split_and!; try done.
  - f_equal. rewrite <- Hnew. by destruct rel.
  - rewrite Hdq, Hq. unfold setZero. f_equal.
    rewrite length_app, length_replicate,
      (free_coords_length _ 0). unfold size. lia.
  - unfold getGravityVector. by rewrite Hg.
Qed.

Lemma fourbar_has_free_point : ∃ pt, pt ∈ points_ fourbar ∧ fixed pt = false.
Proof.
  exists (mkPoint2 (mkTPoint2D 1 0) false). split; [|done].
  apply list_elem_of_further, list_elem_of_here.
Qed.

(** The four-bar linkage with the angle of its first bar as a relative
    coordinate: columns 0 to 3 for the points 1 and 2, column 4 for the
    angle. *)
Lemma assembled_model_layout_witness :
  ∃ a,
    assembleRigidMBS_shared fourbar (Some [RelativeAngleAbsoluteDOF 0 1])
    = (Ok a, linkage_closed 1) ∧
    points2DOFs_ a = fourbar_points2DOFs ∧
    q_ a = [1; 0; 1; 2; 0]%R ∧ dotq_ a = [0; 0; 0; 0; 0]%R.
Proof.
  destruct (assembled_model_layout fourbar (linkage_closed 1) fourbar_symbolic
              (Some [RelativeAngleAbsoluteDOF 0 1])
              (linkage_assembleRigidMBS 1) fourbar_has_free_point)
    as (a & Hret & _ & Htab & Hq & Hdq & _).
  - cbn. intros [[=]|[]%elem_of_nil]%elem_of_cons.
  - exists a. split_and!; [done|done|done|]. by rewrite Hdq, Hq.
Defined.

Lemma axis_value_zeros (n : nat) (c : dof_index_t) :
  axis_value 0 (replicate n 0%R) c = 0%R.
Proof.
  unfold axis_value. destruct (c =? INVALID_DOF)%N; [done|].
  destruct (decide (N.to_nat c < n)%nat) as [Hlt|Hge].
  - apply nth_lookup_Some with (d := 0%R). by apply lookup_replicate_2.
  - apply nth_overflow. rewrite length_replicate. lia.
Qed.

(** The full assembly of a definition that has a free point. *)
Lemma assembleRigidMBS_shared_returns (m m' : ModelDefinition)
    (armi : TSymbolicAssembledModel) (rel : option (list RelativeDOF)) :
  assembleRigidMBS m = (Ok armi, m') →
  (∃ pt, pt ∈ points_ m ∧ fixed pt = false) →
  OtherRelativeDOF ∉ default [] rel →
  ∃ a,
    assembleRigidMBS_shared m rel = (Ok a, m') ∧
    points_ (parent_ a) = points_ m ∧
    points2DOFs_ a = dof_columns 0 (points_ m) ∧
    q_ a = free_coords (points_ m) ++ replicate (length (default [] rel)) 0%R ∧
    dotq_ a = replicate (length (q_ a)) 0%R.
Proof.
  intros Hsym (pt & Hin & Hpt) Hknown.
  destruct (assembleRigidMBS_inv m m' armi Hsym) as (-> & Hp & _ & _).
  unfold assembleRigidMBS_shared. rewrite Hsym. cbn [model DOFs].
  rewrite <- Hp.
  destruct (new_collected m' (default [] rel)) as
    (a & cs_rel & Hnew & Hparent & Hg & Hq & Hdq & _ & _ & Htab & _);
    [rewrite Hp; by eapply collect_DOFs_nonempty | done |].
  exists a. split_and!; try done.
  - f_equal. rewrite <- Hnew. by destruct rel.
  - by rewrite Hparent.
  - rewrite Hdq, Hq. unfold setZero. f_equal.
    rewrite length_app, length_replicate,
      (free_coords_length _ 0). unfold size. lia.
Qed.

(** X7.  Right after the full assembly the model stands where the
    definition puts it: every point is read at its static coordinates,
    with velocity zero. *)
Theorem assembled_model_initial_state (m m' : ModelDefinition)
    (armi : TSymbolicAssembledModel) (rel : option (list RelativeDOF))
    (Hsym : assembleRigidMBS m = (Ok armi, m'))
    (Hfree : ∃ pt, pt ∈ points_ m ∧ fixed pt = false)
    (Hknown : OtherRelativeDOF ∉ default [] rel) :
  ∃ a,
    assembleRigidMBS_shared m rel = (Ok a, m') ∧
    ∀ (p : N) (info : Point2),
      points_ m !! N.to_nat p = Some info →
      getPointCurrentCoords a p = Ok (coords info) ∧
      getPointCurrentVelocity a p = Ok (mkTPoint2D 0 0).
Proof.
  destruct (assembleRigidMBS_shared_returns m m' armi rel Hsym Hfree Hknown)
    as (a & Hret & Hpts & Htab & Hq & Hdq).
  exists a. split; [done|]. intros p info Hinfo.
  destruct (dof_columns_lookup (points_ m) []
              (replicate (length (default [] rel)) 0%R) _ _ Hinfo)
    as (d & Hd & Hcx & Hcy & Hx & Hy & _).
  cbn [app length] in *. change (N.of_nat 0) with 0%N in Hd.
  rewrite <- Hq in Hcx, Hcy, Hx, Hy. rewrite <- Htab in Hd.
  rewrite <- Hpts in Hinfo.
  assert (Hsz : size (q_ a) = size (dotq_ a)).
  { unfold size. by rewrite Hdq, length_replicate. }
  split.
  - rewrite (getPointCurrentCoords_value a p info d Hinfo Hd Hcx Hcy).
    rewrite Hx, Hy. by destruct (coords info).
  - rewrite (getPointCurrentVelocity_value a p d Hd
               (column_in_size _ _ _ Hsz Hcx) (column_in_size _ _ _ Hsz Hcy)).
    by rewrite Hdq, !axis_value_zeros.
Qed.

Lemma assembled_model_initial_state_witness :
  ∃ a,
    assembleRigidMBS_shared fourbar None = (Ok a, linkage_closed 1) ∧
    getPointCurrentCoords a 2 = Ok (mkTPoint2D 1 2) ∧
    getPointCurrentCoords a 3 = Ok (mkTPoint2D 4 0) ∧
    getPointCurrentVelocity a 2 = Ok (mkTPoint2D 0 0).
Proof.
  destruct (assembled_model_initial_state fourbar (linkage_closed 1)
              fourbar_symbolic None (linkage_assembleRigidMBS 1)
              fourbar_has_free_point)
    as (a & Hret & Hinit); [apply not_elem_of_nil|].
  exists a. split_and!; [done|..].
  - by destruct (Hinit 2%N _ eq_refl).
  - by destruct (Hinit 3%N _ eq_refl).
  - by destruct (Hinit 2%N _ eq_refl).
Defined.

(** X8.  In an assembled model a point that the definition fixes is read
    at its static coordinates and at velocity zero whatever the state
    vectors hold, of whatever length they are. *)
Theorem fixed_point_ignores_state (m m' : ModelDefinition)
    (armi : TSymbolicAssembledModel) (rel : option (list RelativeDOF))
    (Hsym : assembleRigidMBS m = (Ok armi, m'))
    (Hfree : ∃ pt, pt ∈ points_ m ∧ fixed pt = false)
    (Hknown : OtherRelativeDOF ∉ default [] rel) :
  ∃ a,
    assembleRigidMBS_shared m rel = (Ok a, m') ∧
    ∀ (q dq : list R) (p : N) (info : Point2),
      points_ m !! N.to_nat p = Some info → fixed info = true →
      getPointCurrentCoords (set_state q dq a) p = Ok (coords info) ∧
      getPointCurrentVelocity (set_state q dq a) p = Ok (mkTPoint2D 0 0).
Proof.
  destruct (assembleRigidMBS_shared_returns m m' armi rel Hsym Hfree Hknown)
    as (a & Hret & Hpts & Htab & _ & _).
  exists a. split; [done|]. intros q dq p info Hinfo Hfix.
  destruct (dof_columns_lookup (points_ m) [] [] _ _ Hinfo)
    as (d & Hd & _ & _ & _ & _ & Hdef).
  rewrite (Hdef Hfix) in Hd. change (N.of_nat (length [])) with 0%N in Hd.
  rewrite <- Htab in Hd. rewrite <- Hpts in Hinfo.
  split.
  - rewrite (getPointCurrentCoords_value (set_state q dq a) p info
               Point2ToDOF_default Hinfo Hd); [|by left..].
    cbn. by destruct (coords info).
  - by rewrite (getPointCurrentVelocity_value (set_state q dq a) p
                  Point2ToDOF_default Hd); [|by left..].
Qed.

(** The ground point 3 of the four-bar linkage, under a state that moves
    everything else and under an empty state. *)
Lemma fixed_point_ignores_state_witness :
  ∃ a,
    assembleRigidMBS_shared fourbar None = (Ok a, linkage_closed 1) ∧
    getPointCurrentCoords (set_state [7; 7; 7; 7]%R [1; 1; 1; 1]%R a) 3
    = Ok (mkTPoint2D 4 0) ∧
    getPointCurrentVelocity (set_state [] [] a) 3 = Ok (mkTPoint2D 0 0).
Proof.
  destruct (fixed_point_ignores_state fourbar (linkage_closed 1)
              fourbar_symbolic None (linkage_assembleRigidMBS 1)
              fourbar_has_free_point)
    as (a & Hret & Hfix); [apply not_elem_of_nil|].
  exists a. split_and!; [done|..].
  - by destruct (Hfix [7; 7; 7; 7]%R [1; 1; 1; 1]%R 3%N _ eq_refl eq_refl).
  - by destruct (Hfix [] [] 3%N _ eq_refl eq_refl).
Defined.

(** X9.  With every point of the definition fixed, the full assembly
    throws in the constructor: no model without a Euclidean degree of
    freedom comes to exist. *)
Theorem all_fixed_assembly_throws (m m' : ModelDefinition)
    (armi : TSymbolicAssembledModel) (rel : option (list RelativeDOF))
    (Hsym : assembleRigidMBS m = (Ok armi, m'))
    (Hfixed : Forall (λ pt, fixed pt = true) (points_ m)) :
  assembleRigidMBS_shared m rel
  = (Throw "Trying to assemble model with 0 Natural Coordinate DOFs", m').
Proof.
  destruct (assembleRigidMBS_inv m m' armi Hsym) as (-> & _ & _ & _).
  unfold assembleRigidMBS_shared. rewrite Hsym. cbn [model DOFs].
  rewrite (collect_DOFs_all_fixed _ 0 Hfixed).
  by destruct rel.
Qed.

Lemma all_fixed_assembly_throws_witness :
  (assembleRigidMBS_shared grounded (Some [RelativeAngleAbsoluteDOF 0 1])).1
  = Throw "Trying to assemble model with 0 Natural Coordinate DOFs".
Proof.
  rewrite (all_fixed_assembly_throws grounded _ _ _ eq_refl); [done|].
  by repeat constructor.
Defined.

Lemma add_relative_constraints_known (nE i : N) (rdofs : list RelativeDOF)
    (cs : list Constraint) (r2i : list dof_index_t)
    (out : list Constraint * list dof_index_t) :
  add_relative_constraints nE i rdofs cs r2i = Ok out →
  OtherRelativeDOF ∉ rdofs.
Proof.
  intros H Hin.
  pose proof (add_relative_constraints_unknown nE rdofs Hin i cs r2i) as Hf.
  by rewrite H in Hf.
Qed.

(** X10.  Whenever the constructor returns, the constraints of the model
    are those of the definition followed by one constraint per relative
    coordinate, in order; the constraint of relative coordinate [k] is
    bound to column |Euclidean DOFs| + k of the state, and the reverse
    table of the relative coordinates holds that column at [k]. *)
Theorem relative_coordinates_bound (armi : TSymbolicAssembledModel)
    (a : CAssembledRigidModel)
    (Hnew : CAssembledRigidModel_new armi = Ok a) :
  let nE := size (DOFs armi) in
  ∃ cs_rel,
    constraints_ a = getConstraints (model armi) ++ cs_rel ∧
    Some <$> cs_rel = imap (relative_constraint nE) (rDOFs armi) ∧
    relCoordinate2Index_ a
    = (λ k, (nE + N.of_nat k)%N) <$> seq 0 (length (rDOFs armi)).
Proof.
  cbv zeta. unfold CAssembledRigidModel_new in Hnew.
  destruct (negb (0 <? size (DOFs armi))%N); [done|].
  apply bind_inv in Hnew as ([q p2d] & _ & Hnew).
  apply bind_inv in Hnew as ([cs r2i] & Hrel & Hnew).
  pose proof (add_relative_constraints_known _ _ _ _ _ _ Hrel) as Hknown.
  destruct (add_relative_constraints_value (size (DOFs armi)) (rDOFs armi)
              Hknown [] (clone <$> getConstraints (model armi)))
    as (cs_rel & Hval & Hcs).
  cbn [length app] in Hval. change (N.of_nat 0) with 0%N in Hval.
  rewrite Hval in Hrel. injection Hrel as <- <-.
  match type of Hnew with build_all _ ?a0 = _ =>
    destruct (build_all_keeps
                ((clone <$> getConstraints (model armi)) ++ cs_rel) a0)
      as (a' & Hb & _ & _ & _ & _ & _ & _ & _ & _ & _ & Hc & Hr)
  end.
  rewrite Hb in Hnew. injection Hnew as <-.
  exists cs_rel. split_and!.
  - rewrite Hc. cbn. by rewrite fmap_clone.
  - rewrite Hcs. by apply imap_ext.
  - by rewrite Hr.
Qed.

(** The four-bar linkage with the absolute angle of its crank and the
    angle between crank and coupler as relative coordinates: columns 4
    and 5. *)
Lemma relative_coordinates_bound_witness :
  ∃ a,
    CAssembledRigidModel_new
      (mkSymbolic (linkage_closed 1) fourbar_DOFs
         [RelativeAngleAbsoluteDOF 0 1; RelativeAngleDOF 0 1 2]) = Ok a ∧
    relCoordinate2Index_ a = [4; 5]%N ∧
    ∃ cs_rel,
      constraints_ a = linkage_constraints 1 ++ cs_rel ∧
      Some <$> cs_rel = [Some (CConstraintRelativeAngleAbsolute 0 1 4);
                         Some (CConstraintRelativeAngle 0 1 2 5)].
Proof.
  destruct (new_collected (linkage_closed 1)
              [RelativeAngleAbsoluteDOF 0 1; RelativeAngleDOF 0 1 2])
    as (a & _ & Hnew & _); [done| |].
  { intros H. repeat (apply elem_of_cons in H as [H|H]; [done|]).
    by apply elem_of_nil in H. }
  exists a. split; [exact Hnew|].
  destruct (relative_coordinates_bound _ a Hnew) as (cs_rel & Hc & Hs & Hr).
  split; [exact Hr|]. exists cs_rel. by split.
Defined.

Lemma init_natural_coords_z (parent : ModelDefinition)
    (pre : list NaturalCoordDOF) (p : N) (rest : list NaturalCoordDOF) :
  ∀ i q p2d,
    Forall (natural_coord_ok parent) pre →
    (p < getPointCount parent)%N →
    (N.to_nat i + length pre <= length q)%nat →
    length p2d = length (points_ parent) →
    init_natural_coords parent i (pre ++ mkDOF p PointDOF.Z :: rest) q p2d
    = Throw "Unexpected value for DOFs_[i].point_dof".
Proof.
  induction pre as [|d pre' IH]; intros i q p2d Hok Hp Hq Hlen.
  - cbn [app init_natural_coords point_index point_dof].
    destruct (lookup_size_lt _ _ Hp) as [pt Hpt].
    unfold getPointInfo. by rewrite (index_Some _ _ _ Hpt), bind_Ok.
  - apply Forall_cons in Hok as [[Hidx Haxis] Hok].
    cbn [app init_natural_coords length] in *.
    destruct (lookup_size_lt _ _ Hidx) as [pt Hpt].
    unfold getPointInfo. rewrite (index_Some _ _ _ Hpt), bind_Ok.
    destruct (lookup_lt_is_Some_2 p2d (N.to_nat (point_index d))) as [e He].
    { rewrite Hlen. by eapply lookup_lt_Some. }
    assert (Hat : at_ p2d (point_index d) = Ok e) by (unfold at_; by rewrite He).
    destruct (point_dof d); [| |done];
      rewrite set_index_lt, bind_Ok, Hat, !bind_Ok by (unfold size; lia);
      (apply IH; [done | done | rewrite length_insert; lia
                 | by rewrite length_insert]).
Qed.

(** X11.  A degree of freedom along z, after degrees of freedom that are
    in order and on a point of the definition, makes the constructor
    throw: the planar model has x and y columns only. *)
Theorem constructor_rejects_z_axis (armi : TSymbolicAssembledModel)
    (pre : list NaturalCoordDOF) (p : N) (rest : list NaturalCoordDOF)
    (HDOFs : DOFs armi = pre ++ mkDOF p PointDOF.Z :: rest)
    (Hpre : Forall (natural_coord_ok (model armi)) pre)
    (Hp : (p < getPointCount (model armi))%N) :
  CAssembledRigidModel_new armi
  = Throw "Unexpected value for DOFs_[i].point_dof".
Proof.
  unfold CAssembledRigidModel_new.
  assert (Hpos : (0 <? size (DOFs armi))%N = true).
  { apply N.ltb_lt. unfold size. rewrite HDOFs, length_app. cbn. lia. }
  rewrite Hpos. cbn [negb]. rewrite HDOFs.
  rewrite init_natural_coords_z; [done|done|done| |].
  - unfold setZero, size. rewrite length_replicate, length_app. cbn. lia.
  - rewrite length_replicate. unfold getPointCount, size. lia.
Qed.

Lemma constructor_rejects_z_axis_witness :
  CAssembledRigidModel_new
    (mkSymbolic (linkage_closed 1)
       [mkDOF 1 PointDOF.X; mkDOF 2 PointDOF.Z; mkDOF 1 PointDOF.Y] [])
  = Throw "Unexpected value for DOFs_[i].point_dof".
Proof.
  apply (constructor_rejects_z_axis _ [mkDOF 1 PointDOF.X] 2
           [mkDOF 1 PointDOF.Y]); [done| |done].
  by repeat constructor.
Defined.

(** ** More on the gyroscope factor *)

Lemma apart_not_null (p0 p1 : TPoint2D) :
  p0 ≠ p1 →
  ((x p1 - x p0) * (x p1 - x p0) + (y p1 - y p0) * (y p1 - y p0) ≠ 0)%R.
Proof.
  intros Hsep Hz. apply Hsep. destruct p0 as [x0 y0], p1 as [x1 y1].
  cbn in Hz.
  set (dx := (x1 - x0)%R) in *. set (dy := (y1 - y0)%R) in *.
  assert (Hx : dx = 0%R) by nra. assert (Hy : dy = 0%R) by nra.
  unfold dx, dy in *. f_equal; lra.
Qed.

(** X12.  A body index beyond the bodies of the model makes the factor
    throw, after the guards on the vectors; by then the state of the
    shared model has been overwritten, and it stays so. *)
Theorem gyroscope_unknown_body (f : FactorGyroscope)
    (a : CAssembledRigidModel) (q_k dq_k : list R) (H1 H2 : bool)
    (Hsize : size dq_k = size q_k) (Hpos : (1 <= size q_k)%N)
    (Hbody : (size (getBodies (parent_ a)) <= m_body_idx f)%N) :
  evaluateError f a q_k dq_k H1 H2
  = (Throw "ASSERT_BELOW_(m_body_idx, bodies.size())",
     set_state q_k dq_k a).
Proof.
  rewrite evaluateError_guards by done. f_equal.
  unfold evaluateError_body. cbn [parent_ set_state].
  by replace (m_body_idx f <? size (getBodies (parent_ a)))%N with false
    by (symmetry; by apply N.ltb_ge).
Qed.

Lemma gyroscope_unknown_body_witness :
  evaluateError (mkFactorGyroscope 3 0) fourbar_arm
    [5; 5; 5; 5]%R [1; 1; 1; 1]%R true true
  = (Throw "ASSERT_BELOW_(m_body_idx, bodies.size())",
     fourbar_at [5; 5; 5; 5]%R [1; 1; 1; 1]%R).
Proof.
  apply (gyroscope_unknown_body (mkFactorGyroscope 3 0) fourbar_arm);
    [reflexivity | apply N.leb_le; reflexivity | apply N.leb_le; reflexivity].
Defined.

(** X13.  When the two reference points move as points of a rigid body
    that turns at rate [ω], that is with relative velocity [ω] times the
    segment between them turned by +90 degrees, the error of the factor
    is [ω] minus the reading, wherever the body is and however long the
    segment. *)
Theorem gyroscope_rigid_rotation (f : FactorGyroscope)
    (a : CAssembledRigidModel) (q_k dq_k : list R) (H1 H2 : bool)
    (b : Body) (i0 i1 : N) (p0 p1 v0 v1 : TPoint2D) (ω : R)
    (Hok : dof_table_ok a)
    (Href : reference_points a (m_body_idx f) b i0 i1)
    (Hlen : (length (DOFs_ a) <= length q_k)%nat)
    (Hsize : size dq_k = size q_k) (Hpos : (1 <= size q_k)%N)
    (Hp0 : getPointCurrentCoords (set_state q_k dq_k a) i0 = Ok p0)
    (Hp1 : getPointCurrentCoords (set_state q_k dq_k a) i1 = Ok p1)
    (Hv0 : getPointCurrentVelocity (set_state q_k dq_k a) i0 = Ok v0)
    (Hv1 : getPointCurrentVelocity (set_state q_k dq_k a) i1 = Ok v1)
    (Hsep : p0 ≠ p1)
    (Hrot : TPoint2D_minus v1 v0
            = TPoint2D_scale (rot90 (TPoint2D_minus p1 p0)) ω) :
  ∃ e,
    (evaluateError f a q_k dq_k H1 H2).1 = Ok e ∧
    err e = [(ω - m_reading f)%R].
Proof.
  destruct (evaluateError_returns f a q_k dq_k H1 H2 b i0 i1
              Hok Href Hlen Hsize Hpos)
    as (info0 & info1 & d0 & d1 & _ & _ & _ & _ & Hp0' & Hp1'
        & Hv0' & Hv1' & row1 & row2 & _ & _ & Heval).
  cbv zeta in *.
  rewrite Hp0 in Hp0'. injection Hp0' as E0.
  rewrite Hp1 in Hp1'. injection Hp1' as E1.
  rewrite Hv0 in Hv0'. injection Hv0' as E2.
  rewrite Hv1 in Hv1'. injection Hv1' as E3.
  rewrite <- E0, <- E1, <- E2, <- E3 in Heval.
  rewrite Heval. eexists. split; [done|]. cbn [err]. f_equal.
  rewrite gyro_rate_closed. unfold rate_closed.
  pose proof (apart_not_null p0 p1 Hsep) as HD.
  injection Hrot as Hx Hy. cbn in Hx, Hy.
  rewrite Hx, Hy. field. exact HD.
Qed.

(** The first bar of the four-bar linkage turning about the ground point
    at rate 3, read as 1. *)
Lemma gyroscope_rigid_rotation_witness :
  ∃ e,
    (evaluateError (mkFactorGyroscope 0 1) fourbar_arm
       [1; 0; 1; 2]%R [0; 3; 0; 0]%R false false).1 = Ok e ∧
    err e = [(3 - 1)%R].
Proof.
  apply (gyroscope_rigid_rotation (mkFactorGyroscope 0 1) fourbar_arm
           [1; 0; 1; 2]%R [0; 3; 0; 0]%R false false (bar 0 1 1) 0 1
           (mkTPoint2D 0 0) (mkTPoint2D 1 0)
           (mkTPoint2D 0 0) (mkTPoint2D 0 3) 3
           (linkage_dof_table_ok 1 _ _) (linkage_reference_points 1 _ _));
    [apply le_n | reflexivity | apply N.leb_le; reflexivity
     | reflexivity | reflexivity | reflexivity | reflexivity
     | intros [= H0]; lra | ].
  unfold TPoint2D_minus, TPoint2D_scale, rot90. cbn [x y]. f_equal; ring.
Defined.

(** X14.  What a call returns does not depend on the state the shared
    model was in; and a second call with the same arguments returns the
    same and leaves the model as the first call left it. *)
Theorem gyroscope_prior_state_irrelevant (f : FactorGyroscope)
    (a : CAssembledRigidModel) (q0 dq0 q_k dq_k : list R) (H1 H2 : bool) :
  (evaluateError f (set_state q0 dq0 a) q_k dq_k H1 H2).1
  = (evaluateError f a q_k dq_k H1 H2).1 ∧
  evaluateError f (evaluateError f a q_k dq_k H1 H2).2 q_k dq_k H1 H2
  = evaluateError f a q_k dq_k H1 H2.
Proof.
  unfold evaluateError.
  destruct (negb (size dq_k =? size q_k)%N) eqn:E1; [done|].
  destruct (size q_k <? 1)%N eqn:E2; [done|].
  done.
Qed.

(** ** The error is linear in the velocities *)

Lemma Rsum_zip_insert (row : list R) :
  ∀ (i : nat) (v : R) (dq : list R),
    (i < length row)%nat →
    Rsum (zip_with Rmult (<[i := v]> row) dq)
    = (Rsum (zip_with Rmult row dq) + (v - nth i row 0) * nth i dq 0)%R.
Proof.
  induction row as [|r rest IH]; intros i v dq Hi; [cbn in Hi; lia|].
  destruct dq as [|d ds].
  - destruct i; cbn; ring.
  - destruct i as [|i'].
    + cbn. ring.
    + cbn in Hi. cbn. unfold Rsum in IH. rewrite IH by lia. ring.
Qed.

Lemma dot_with_column (c : dof_index_t) (v : R) (row dq : list R) :
  column_in c row →
  dot (with_column c v row) dq
  = (dot row dq + (v - axis_value 0 row c) * axis_value 0 dq c)%R.
Proof.
  intros Hc. unfold dot, with_column, axis_value.
  destruct (N.eqb_spec c INVALID_DOF) as [|Hv]; [ring|].
  destruct Hc as [|Hc]; [done|].
  apply Rsum_zip_insert. unfold size in Hc. lia.
Qed.

Lemma axis_value_with_column (c c' : dof_index_t) (v : R) (row : list R) :
  (c = c' → c = INVALID_DOF) →
  axis_value 0 (with_column c v row) c' = axis_value 0 row c'.
Proof.
  intros Hapart. unfold axis_value, with_column.
  destruct (N.eqb_spec c' INVALID_DOF) as [|Hv']; [done|].
  destruct (N.eqb_spec c INVALID_DOF) as [|Hv]; [done|].
  assert (Hne : N.to_nat c ≠ N.to_nat c') by (intros H; apply Hv, Hapart; lia).
  destruct (decide (N.to_nat c' < length row)%nat) as [Hlt|Hge].
  - destruct (lookup_lt_is_Some_2 row _ Hlt) as [r Hr].
    rewrite (nth_lookup_Some _ _ 0%R _ Hr).
    apply nth_lookup_Some with (d := 0%R).
    by rewrite list_lookup_insert_ne.
  - rewrite !nth_overflow; [done|lia|rewrite length_insert; lia].
Qed.

Lemma dot_setZero (n : N) (dq : list R) : dot (setZero n) dq = 0%R.
Proof.
  unfold dot, setZero. generalize (N.to_nat n) as k. intros k. revert dq.
  induction k as [|k IH]; intros [|d ds]; cbn; try done.
  unfold Rsum in IH. rewrite IH. ring.
Qed.

(** The product of a row of zeros after the four writes with a vector:
    each value written meets the entry of the vector in its column. *)
Lemma dot_four_writes (n : N) (d0 d1 : Point2ToDOF) (e1 e2 e3 e4 : R)
    (dq : list R) :
  columns_apart d0 d1 →
  column_in (dof_x d0) (setZero n) → column_in (dof_y d0) (setZero n) →
  column_in (dof_x d1) (setZero n) → column_in (dof_y d1) (setZero n) →
  dot (with_column (dof_y d1) e4
         (with_column (dof_x d1) e3
            (with_column (dof_y d0) e2
               (with_column (dof_x d0) e1 (setZero n))))) dq
  = (e1 * axis_value 0 dq (dof_x d0) + e2 * axis_value 0 dq (dof_y d0) +
     e3 * axis_value 0 dq (dof_x d1) + e4 * axis_value 0 dq (dof_y d1))%R.
Proof.
  intros Hapart Hx0 Hy0 Hx1 Hy1.
  assert (A01 : dof_x d0 = dof_y d0 → dof_x d0 = INVALID_DOF)
    by (intros E; apply (Hapart 0%nat 1%nat); [lia|done|cbn; by rewrite E]).
  assert (A02 : dof_x d0 = dof_x d1 → dof_x d0 = INVALID_DOF)
    by (intros E; apply (Hapart 0%nat 2%nat); [lia|done|cbn; by rewrite E]).
  assert (A03 : dof_x d0 = dof_y d1 → dof_x d0 = INVALID_DOF)
    by (intros E; apply (Hapart 0%nat 3%nat); [lia|done|cbn; by rewrite E]).
  assert (A12 : dof_y d0 = dof_x d1 → dof_y d0 = INVALID_DOF)
    by (intros E; apply (Hapart 1%nat 2%nat); [lia|done|cbn; by rewrite E]).
  assert (A13 : dof_y d0 = dof_y d1 → dof_y d0 = INVALID_DOF)
    by (intros E; apply (Hapart 1%nat 3%nat); [lia|done|cbn; by rewrite E]).
  assert (A23 : dof_x d1 = dof_y d1 → dof_x d1 = INVALID_DOF)
    by (intros E; apply (Hapart 2%nat 3%nat); [lia|done|cbn; by rewrite E]).
  rewrite !dot_with_column by (repeat apply column_in_with_column; done).
  rewrite !axis_value_with_column by done.
  rewrite dot_setZero. unfold setZero. rewrite !axis_value_zeros. ring.
Qed.

(** X15.  The error is linear in the velocities: it is the product of
    the Jacobian [H2] that the same call hands back with [dq_k], minus
    the reading. *)
Theorem gyroscope_linear_in_velocity (f : FactorGyroscope)
    (a : CAssembledRigidModel) (q_k dq_k : list R) (H1 : bool)
    (b : Body) (i0 i1 : N) (p0 p1 : TPoint2D)
    (Hok : dof_table_ok a)
    (Href : reference_points a (m_body_idx f) b i0 i1)
    (Hlen : (length (DOFs_ a) <= length q_k)%nat)
    (Hsize : size dq_k = size q_k) (Hpos : (1 <= size q_k)%N)
    (Hp0 : getPointCurrentCoords (set_state q_k dq_k a) i0 = Ok p0)
    (Hp1 : getPointCurrentCoords (set_state q_k dq_k a) i1 = Ok p1)
    (Hsep : p0 ≠ p1) :
  ∃ e row2,
    (evaluateError f a q_k dq_k H1 true).1 = Ok e ∧
    H2_out e = Some row2 ∧
    err e = [(dot row2 dq_k - m_reading f)%R].
Proof.
  assert (Hne : i0 ≠ i1).
  { intros ->. rewrite Hp0 in Hp1. by injection Hp1. }
  destruct (evaluateError_returns f a q_k dq_k H1 true b i0 i1
              Hok Href Hlen Hsize Hpos)
    as (info0 & info1 & d0 & d1 & _ & _ & Hd0 & Hd1 & Hp0' & Hp1'
        & _ & _ & row1 & row2 & _ & Hrow2 & Heval).
  cbv zeta in *.
  rewrite Hp0 in Hp0'. injection Hp0' as E0.
  rewrite Hp1 in Hp1'. injection Hp1' as E1.
  rewrite <- E0, <- E1 in Heval, Hrow2.
  destruct (dof_table_columns a i0 d0 q_k Hok Hd0 Hlen) as [Hx0 Hy0].
  destruct (dof_table_columns a i1 d1 q_k Hok Hd1 Hlen) as [Hx1 Hy1].
  pose proof (dof_table_columns_apart a i0 i1 d0 d1 Hok Hne Hd0 Hd1)
    as Hapart.
  assert (Hz : ∀ c, column_in c q_k → column_in c (setZero (size q_k))).
  { intros c. apply column_in_size. by rewrite size_setZero. }
  unfold jacobian_dq in Hrow2.
  rewrite four_writes in Hrow2 by (by apply Hz).
  injection Hrow2 as <-.
  rewrite Heval. eexists _, _. split_and!; [done|done|]. cbn [err]. f_equal.
  rewrite dot_four_writes by (done || by apply Hz).
  rewrite gyro_rate_closed. unfold rate_closed. cbn [x y].
  pose proof (apart_not_null p0 p1 Hsep) as HD.
  pose proof (inv_norm_sq (TPoint2D_minus p1 p0)) as Hli. cbn [x y TPoint2D_minus] in Hli.
  set (li := (1 / norm (TPoint2D_minus p1 p0))%R) in *.
  set (vx0 := axis_value 0 dq_k (dof_x d0)).
  set (vy0 := axis_value 0 dq_k (dof_y d0)).
  set (vx1 := axis_value 0 dq_k (dof_x d1)).
  set (vy1 := axis_value 0 dq_k (dof_y d1)).
  transitivity
    (li * li * ((vy1 - vy0) * (x p1 - x p0) - (vx1 - vx0) * (y p1 - y p0))
     - m_reading f)%R; [|ring].
  rewrite Hli. field. exact HD.
Qed.

(** The first bar of the four-bar linkage, its free end moving at (2, 1):
    the row [H2] times the velocities gives the rate. *)
Lemma gyroscope_linear_in_velocity_witness :
  ∃ e row2,
    (evaluateError (mkFactorGyroscope 0 (1 / 2)) fourbar_arm
       [1; 0; 1; 2]%R [2; 1; 0; 0]%R false true).1 = Ok e ∧
    H2_out e = Some row2 ∧
    err e = [(dot row2 [2; 1; 0; 0] - 1 / 2)%R].
Proof.
  apply (gyroscope_linear_in_velocity (mkFactorGyroscope 0 (1 / 2))
           fourbar_arm [1; 0; 1; 2]%R [2; 1; 0; 0]%R false (bar 0 1 1) 0 1
           (mkTPoint2D 0 0) (mkTPoint2D 1 0)
           (linkage_dof_table_ok 1 _ _) (linkage_reference_points 1 _ _));
    [apply le_n | reflexivity | apply N.leb_le; reflexivity
     | reflexivity | reflexivity | intros [= H0]; lra].
Defined.

(** ** More on the body frame, the copy of the state and the energy *)

(** X16.  With a positive stored length, the offset (0, 0) of a body is
    its first reference point, the offset (L, 0) its second, and the
    offset (0, L) the first point plus the segment turned by +90
    degrees; this holds whether or not [L] is the distance between the
    two points. *)
Theorem body_frame_endpoints (_DEBUG : bool) (a : CAssembledRigidModel)
    (body_index : N) (b : Body) (i0 i1 : N) (p0 p1 : TPoint2D)
    (Href : reference_points a body_index b i0 i1)
    (H0 : getPointCurrentCoords a i0 = Ok p0)
    (H1 : getPointCurrentCoords a i1 = Ok p1)
    (HL : (length_ b > 0)%R) :
  getPointOnBodyCurrentCoords _DEBUG a body_index (mkTPoint2D 0 0) = Ok p0 ∧
  getPointOnBodyCurrentCoords _DEBUG a body_index (mkTPoint2D (length_ b) 0)
  = Ok p1 ∧
  getPointOnBodyCurrentCoords _DEBUG a body_index (mkTPoint2D 0 (length_ b))
  = Ok (mkTPoint2D (x p0 - (y p1 - y p0)) (y p0 + (x p1 - x p0))).
Proof.
  rewrite !(getPointOnBodyCurrentCoords_value _DEBUG a body_index _ b i0 i1
              p0 p1 Href H0 H1).
  rewrite (Rgtb_true _ _ HL), andb_false_r.
  destruct p0 as [x0 y0], p1 as [x1 y1].
  unfold frame_point, scaled_director, rot90, TPoint2D_minus. cbn [x y].
  split_and!; f_equal; f_equal; field; lra.
Qed.

(** The coupler of the four-bar linkage, of stored length 2. *)
Lemma body_frame_endpoints_witness :
  getPointOnBodyCurrentCoords true fourbar_arm 1 (mkTPoint2D 2 0)
  = Ok (mkTPoint2D 1 2).
Proof.
  assert (HL : (length_ (bar 1 2 2) > 0)%R) by (cbn; lra).
  destruct (body_frame_endpoints true fourbar_arm 1 (bar 1 2 2) 1 2
              (mkTPoint2D 1 0) (mkTPoint2D 1 2)) as (_ & Hend & _);
    [by split_and! | reflexivity | reflexivity | exact HL | exact Hend].
Defined.

(** X17.  The release build copies the state whatever the sizes of the
    two models; the debug build returns exactly when the two models
    agree on the sizes of [q], [dq], the degrees of freedom and the
    constraints, and it names the first size that differs. *)
Theorem copyStateFrom_checks (this o : CAssembledRigidModel) :
  copyStateFrom false this o = Ok (set_state (q_ o) (dotq_ o) this) ∧
  ((∃ this', copyStateFrom true this o = Ok this') ↔
   size (q_ this) = size (q_ o) ∧ size (dotq_ this) = size (dotq_ o) ∧
   size (DOFs_ this) = size (DOFs_ o) ∧ Phi_ this = Phi_ o) ∧
  (size (q_ this) ≠ size (q_ o) →
   copyStateFrom true this o = Throw "this->q_.size() == o.q_.size()") ∧
  (size (q_ this) = size (q_ o) → size (dotq_ this) ≠ size (dotq_ o) →
   copyStateFrom true this o = Throw "this->dotq_.size() == o.dotq_.size()").
Proof.
  unfold copyStateFrom, ASSERT_. split_and!.
  - done.
  - split.
    + intros [this' H].
      destruct (N.eqb_spec (size (q_ this)) (size (q_ o))); [|done].
      destruct (N.eqb_spec (size (dotq_ this)) (size (dotq_ o))); [|done].
      destruct (N.eqb_spec (size (DOFs_ this)) (size (DOFs_ o))); [|done].
      by destruct (N.eqb_spec (Phi_ this) (Phi_ o)).
    + intros (-> & -> & -> & ->). rewrite !N.eqb_refl. by eexists.
  - intros Hne. by destruct (N.eqb_spec (size (q_ this)) (size (q_ o))).
  - intros -> Hne. rewrite N.eqb_refl.
    by destruct (N.eqb_spec (size (dotq_ this)) (size (dotq_ o))).
Qed.

Lemma energy_of_body_gz (_DEBUG : bool) (a : CAssembledRigidModel)
    (gx gy gz gz' : R) (i : N) (b : Body) (acc : R * R) :
  energy_of_body _DEBUG (setGravityVector gx gy gz a) i b acc
  = energy_of_body _DEBUG (setGravityVector gx gy gz' a) i b acc.
Proof.
  unfold energy_of_body.
  destruct (index (points b) 0) as [i0| |]; [|done..].
  destruct (index (points b) 1) as [i1| |]; [|done..].
  rewrite !bind_Ok.
  change (getPointCurrentVelocity (setGravityVector gx gy gz a))
    with (getPointCurrentVelocity (setGravityVector gx gy gz' a)).
  destruct (getPointCurrentVelocity _ i0) as [dq0| |]; [|done..].
  destruct (getPointCurrentVelocity _ i1) as [dq1| |]; [|done..].
  rewrite !bind_Ok.
  change (getPointOnBodyCurrentCoords _DEBUG (setGravityVector gx gy gz a))
    with (getPointOnBodyCurrentCoords _DEBUG (setGravityVector gx gy gz' a)).
  destruct (getPointOnBodyCurrentCoords _ _ i (cog b)) as [c| |]; [|done..].
  rewrite !bind_Ok. cbn [gravity_ setGravityVector].
  do 2 f_equal. ring.
Qed.

Lemma energy_loop_gz (_DEBUG : bool) (a : CAssembledRigidModel)
    (gx gy gz gz' : R) (bodies : list Body) :
  ∀ (i : N) (acc : R * R),
    energy_loop _DEBUG (setGravityVector gx gy gz a) i bodies acc
    = energy_loop _DEBUG (setGravityVector gx gy gz' a) i bodies acc.
Proof.
  induction bodies as [|b rest IH]; intros i acc; [done|].
  cbn [energy_loop]. rewrite (energy_of_body_gz _ _ _ _ gz gz').
  destruct (energy_of_body _ _ i b acc) as [acc'| |]; [|done..].
  rewrite !bind_Ok. apply IH.
Qed.

(** X18.  The energy of the planar model does not depend on the z
    component of gravity: whatever is set there, [evaluateEnergy] gives
    the same. *)
Theorem energy_ignores_gravity_z (_DEBUG : bool) (a : CAssembledRigidModel)
    (gx gy gz gz' : R) :
  evaluateEnergy _DEBUG (setGravityVector gx gy gz a)
  = evaluateEnergy _DEBUG (setGravityVector gx gy gz' a) ∧
  getGravityVector (setGravityVector gx gy gz a) = (gx, gy, gz).
Proof.
  split; [|done]. unfold evaluateEnergy.
  change (getBodies (parent_ (setGravityVector gx gy gz a)))
    with (getBodies (parent_ (setGravityVector gx gy gz' a))).
  by rewrite (energy_loop_gz _ _ _ _ gz gz').
Qed.

(** X19.  A new row of constraints: the call returns the number of rows
    there were, the two vectors and the five matrices all have one row
    more, no matrix changes its number of columns, and the state and the
    constraints are as before. *)
Theorem addNewRowToConstraints_rows (a : CAssembledRigidModel) (m : N)
    (Hrows : rows_agree a m) :
  (addNewRowToConstraints a).1 = m ∧
  rows_agree (addNewRowToConstraints a).2 (m + 1) ∧
  ncols <$> [Phi_q_ (addNewRowToConstraints a).2;
             dotPhi_q_ (addNewRowToConstraints a).2;
             dPhiqdq_dq_ (addNewRowToConstraints a).2;
             Phiqq_times_dq_ (addNewRowToConstraints a).2;
             d_dotPhiq_ddq_times_dq_ (addNewRowToConstraints a).2]
  = ncols <$> [Phi_q_ a; dotPhi_q_ a; dPhiqdq_dq_ a; Phiqq_times_dq_ a;
               d_dotPhiq_ddq_times_dq_ a] ∧
  q_ (addNewRowToConstraints a).2 = q_ a ∧
  dotq_ (addNewRowToConstraints a).2 = dotq_ a ∧
  constraints_ (addNewRowToConstraints a).2 = constraints_ a.
Proof.
  destruct Hrows as (HPhi & _). unfold addNewRowToConstraints, rows_agree.
  cbn. rewrite HPhi. by split_and!.
Qed.

(** The assembled four-bar linkage, with its three rows. *)
Lemma addNewRowToConstraints_rows_witness :
  (addNewRowToConstraints fourbar_arm).1 = 3%N ∧
  rows_agree (addNewRowToConstraints fourbar_arm).2 4.
Proof.
  destruct (addNewRowToConstraints_rows fourbar_arm 3) as (Hidx & Hrows & _);
    [by split_and! | by split].
Defined.

(** ** Changing a definition after its assembly *)

(** X20.  A symbolic assembly that has returned closes the definition to
    new bodies: [addBody] throws from then on, where before the first
    assembly it appends the body and touches nothing else.  Points stay
    open: [setPointCoords] still moves any of them, and leaves the flag
    of the assembly set. *)
Theorem definition_frozen_by_assembly (m m' : ModelDefinition)
    (armi : TSymbolicAssembledModel) (new_body : Body)
    (Hret : assembleRigidMBS m = (Ok armi, m')) :
  addBody m' new_body = Throw "Can't modify model after assembling!" ∧
  (already_added_fixed_len_constraints_ m = false →
   ∃ m1, addBody m new_body = Ok m1 ∧
         bodies_ m1 = bodies_ m ++ [new_body] ∧ points_ m1 = points_ m ∧
         getConstraints m1 = getConstraints m ∧
         already_added_fixed_len_constraints_ m1 = false) ∧
  (∀ (i : N) (c : TPoint2D) (is_fixed : bool),
     (i < size (points_ m))%N →
     ∃ m2, setPointCoords m' i c is_fixed = Ok m2 ∧
           getPointInfo m2 i = Ok (mkPoint2 c is_fixed) ∧
           getConstraints m2 = getConstraints m' ∧
           already_added_fixed_len_constraints_ m2 = true).
Proof.
  destruct (assembleRigidMBS_inv m m' armi Hret) as (_ & Hp & _ & Hflag).
  split_and!.
  - unfold addBody. by rewrite Hflag.
  - intros Hopen. unfold addBody. rewrite Hopen. cbn [negb].
    rewrite ASSERT_true, bind_Ok. by eexists.
  - intros i c is_fixed Hi. unfold setPointCoords. rewrite Hp.
    destruct (N.ltb_spec i (size (points_ m))); [|lia].
    rewrite ASSERT_true, bind_Ok. eexists. split; [reflexivity|].
    split_and!; [|done|done].
    unfold getPointInfo. cbn [points_].
    apply index_Some, list_lookup_insert_eq. unfold size in *. lia.
Qed.

Lemma definition_frozen_by_assembly_witness :
  addBody (linkage_closed 1) (bar 1 3 3)
  = Throw "Can't modify model after assembling!" ∧
  ∃ m1, addBody fourbar (bar 1 3 3) = Ok m1 ∧
        bodies_ m1 = linkage_bodies 1 ++ [bar 1 3 3].
Proof.
  destruct (definition_frozen_by_assembly fourbar (linkage_closed 1)
              fourbar_symbolic (bar 1 3 3) (linkage_assembleRigidMBS 1))
    as (Hthrow & Hopen & _).
  split; [exact Hthrow|].
  destruct (Hopen eq_refl) as (m1 & Hm1 & Hb & _).
  exists m1. by split.
Defined.

(** ** Printing the coordinates *)

Lemma printCoordinates_value (a : CAssembledRigidModel) :
  size (q_ a) = (size (DOFs_ a) + size (rDOFs_ a))%N →
  ∃ head,
    printCoordinates a
    = Ok ([head; "Natural coordinates:"%string]
          ++ imap natural_line (DOFs_ a)
          ++ match rDOFs_ a with
             | [] => []
             | _ => "Relative coordinates:"%string
                    :: imap (relative_line (size (DOFs_ a))) (rDOFs_ a)
             end).
Proof.
  intros Hsz. unfold printCoordinates.
  rewrite Hsz, N.eqb_refl, ASSERT_true, bind_Ok. by eexists.
Qed.

Lemma printCoordinates_throws (a : CAssembledRigidModel) :
  size (q_ a) ≠ (size (DOFs_ a) + size (rDOFs_ a))%N →
  throws (printCoordinates a).
Proof.
  intros Hne. unfold printCoordinates, ASSERT_.
  by destruct (N.eqb_spec (size (q_ a)) (size (DOFs_ a) + size (rDOFs_ a))).
Qed.

(** X21.  A model as the constructor leaves it prints: two lines of
    heading, a line for each Euclidean degree of freedom and, when there
    are relative coordinates, a heading and a line for each.  Once a call
    of the gyroscope factor has left in the model a state of another
    length, [printCoordinates] throws. *)
Theorem printCoordinates_after_constructor (armi : TSymbolicAssembledModel)
    (a : CAssembledRigidModel)
    (Hnew : CAssembledRigidModel_new armi = Ok a) :
  (∃ lines,
     printCoordinates a = Ok lines ∧
     length lines
     = (2 + length (DOFs armi)
        + match rDOFs armi with [] => 0 | _ => S (length (rDOFs armi)) end)%nat) ∧
  ∀ (f : FactorGyroscope) (q_k dq_k : list R) (H1 H2 : bool),
    size dq_k = size q_k → (1 <= size q_k)%N →
    size q_k ≠ (size (DOFs armi) + size (rDOFs armi))%N →
    throws (printCoordinates (evaluateError f a q_k dq_k H1 H2).2).
Proof.
  destruct (new_inv armi a Hnew) as (_ & HD & HR & Hq & _). cbv zeta in Hq.
  split.
  - destruct (printCoordinates_value a) as [head ->]; [by rewrite HD, HR|].
    eexists. split; [done|].
    rewrite HD, HR. cbn [app length]. rewrite length_app, length_imap.
    destruct (rDOFs armi) as [|r rest]; [cbn [length]; lia|].
    rewrite length_cons, length_imap. lia.
  - intros f q_k dq_k H1 H2 Hsize Hpos Hne.
    rewrite evaluateError_guards by done. cbn [snd].
    apply printCoordinates_throws. cbn [q_ DOFs_ rDOFs_ set_state].
    by rewrite HD, HR.
Qed.

(** The four-bar linkage: six lines; and no print after a call of the
    factor with vectors of length 2. *)
Lemma printCoordinates_after_constructor_witness :
  ∃ a,
    CAssembledRigidModel_new fourbar_symbolic = Ok a ∧
    (∃ lines, printCoordinates a = Ok lines ∧ length lines = 6%nat) ∧
    throws (printCoordinates
              (evaluateError (mkFactorGyroscope 0 0) a [1; 0]%R [0; 0]%R
                 false false).2).
Proof.
  destruct (new_collected (linkage_closed 1) [])
    as (a & _ & Hnew & _); [done | apply not_elem_of_nil |].
  exists a. split; [exact Hnew|].
  destruct (printCoordinates_after_constructor _ a Hnew) as [Hlines Hthrow].
  split; [exact Hlines|].
  apply Hthrow; [reflexivity | apply N.leb_le; reflexivity | discriminate].
Defined.

(** X22.  What the lines say: the line of Euclidean degree of freedom
    [i] gives its column [i], the letter of its axis and its point; the
    line of relative coordinate [i] gives its column, [i] past the
    Euclidean ones, and names the two points of an absolute angle, but
    has question marks only for a relative angle between three points. *)
Theorem printCoordinates_lines (a : CAssembledRigidModel)
    (lines : list string)
    (Hprint : printCoordinates a = Ok lines) :
  (∀ (i : nat) (d : NaturalCoordDOF),
     DOFs_ a !! i = Some d →
     lines !! (2 + i)%nat
     = Some (String.concat ""
               [" q["; show_N (N.of_nat i); "]: ";
                String (dof2letter (point_dof d)) ""; show_N (point_index d)]%string)) ∧
  (∀ (i : nat) (r : RelativeDOF),
     rDOFs_ a !! i = Some r →
     lines !! (3 + length (DOFs_ a) + i)%nat
     = Some (relative_line (size (DOFs_ a)) i r)) ∧
  (∀ (i : nat) (p0 p1 p2 : N),
     rDOFs_ a !! i = Some (RelativeAngleDOF p0 p1 p2) →
     lines !! (3 + length (DOFs_ a) + i)%nat
     = Some (String.concat ""
               [" q["; show_N (N.of_nat i + size (DOFs_ a))%N; "]: ???"]%string)).
Proof.
  assert (Hsz : size (q_ a) = (size (DOFs_ a) + size (rDOFs_ a))%N).
  { destruct (N.eq_dec (size (q_ a)) (size (DOFs_ a) + size (rDOFs_ a))%N)
      as [|Hne]; [done|].
    apply printCoordinates_throws in Hne. by rewrite Hprint in Hne. }
  destruct (printCoordinates_value a Hsz) as [head Hval].
  set (out := [head; "Natural coordinates:"%string]
              ++ imap natural_line (DOFs_ a)
              ++ match rDOFs_ a with
                 | [] => []
                 | _ => "Relative coordinates:"%string
                        :: imap (relative_line (size (DOFs_ a))) (rDOFs_ a)
                 end) in Hval.
  assert (Hlines : lines = out) by congruence.
  subst lines. unfold out. clear Hval Hprint out.
  assert (Hrel : ∀ (i : nat) (r : RelativeDOF),
            rDOFs_ a !! i = Some r →
            ([head; "Natural coordinates:"%string]
             ++ imap natural_line (DOFs_ a)
             ++ match rDOFs_ a with
                | [] => []
                | _ => "Relative coordinates:"%string
                       :: imap (relative_line (size (DOFs_ a))) (rDOFs_ a)
                end) !! (3 + length (DOFs_ a) + i)%nat
            = Some (relative_line (size (DOFs_ a)) i r)).
  { intros i r Hr.
    rewrite lookup_app_r by (cbn [length]; lia).
    rewrite lookup_app_r by (rewrite length_imap; cbn [length]; lia).
    replace (3 + length (DOFs_ a) + i
             - length [head; "Natural coordinates:"%string]
             - length (imap natural_line (DOFs_ a)))%nat with (S i)
      by (rewrite length_imap; cbn [length]; lia).
    destruct (rDOFs_ a) as [|r0 rest] eqn:E; [done|].
    rewrite lookup_cons, list_lookup_imap, Hr. done. }
  split_and!.
  - intros i d Hd.
    rewrite lookup_app_r by (cbn [length]; lia).
    replace (2 + i - length [head; "Natural coordinates:"%string])%nat
      with i by (cbn [length]; lia).
    rewrite lookup_app_l by (rewrite length_imap; by eapply lookup_lt_Some).
    rewrite list_lookup_imap, Hd. reflexivity.
  - exact Hrel.
  - intros i p0 p1 p2 Hr. rewrite (Hrel _ _ Hr). reflexivity.
Qed.

(** The four-bar linkage with the absolute angle of its crank and the
    angle between crank and coupler as relative coordinates. *)
Lemma printCoordinates_lines_witness :
  ∃ a lines,
    CAssembledRigidModel_new
      (mkSymbolic (linkage_closed 1) fourbar_DOFs
         [RelativeAngleAbsoluteDOF 0 1; RelativeAngleDOF 0 1 2]) = Ok a ∧
    printCoordinates a = Ok lines ∧
    lines !! 3%nat = Some " q[1]: y1"%string ∧
    lines !! 7%nat = Some " q[4]: relativeAngleWrtGround(0 - 1)"%string ∧
    lines !! 8%nat = Some " q[5]: ???"%string.
Proof.
  destruct (new_collected (linkage_closed 1)
              [RelativeAngleAbsoluteDOF 0 1; RelativeAngleDOF 0 1 2])
    as (a & _ & Hnew & _ & _ & Hq & _ & HD & HR & _); [done| |].
  { intros H. repeat (apply elem_of_cons in H as [H|H]; [done|]).
    by apply elem_of_nil in H. }
  destruct (printCoordinates_value a) as [head Hprint];
    [by rewrite Hq, HD, HR|].
  rewrite HD, HR in Hprint.
  eexists a, _. split; [exact Hnew|]. split; [exact Hprint|].
  destruct (printCoordinates_lines a _ Hprint) as (Hnat & Hrel & Hunk).
  rewrite HD in Hnat, Hrel, Hunk. rewrite HR in Hrel, Hunk.
  split_and!.
  - exact (Hnat 1%nat _ eq_refl).
  - exact (Hrel 0%nat _ eq_refl).
  - exact (Hunk 1%nat _ _ _ eq_refl).
Defined.

(** ** What the constructor establishes *)

Lemma new_at_rest (armi : TSymbolicAssembledModel) (a : CAssembledRigidModel) :
  CAssembledRigidModel_new armi = Ok a →
  dof_table_ok a ∧
  (length (DOFs_ a) <= length (q_ a))%nat ∧
  (length (DOFs_ a) <= length (dotq_ a))%nat ∧
  at_rest a.
Proof.
  intros Hnew.
  destruct (new_inv armi a Hnew) as (_ & HD & _ & Hq & Hdq & _ & _ & Hok).
  cbv zeta in *. split_and!; [done | | |].
  - rewrite HD. unfold size in Hq. lia.
  - rewrite HD, Hdq. unfold setZero, size. rewrite length_replicate. lia.
  - apply zero_dotq_at_rest. rewrite Hdq. unfold setZero.
    apply Forall_forall. by intros r [-> _]%elem_of_replicate.
Qed.

Lemma body_ok_reference_points (a : CAssembledRigidModel) (k : nat)
    (b : Body) :
  body_ok (parent_ a) b → getBodies (parent_ a) !! k = Some b →
  ∃ i0 i1, reference_points a (N.of_nat k) b i0 i1.
Proof.
  intros [Hn Hpts] Hk. unfold reference_points. rewrite Nat2N.id.
  destruct (points b) as [|i0 [|i1 rest]] eqn:E;
    try (unfold size in Hn; cbn in Hn; lia).
  exists i0, i1. split_and!; try done.
  - apply Forall_cons in Hpts as [H0 _]. exact H0.
  - apply Forall_cons in Hpts as [_ Hpts].
    apply Forall_cons in Hpts as [H1 _]. exact H1.
Qed.

(** X23.  Whenever the constructor returns, its model is well formed and
    at rest: the reverse table of the points agrees with the list of
    degrees of freedom, [q] and [dq] reach every column of a degree of
    freedom, every point of the definition can be read, and every point
    has velocity zero. *)
Theorem constructed_model_well_formed (armi : TSymbolicAssembledModel)
    (a : CAssembledRigidModel)
    (Hnew : CAssembledRigidModel_new armi = Ok a) :
  dof_table_ok a ∧
  (length (DOFs_ a) <= length (q_ a))%nat ∧
  (length (DOFs_ a) <= length (dotq_ a))%nat ∧
  ∀ p : N, (p < getPointCount (model armi))%N →
    (∃ c, getPointCurrentCoords a p = Ok c) ∧
    getPointCurrentVelocity a p = Ok (mkTPoint2D 0 0).
Proof.
  destruct (new_at_rest armi a Hnew) as (Hok & Hq & Hdq & Hrest).
  destruct (new_inv armi a Hnew) as (Hparent & _).
  split_and!; try done. intros p Hp. rewrite <- Hparent in Hp.
  destruct (accessors_return a p Hok Hp Hq Hdq)
    as (info & d & _ & _ & Hc & Hv).
  split; [by eexists|]. rewrite Hv. f_equal. by apply (Hrest p).
Qed.

Lemma constructed_model_well_formed_witness :
  dof_table_ok fourbar_arm ∧
  getPointCurrentVelocity fourbar_arm 2 = Ok (mkTPoint2D 0 0).
Proof.
  destruct (constructed_model_well_formed fourbar_symbolic fourbar_arm
              (linkage_new 1)) as (Hok & _ & _ & Hread).
  split; [exact Hok|].
  apply (Hread 2%N). apply N.ltb_lt. reflexivity.
Defined.

(** X24.  A definition whose bodies have two reference points among its
    points, once fully assembled, has an energy, and no kinetic energy:
    its total energy is its potential energy. *)
Theorem assembled_model_energy (_DEBUG : bool) (m m' : ModelDefinition)
    (armi : TSymbolicAssembledModel) (rel : option (list RelativeDOF))
    (Hsym : assembleRigidMBS m = (Ok armi, m'))
    (Hfree : ∃ pt, pt ∈ points_ m ∧ fixed pt = false)
    (Hknown : OtherRelativeDOF ∉ default [] rel)
    (Hbodies : Forall (body_ok m) (bodies_ m))
    (HL : _DEBUG = true → Forall (λ b, (length_ b > 0)%R) (bodies_ m)) :
  ∃ a e,
    assembleRigidMBS_shared m rel = (Ok a, m') ∧
    evaluateEnergy _DEBUG a = Ok e ∧
    E_kin e = 0%R ∧ E_total e = E_pot e.
Proof.
  destruct (assembleRigidMBS_shared_returns m m' armi rel Hsym Hfree Hknown)
    as (a & Hret & Hpts & _).
  destruct (assembleRigidMBS_inv m m' armi Hsym) as (-> & Hp' & Hb' & _).
  assert (Hnew : ∃ armi', CAssembledRigidModel_new armi' = Ok a ∧
                          model armi' = m').
  { unfold assembleRigidMBS_shared in Hret. rewrite Hsym in Hret.
    injection Hret as Hret. destruct rel; by eexists. }
  destruct Hnew as (armi' & Hnew & Hmodel).
  destruct (new_at_rest armi' a Hnew) as (Hok & Hq & Hdq & Hrest).
  destruct (new_inv armi' a Hnew) as (Hparent & _).
  rewrite Hmodel in Hparent.
  destruct (energy_loop_value _DEBUG a (getBodies (parent_ a)) Hok Hq Hdq
              0%N (0, 0)%R) as (kin & Hloop & Hkin).
  { intros k b Hk. rewrite N.add_0_l.
    assert (Hin : b ∈ bodies_ m).
    { rewrite <- Hb', <- Hparent. by eapply list_elem_of_lookup_2. }
    destruct (body_ok_reference_points a k b) as (i0 & i1 & Href);
      [|done|].
    { rewrite Forall_forall in Hbodies. destruct (Hbodies b Hin) as [H2 Hall].
      split; [done|]. by rewrite Hparent, Hp'. }
    exists i0, i1. split; [done|]. intros HD.
    specialize (HL HD). rewrite Forall_forall in HL. by apply HL. }
  exists a. eexists. split; [done|].
  unfold evaluateEnergy. rewrite Hloop, bind_Ok.
  split; [reflexivity|]. cbn [E_kin E_pot E_total].
  rewrite (Hkin Hrest). cbn [fst]. split; [done|ring].
Qed.

(** The four-bar linkage, in a debug build. *)
Lemma assembled_model_energy_witness :
  ∃ a e,
    assembleRigidMBS_shared fourbar None = (Ok a, linkage_closed 1) ∧
    evaluateEnergy true a = Ok e ∧ E_kin e = 0%R ∧ E_total e = E_pot e.
Proof.
  apply (assembled_model_energy true fourbar (linkage_closed 1)
           fourbar_symbolic None (linkage_assembleRigidMBS 1)
           fourbar_has_free_point).
  - apply not_elem_of_nil.
  - bodies_ok.
  - intros _. repeat constructor; cbn; try lra. apply sqrt_lt_R0. lra.
Defined.

(** ** The Jacobian entries of the two points *)

Lemma hits_own (c : dof_index_t) :
  c ≠ INVALID_DOF → hits c (N.to_nat c) = true.
Proof.
  intros Hv. unfold hits. rewrite N2Nat.id, N.eqb_refl.
  by destruct (N.eqb_spec c INVALID_DOF).
Qed.

Lemma hits_foreign (c c' : dof_index_t) :
  (c = c' → c = INVALID_DOF) → hits c (N.to_nat c') = false.
Proof.
  intros Hapart. unfold hits. rewrite N2Nat.id.
  destruct (N.eqb_spec c INVALID_DOF) as [|Hv]; [done|].
  destruct (N.eqb_spec c c') as [E|]; [|done]. by destruct (Hv (Hapart E)).
Qed.

(** In a row of zeros after the four writes each free column holds the
    value written for it. *)
Lemma nth_four_writes_own (n : N) (d0 d1 : Point2ToDOF) (e1 e2 e3 e4 : R) :
  columns_apart d0 d1 →
  column_in (dof_x d0) (setZero n) → column_in (dof_y d0) (setZero n) →
  column_in (dof_x d1) (setZero n) → column_in (dof_y d1) (setZero n) →
  let row := with_column (dof_y d1) e4
               (with_column (dof_x d1) e3
                  (with_column (dof_y d0) e2
                     (with_column (dof_x d0) e1 (setZero n)))) in
  (dof_x d0 ≠ INVALID_DOF → nth (N.to_nat (dof_x d0)) row 0%R = e1) ∧
  (dof_y d0 ≠ INVALID_DOF → nth (N.to_nat (dof_y d0)) row 0%R = e2) ∧
  (dof_x d1 ≠ INVALID_DOF → nth (N.to_nat (dof_x d1)) row 0%R = e3) ∧
  (dof_y d1 ≠ INVALID_DOF → nth (N.to_nat (dof_y d1)) row 0%R = e4).
Proof.
  intros Hapart Hx0 Hy0 Hx1 Hy1. cbv zeta.
  assert (A : ∀ j k cj ck, j ≠ k →
            [dof_x d0; dof_y d0; dof_x d1; dof_y d1] !! j = Some cj →
            [dof_x d0; dof_y d0; dof_x d1; dof_y d1] !! k = Some ck →
            cj = ck → cj = INVALID_DOF).
  { intros j k cj ck Hjk Hj Hk E. apply (Hapart j k); [done|done|].
    by rewrite E. }
  assert (Hin : ∀ c, column_in c (setZero n) → c ≠ INVALID_DOF →
                     (N.to_nat c < N.to_nat n)%nat).
  { intros c [|Hc] Hv; [done|]. rewrite size_setZero in Hc. lia. }
  split_and!; intros Hv; rewrite nth_four_writes by (by apply Hin).
  - rewrite (hits_foreign (dof_y d1)) by (by apply (A 3 0)%nat).
    rewrite (hits_foreign (dof_x d1)) by (by apply (A 2 0)%nat).
    rewrite (hits_foreign (dof_y d0)) by (by apply (A 1 0)%nat).
    by rewrite hits_own.
  - rewrite (hits_foreign (dof_y d1)) by (by apply (A 3 1)%nat).
    rewrite (hits_foreign (dof_x d1)) by (by apply (A 2 1)%nat).
    by rewrite hits_own.
  - rewrite (hits_foreign (dof_y d1)) by (by apply (A 3 2)%nat).
    by rewrite hits_own.
  - by rewrite hits_own.
Qed.

(** X25.  For a body whose two reference points are apart and free along
    an axis, the entries of each Jacobian in the columns of that axis of
    the two points cancel: to first order the error does not feel a shift
    of the body, nor a velocity common to its two points. *)
Theorem gyroscope_jacobians_cancel (f : FactorGyroscope)
    (a : CAssembledRigidModel) (q_k dq_k : list R)
    (b : Body) (i0 i1 : N) (p0 p1 : TPoint2D)
    (Hok : dof_table_ok a)
    (Href : reference_points a (m_body_idx f) b i0 i1)
    (Hlen : (length (DOFs_ a) <= length q_k)%nat)
    (Hsize : size dq_k = size q_k) (Hpos : (1 <= size q_k)%N)
    (Hp0 : getPointCurrentCoords (set_state q_k dq_k a) i0 = Ok p0)
    (Hp1 : getPointCurrentCoords (set_state q_k dq_k a) i1 = Ok p1)
    (Hsep : p0 ≠ p1) :
  ∃ d0 d1 e row1 row2,
    points2DOFs_ a !! N.to_nat i0 = Some d0 ∧
    points2DOFs_ a !! N.to_nat i1 = Some d1 ∧
    (evaluateError f a q_k dq_k true true).1 = Ok e ∧
    H1_out e = Some row1 ∧ H2_out e = Some row2 ∧
    (dof_x d0 ≠ INVALID_DOF → dof_x d1 ≠ INVALID_DOF →
     (nth (N.to_nat (dof_x d0)) row1 0 + nth (N.to_nat (dof_x d1)) row1 0
      = 0)%R ∧
     (nth (N.to_nat (dof_x d0)) row2 0 + nth (N.to_nat (dof_x d1)) row2 0
      = 0)%R) ∧
    (dof_y d0 ≠ INVALID_DOF → dof_y d1 ≠ INVALID_DOF →
     (nth (N.to_nat (dof_y d0)) row1 0 + nth (N.to_nat (dof_y d1)) row1 0
      = 0)%R ∧
     (nth (N.to_nat (dof_y d0)) row2 0 + nth (N.to_nat (dof_y d1)) row2 0
      = 0)%R).
Proof.
  assert (Hne : i0 ≠ i1).
  { intros ->. rewrite Hp0 in Hp1. by injection Hp1. }
  destruct (evaluateError_returns f a q_k dq_k true true b i0 i1
              Hok Href Hlen Hsize Hpos)
    as (info0 & info1 & d0 & d1 & _ & _ & Hd0 & Hd1 & _ & _
        & _ & _ & row1 & row2 & Hrow1 & Hrow2 & Heval).
  cbv zeta in *.
  destruct (dof_table_columns a i0 d0 q_k Hok Hd0 Hlen) as [Hx0 Hy0].
  destruct (dof_table_columns a i1 d1 q_k Hok Hd1 Hlen) as [Hx1 Hy1].
  pose proof (dof_table_columns_apart a i0 i1 d0 d1 Hok Hne Hd0 Hd1)
    as Hapart.
  assert (Hz : ∀ c, column_in c q_k → column_in c (setZero (size q_k))).
  { intros c. apply column_in_size. by rewrite size_setZero. }
  unfold jacobian_q in Hrow1. unfold jacobian_dq in Hrow2.
  rewrite four_writes in Hrow1 by (by apply Hz).
  rewrite four_writes in Hrow2 by (by apply Hz).
  injection Hrow1 as <-. injection Hrow2 as <-.
  exists d0, d1. eexists. eexists _, _.
  split_and!; [done | done | by rewrite Heval | done | done | |].
  - intros Hv0 Hv1. split.
    + match goal with |- context [with_column _ ?e4 (with_column _ ?e3
          (with_column _ ?e2 (with_column _ ?e1 _)))] =>
        destruct (nth_four_writes_own (size q_k) d0 d1 e1 e2 e3 e4 Hapart)
          as (E1 & _ & E3 & _); try (by apply Hz)
      end.
      rewrite (E1 Hv0), (E3 Hv1). ring.
    + match goal with |- context [with_column _ ?e4 (with_column _ ?e3
          (with_column _ ?e2 (with_column _ ?e1 _)))] =>
        destruct (nth_four_writes_own (size q_k) d0 d1 e1 e2 e3 e4 Hapart)
          as (E1 & _ & E3 & _); try (by apply Hz)
      end.
      rewrite (E1 Hv0), (E3 Hv1). ring.
  - intros Hv0 Hv1. split.
    + match goal with |- context [with_column _ ?e4 (with_column _ ?e3
          (with_column _ ?e2 (with_column _ ?e1 _)))] =>
        destruct (nth_four_writes_own (size q_k) d0 d1 e1 e2 e3 e4 Hapart)
          as (_ & E2 & _ & E4); try (by apply Hz)
      end.
      rewrite (E2 Hv0), (E4 Hv1). ring.
    + match goal with |- context [with_column _ ?e4 (with_column _ ?e3
          (with_column _ ?e2 (with_column _ ?e1 _)))] =>
        destruct (nth_four_writes_own (size q_k) d0 d1 e1 e2 e3 e4 Hapart)
          as (_ & E2 & _ & E4); try (by apply Hz)
      end.
      rewrite (E2 Hv0), (E4 Hv1). ring.
Qed.

Lemma coupler_reference_points (q dq : list R) :
  reference_points (fourbar_at q dq) 1 (bar 1 2 2) 1 2.
Proof. by split_and!. Qed.

(** The coupler of the four-bar linkage, both of whose points are free:
    columns 0 and 2 hold the x coordinates, columns 1 and 3 the y
    coordinates. *)
Lemma gyroscope_jacobians_cancel_witness :
  ∃ e row1 row2,
    (evaluateError (mkFactorGyroscope 1 0) fourbar_arm
       [1; 0; 1; 2]%R [0; 1; 3; 1]%R true true).1 = Ok e ∧
    H1_out e = Some row1 ∧ H2_out e = Some row2 ∧
    (nth 0 row1 0 + nth 2 row1 0 = 0)%R ∧
    (nth 1 row2 0 + nth 3 row2 0 = 0)%R.
Proof.
  destruct (gyroscope_jacobians_cancel (mkFactorGyroscope 1 0) fourbar_arm
              [1; 0; 1; 2]%R [0; 1; 3; 1]%R (bar 1 2 2) 1 2
              (mkTPoint2D 1 0) (mkTPoint2D 1 2)
              (linkage_dof_table_ok 1 _ _) (coupler_reference_points _ _))
    as (d0 & d1 & e & row1 & row2 & Hd0 & Hd1 & He & Hr1 & Hr2 & Hx & Hy);
    [apply le_n | reflexivity | apply N.leb_le; reflexivity
     | reflexivity | reflexivity | intros [= H0]; lra |].
  injection Hd0 as <-. injection Hd1 as <-.
  exists e, row1, row2. split_and!; [done|done|done| |].
  - by destruct Hx as [Hx1 _].
  - by destruct Hy as [_ Hy2].
Defined.

(** ** A body that is not there *)

(** X26.  For a body index beyond the bodies of the definition,
    [getPointOnBodyCurrentCoords] throws in a debug build; in a release
    build nothing checks the index and the access to the bodies is out of
    range. *)
Theorem body_index_out_of_range (a : CAssembledRigidModel) (body_index : N)
    (relative_pt : TPoint2D)
    (Hbad : (size (getBodies (parent_ a)) <= body_index)%N) :
  getPointOnBodyCurrentCoords true a body_index relative_pt
  = Throw "body_index < parent_.getBodies().size()" ∧
  getPointOnBodyCurrentCoords false a body_index relative_pt = Undef.
Proof.
  unfold getPointOnBodyCurrentCoords, ASSERTDEB_.
  replace (body_index <? size (getBodies (parent_ a)))%N with false
    by (symmetry; by apply N.ltb_ge).
  split; [done|]. cbn [andb]. unfold index.
  rewrite lookup_ge_None_2; [done|]. unfold size in Hbad. lia.
Qed.

Lemma body_index_out_of_range_witness :
  getPointOnBodyCurrentCoords true fourbar_arm 3 (mkTPoint2D 0 0)
  = Throw "body_index < parent_.getBodies().size()".
Proof.
  destruct (body_index_out_of_range fourbar_arm 3 (mkTPoint2D 0 0))
    as [Hthrow _]; [apply N.leb_le; reflexivity | exact Hthrow].
Defined.
